(** * A shallow embedding of the Tetris engine of [game_logic.py]

    The engine is the class [TetrisGame]: a 10x20 board of integer cells, the
    falling piece with its rotation index and offset, and the score, line and
    level counters.  Python integers are modelled by [Z], Python lists by
    [list] with the indexing rules of Python written out (negative indices
    count from the end, an index out of range raises [IndexError]), and the
    object's attributes by the record [Game].  A method is a function from
    the state before the call to the outcome and the state after it; a raised
    exception keeps the mutations made before it. *)

From stdpp Require Import base numbers list strings sorting.

Open Scope Z_scope.

(** ** Exceptions and Python list operations *)

Inductive exn := IndexError | ZeroDivisionError.

Inductive result (A : Type) :=
  | Ok (a : A)
  | Raise (e : exn).
Arguments Ok {A} a.
Arguments Raise {A} e.

Definition rbind {A B} (r : result A) (f : A -> result B) : result B :=
  match r with
  | Ok a => f a
  | Raise e => Raise e
  end.

Notation "'try!' x ':=' r 'in' k" := (rbind r (fun x => k))
  (at level 10, x name, r at level 100, k at level 200).

(** The position of index [i] in a list of length [n]: a negative index counts
    from the end; [None] when the index is out of range. *)
Definition norm_index (n : nat) (i : Z) : option nat :=
  let j := if i <? 0 then i + Z.of_nat n else i in
  if (0 <=? j) && (j <? Z.of_nat n) then Some (Z.to_nat j) else None.

(** [l[i]] *)
Definition py_getitem {A} (l : list A) (i : Z) : result A :=
  match norm_index (length l) i with
  | Some j => match l !! j with Some a => Ok a | None => Raise IndexError end
  | None => Raise IndexError
  end.

(** [l[i] = v] *)
Definition py_setitem {A} (l : list A) (i : Z) (v : A) : result (list A) :=
  match norm_index (length l) i with
  | Some j => Ok (<[j:=v]> l)
  | None => Raise IndexError
  end.

(** [del l[i]] *)
Definition py_delitem {A} (l : list A) (i : Z) : result (list A) :=
  match norm_index (length l) i with
  | Some j => Ok (delete j l)
  | None => Raise IndexError
  end.

(** [a % b] *)
Definition py_mod (a b : Z) : result Z :=
  if b =? 0 then Raise ZeroDivisionError else Ok (a mod b).

(** [len(l)] *)
Definition len {A} (l : list A) : Z := Z.of_nat (length l).

(** Truth value of an integer cell. *)
Definition truthy (c : Z) : bool := negb (c =? 0).

(** [all(row)] *)
Definition all (row : list Z) : bool := forallb truthy row.

(** [range(n)] *)
Definition range (n : Z) : list Z := Z.of_nat <$> seq 0 (Z.to_nat n).

(** [sorted(l, reverse=True)] *)
Definition sorted_reverse (l : list Z) : list Z := merge_sort Z.ge l.

(** ** The tetromino catalogue *)

Inductive kind := KI | KO | KT | KS | KZ | KJ | KL.

Abbreviation Grid := (list (list Z)).

Record Tetromino := {
  t_shape : Grid;
  t_color : string;
  t_rotations : list Grid
}.

Definition TETROMINOS (k : kind) : Tetromino :=
  match k with
  | KI => {| t_shape := [[1; 1; 1; 1]];
             t_color := "#00ffff";
             t_rotations := [ [[1; 1; 1; 1]];
                              [[1]; [1]; [1]; [1]] ] |}
  | KO => {| t_shape := [[1; 1]; [1; 1]];
             t_color := "#ffff00";
             t_rotations := [ [[1; 1]; [1; 1]] ] |}
  | KT => {| t_shape := [[0; 1; 0]; [1; 1; 1]];
             t_color := "#800080";
             t_rotations := [ [[0; 1; 0]; [1; 1; 1]];
                              [[1; 0]; [1; 1]; [1; 0]];
                              [[1; 1; 1]; [0; 1; 0]];
                              [[0; 1]; [1; 1]; [0; 1]] ] |}
  | KS => {| t_shape := [[0; 1; 1]; [1; 1; 0]];
             t_color := "#00ff00";
             t_rotations := [ [[0; 1; 1]; [1; 1; 0]];
                              [[1; 0]; [1; 1]; [0; 1]] ] |}
  | KZ => {| t_shape := [[1; 1; 0]; [0; 1; 1]];
             t_color := "#ff0000";
             t_rotations := [ [[1; 1; 0]; [0; 1; 1]];
                              [[0; 1]; [1; 1]; [1; 0]] ] |}
  | KJ => {| t_shape := [[1; 0; 0]; [1; 1; 1]];
             t_color := "#0000ff";
             t_rotations := [ [[1; 0; 0]; [1; 1; 1]];
                              [[1; 1]; [1; 0]; [1; 0]];
                              [[1; 1; 1]; [0; 0; 1]];
                              [[0; 1]; [0; 1]; [1; 1]] ] |}
  | KL => {| t_shape := [[0; 0; 1]; [1; 1; 1]];
             t_color := "#ffa500";
             t_rotations := [ [[0; 0; 1]; [1; 1; 1]];
                              [[1; 0]; [1; 0]; [1; 1]];
                              [[1; 1; 1]; [1; 0; 0]];
                              [[1; 1]; [0; 1]; [0; 1]] ] |}
  end.

Definition BOARD_WIDTH : Z := 10.
Definition BOARD_HEIGHT : Z := 20.

(** ** The state of a [TetrisGame] *)

(** A piece is the dict with the keys 'type', 'shape', 'color', 'rotations'. *)
Record Piece := {
  type : kind;
  shape : Grid;
  color : string;
  rotations : list Grid
}.

(** A position is the dict with the keys 'x' and 'y'. *)
Record Pos := { pos_x : Z; pos_y : Z }.

(** The attributes of the object once [__init__] has run ([current_piece] and
    [next_piece] are never [None] from then on). *)
Record Game := {
  board : Grid;
  score : Z;
  lines_cleared : Z;
  level : Z;
  current_piece : Piece;
  next_piece : Piece;
  held_piece : option Piece;
  piece_position : Pos;
  rotation : Z;
  can_hold : bool
}.

Definition set_board (v : Grid) (g : Game) : Game :=
  {| board := v; score := score g; lines_cleared := lines_cleared g;
     level := level g; current_piece := current_piece g;
     next_piece := next_piece g; held_piece := held_piece g;
     piece_position := piece_position g; rotation := rotation g;
     can_hold := can_hold g |}.

Definition set_score (v : Z) (g : Game) : Game :=
  {| board := board g; score := v; lines_cleared := lines_cleared g;
     level := level g; current_piece := current_piece g;
     next_piece := next_piece g; held_piece := held_piece g;
     piece_position := piece_position g; rotation := rotation g;
     can_hold := can_hold g |}.

Definition set_lines_cleared (v : Z) (g : Game) : Game :=
  {| board := board g; score := score g; lines_cleared := v;
     level := level g; current_piece := current_piece g;
     next_piece := next_piece g; held_piece := held_piece g;
     piece_position := piece_position g; rotation := rotation g;
     can_hold := can_hold g |}.

Definition set_level (v : Z) (g : Game) : Game :=
  {| board := board g; score := score g; lines_cleared := lines_cleared g;
     level := v; current_piece := current_piece g;
     next_piece := next_piece g; held_piece := held_piece g;
     piece_position := piece_position g; rotation := rotation g;
     can_hold := can_hold g |}.

Definition set_current_piece (v : Piece) (g : Game) : Game :=
  {| board := board g; score := score g; lines_cleared := lines_cleared g;
     level := level g; current_piece := v;
     next_piece := next_piece g; held_piece := held_piece g;
     piece_position := piece_position g; rotation := rotation g;
     can_hold := can_hold g |}.

Definition set_next_piece (v : Piece) (g : Game) : Game :=
  {| board := board g; score := score g; lines_cleared := lines_cleared g;
     level := level g; current_piece := current_piece g;
     next_piece := v; held_piece := held_piece g;
     piece_position := piece_position g; rotation := rotation g;
     can_hold := can_hold g |}.

Definition set_held_piece (v : option Piece) (g : Game) : Game :=
  {| board := board g; score := score g; lines_cleared := lines_cleared g;
     level := level g; current_piece := current_piece g;
     next_piece := next_piece g; held_piece := v;
     piece_position := piece_position g; rotation := rotation g;
     can_hold := can_hold g |}.

Definition set_piece_position (v : Pos) (g : Game) : Game :=
  {| board := board g; score := score g; lines_cleared := lines_cleared g;
     level := level g; current_piece := current_piece g;
     next_piece := next_piece g; held_piece := held_piece g;
     piece_position := v; rotation := rotation g;
     can_hold := can_hold g |}.

Definition set_rotation (v : Z) (g : Game) : Game :=
  {| board := board g; score := score g; lines_cleared := lines_cleared g;
     level := level g; current_piece := current_piece g;
     next_piece := next_piece g; held_piece := held_piece g;
     piece_position := piece_position g; rotation := v;
     can_hold := can_hold g |}.

Definition set_can_hold (v : bool) (g : Game) : Game :=
  {| board := board g; score := score g; lines_cleared := lines_cleared g;
     level := level g; current_piece := current_piece g;
     next_piece := next_piece g; held_piece := held_piece g;
     piece_position := piece_position g; rotation := rotation g;
     can_hold := v |}.

(** ** Methods as state transformers

    [M A] is a method returning an [A]: it maps the state before the call to
    its outcome (a value or a raised exception) and the state after it. *)

Definition M (A : Type) : Type := Game -> result A * Game.

Definition ret {A} (a : A) : M A := fun g => (Ok a, g).

Definition bind {A B} (m : M A) (f : A -> M B) : M B :=
  fun g =>
    match m g with
    | (Ok a, g') => f a g'
    | (Raise e, g') => (Raise e, g')
    end.

Notation "'do!' x ':=' m 'in' k" := (bind m (fun x => k))
  (at level 10, x name, m at level 100, k at level 200).

(** A computation that only reads the state. *)
Definition read {A} (f : Game -> result A) : M A := fun g => (f g, g).

(** An assignment to attributes. *)
Definition modify (f : Game -> Game) : M unit := fun g => (Ok tt, f g).

(** [for v in l: body v] *)
Fixpoint for_each {A} (l : list A) (body : A -> M unit) : M unit :=
  match l with
  | [] => ret tt
  | v :: rest => do! _ := body v in for_each rest body
  end.

(** ** The methods of [TetrisGame] *)

(** [_generate_random_piece], with [rnd] the key drawn by [random.choice]. *)
Definition generate_random_piece (rnd : kind) : Piece :=
  let piece_type := rnd in
  {| type := piece_type;
     shape := t_shape (TETROMINOS piece_type);
     color := t_color (TETROMINOS piece_type);
     rotations := t_rotations (TETROMINOS piece_type) |}.

(** The inner loop of [_is_valid_position] over the columns of one row of the
    shape: [Ok false] when the loop returns [False], [Ok true] when it runs
    to its end. *)
Fixpoint check_cols (board : Grid) (pos : Pos) (row col : Z) (cells : list Z)
  : result bool :=
  match cells with
  | [] => Ok true
  | c :: rest =>
      if truthy c then
        let new_x := pos_x pos + col in
        let new_y := pos_y pos + row in
        if (new_x <? 0) || (new_x >=? BOARD_WIDTH) || (new_y >=? BOARD_HEIGHT)
        then Ok false
        else
          try! hit :=
            (if new_y >=? 0
             then try! r := py_getitem board new_y in
                  try! v := py_getitem r new_x in
                  Ok (truthy v)
             else Ok false) in
          if hit then Ok false else check_cols board pos row (col + 1) rest
      else check_cols board pos row (col + 1) rest
  end.

(** The outer loop of [_is_valid_position] over the rows of the shape. *)
Fixpoint check_rows (board : Grid) (pos : Pos) (row : Z) (rows : Grid)
  : result bool :=
  match rows with
  | [] => Ok true
  | cells :: rest =>
      try! ok := check_cols board pos row 0 cells in
      if ok then check_rows board pos (row + 1) rest else Ok false
  end.

(** [_is_valid_position(piece=None, pos=None, rotation=None)] *)
Definition is_valid_position (self : Game)
    (piece : option Piece) (pos : option Pos) (rotation_ : option Z)
  : result bool :=
  let piece := match piece with None => current_piece self | Some p => p end in
  let pos := match pos with None => piece_position self | Some p => p end in
  let rotation_ := match rotation_ with None => rotation self | Some r => r end in
  try! i := py_mod rotation_ (len (rotations piece)) in
  try! shape := py_getitem (rotations piece) i in
  check_rows (board self) pos 0 shape.

(** The spawn offset: [BOARD_WIDTH // 2 - piece_width // 2] at row 0. *)
Definition spawn_position (piece : Piece) : result Pos :=
  try! row0 := py_getitem (shape piece) 0 in
  let piece_width := len row0 in
  Ok {| pos_x := BOARD_WIDTH / 2 - piece_width / 2; pos_y := 0 |}.

(** [_spawn_new_piece] *)
Definition spawn_new_piece (rnd : kind) : M bool :=
  do! _ := modify (fun g => set_current_piece (next_piece g) g) in
  do! _ := modify (set_next_piece (generate_random_piece rnd)) in
  do! _ := modify (set_rotation 0) in
  do! _ := modify (set_can_hold true) in
  do! p := read (fun g => spawn_position (current_piece g)) in
  do! _ := modify (set_piece_position p) in
  do! valid := read (fun g => is_valid_position g None None None) in
  if negb valid then ret false else ret true.

(** [__init__]: the attributes are set, the first lookahead piece is drawn
    ([rnd1]) and the first piece is spawned (drawing [rnd2]); the result of the
    spawn is not looked at.  [current_piece] is [None] until the spawn assigns
    it; the record holds the lookahead piece in its place for that moment. *)
Definition new_game (rnd1 rnd2 : kind) : Game :=
  let self :=
    {| board := replicate (Z.to_nat BOARD_HEIGHT) (replicate (Z.to_nat BOARD_WIDTH) 0);
       score := 0;
       lines_cleared := 0;
       level := 1;
       current_piece := generate_random_piece rnd1;
       next_piece := generate_random_piece rnd1;
       held_piece := None;
       piece_position := {| pos_x := 0; pos_y := 0 |};
       rotation := 0;
       can_hold := true |} in
  snd (spawn_new_piece rnd2 self).

(** [move_piece(dx, dy)] *)
Definition move_piece (dx dy : Z) : M bool :=
  do! new_pos := read (fun g =>
      Ok {| pos_x := pos_x (piece_position g) + dx;
            pos_y := pos_y (piece_position g) + dy |}) in
  do! valid := read (fun g => is_valid_position g None (Some new_pos) None) in
  if valid then
    do! _ := modify (set_piece_position new_pos) in
    ret true
  else ret false.

(** The wall-kick loop of [rotate_piece]: [Ok true] when a kick is committed
    (the method returns [True]), [Ok false] when the loop runs to its end. *)
Fixpoint try_kicks (new_rotation : Z) (kicks : list Z) : M bool :=
  match kicks with
  | [] => ret false
  | kick_x :: rest =>
      do! kick_pos := read (fun g =>
          Ok {| pos_x := pos_x (piece_position g) + kick_x;
                pos_y := pos_y (piece_position g) |}) in
      do! valid := read (fun g =>
          is_valid_position g None (Some kick_pos) (Some new_rotation)) in
      if valid then
        do! _ := modify (set_rotation new_rotation) in
        do! _ := modify (set_piece_position kick_pos) in
        ret true
      else try_kicks new_rotation rest
  end.

(** [rotate_piece] *)
Definition rotate_piece : M bool :=
  do! new_rotation := read (fun g =>
      py_mod (rotation g + 1) (len (rotations (current_piece g)))) in
  do! valid := read (fun g => is_valid_position g None None (Some new_rotation)) in
  if valid then
    do! _ := modify (set_rotation new_rotation) in
    ret true
  else
    do! kicked := try_kicks new_rotation [-1; 1; -2; 2] in
    if kicked then ret true else ret false.

(** [drop_piece] *)
Definition drop_piece : M bool := move_piece 0 1.

(** The elements of a list with their indices, as [range(len(l))] visits them. *)
Definition enumerate {A} (l : list A) : list (Z * A) := zip (range (len l)) l.

(** [self.board[board_y][board_x] = 1]: the row object is looked up and
    updated in place.  The rows of the board are distinct lists (the
    comprehension of [__init__] and the [insert] of [_clear_lines] create a
    fresh list each), so the update shows in this row only. *)
Definition write_cell (board_y board_x : Z) : M unit :=
  fun g =>
    match py_getitem (board g) board_y with
    | Raise e => (Raise e, g)
    | Ok r =>
        match py_setitem r board_x 1 with
        | Raise e => (Raise e, g)
        | Ok r' =>
            match py_setitem (board g) board_y r' with
            | Raise e => (Raise e, g)
            | Ok b' => (Ok tt, set_board b' g)
            end
        end
    end.

(** The two loops of [_place_piece] that write the piece into the board. *)
Definition write_piece (shape : Grid) : M unit :=
  for_each (enumerate shape) (fun '(row, cells) =>
    for_each (enumerate cells) (fun '(col, c) =>
      if truthy c then
        do! p := read (fun g => Ok (piece_position g)) in
        let board_y := pos_y p + row in
        let board_x := pos_x p + col in
        if board_y >=? 0 then write_cell board_y board_x else ret tt
      else ret tt)).

(** The first loop of [_clear_lines]: the indices of the full rows. *)
Fixpoint full_rows (board : Grid) (rows : list Z) : result (list Z) :=
  match rows with
  | [] => Ok []
  | row :: rest =>
      try! r := py_getitem board row in
      try! more := full_rows board rest in
      Ok (if all r then row :: more else more)
  end.

(** The second loop of [_clear_lines]: each listed row is deleted and an empty
    row is inserted at the top. *)
Fixpoint remove_rows (rows : list Z) (board : Grid) : result Grid :=
  match rows with
  | [] => Ok board
  | row :: rest =>
      try! b := py_delitem board row in
      remove_rows rest (replicate (Z.to_nat BOARD_WIDTH) 0 :: b)
  end.

(** [_clear_lines] *)
Definition clear_lines : M Z :=
  do! lines_to_clear := read (fun g => full_rows (board g) (range BOARD_HEIGHT)) in
  do! _ := (fun g =>
      match remove_rows (sorted_reverse lines_to_clear) (board g) with
      | Ok b => (Ok tt, set_board b g)
      | Raise e => (Raise e, g)
      end) in
  ret (len lines_to_clear).

(** The score and level update of [_place_piece]. *)
Definition update_score (lines_cleared_ : Z) : M unit :=
  if lines_cleared_ >? 0 then
    do! entry := read (fun _ => py_getitem [0; 40; 100; 300; 1200] lines_cleared_) in
    do! points := read (fun g => Ok (entry * level g)) in
    do! _ := modify (fun g => set_score (score g + points) g) in
    do! _ := modify (fun g => set_lines_cleared (lines_cleared g + lines_cleared_) g) in
    modify (fun g => set_level (lines_cleared g / 10 + 1) g)
  else ret tt.

(** [_place_piece] *)
Definition place_piece (rnd : kind) : M Z :=
  do! shape := read (fun g =>
      try! i := py_mod (rotation g) (len (rotations (current_piece g))) in
      py_getitem (rotations (current_piece g)) i) in
  do! _ := write_piece shape in
  do! lines_cleared_ := clear_lines in
  do! _ := update_score lines_cleared_ in
  do! spawned := spawn_new_piece rnd in
  if negb spawned then ret (-1) else ret lines_cleared_.

(** The [while self.drop_piece()] loop of [hard_drop], run for at most [fuel]
    iterations: [None] when the fuel does not suffice. *)
Fixpoint drop_loop (fuel : nat) (drop_distance : Z) (g : Game)
  : option (result Z * Game) :=
  match fuel with
  | O => None
  | S fuel' =>
      match drop_piece g with
      | (Ok true, g') => drop_loop fuel' (drop_distance + 1) g'
      | (Ok false, g') => Some (Ok drop_distance, g')
      | (Raise e, g') => Some (Raise e, g')
      end
  end.

(** [hard_drop] *)
Definition hard_drop (fuel : nat) (rnd : kind) (g : Game)
  : option (result Z * Game) :=
  match drop_loop fuel 0 g with
  | None => None
  | Some (Raise e, g') => Some (Raise e, g')
  | Some (Ok drop_distance, g') =>
      Some ((do! _ := modify (fun s => set_score (score s + drop_distance * 2) s) in
             place_piece rnd) g')
  end.

(** [hold_piece] *)
Definition hold_piece (rnd : kind) : M bool :=
  do! allowed := read (fun g => Ok (can_hold g)) in
  if negb allowed then ret false
  else
    do! held := read (fun g => Ok (held_piece g)) in
    do! _ :=
      match held with
      | None =>
          do! _ := modify (fun g => set_held_piece (Some
                     {| type := type (current_piece g);
                        shape := t_shape (TETROMINOS (type (current_piece g)));
                        color := t_color (TETROMINOS (type (current_piece g)));
                        rotations := t_rotations (TETROMINOS (type (current_piece g))) |}) g) in
          do! _ := modify (fun g => set_current_piece (next_piece g) g) in
          modify (set_next_piece (generate_random_piece rnd))
      | Some h =>
          (* the right-hand side of the swap is built before either
             attribute is assigned *)
          modify (fun g =>
            let new_held :=
              {| type := type (current_piece g);
                 shape := t_shape (TETROMINOS (type (current_piece g)));
                 color := t_color (TETROMINOS (type (current_piece g)));
                 rotations := t_rotations (TETROMINOS (type (current_piece g))) |} in
            set_held_piece (Some new_held) (set_current_piece h g))
      end in
    do! _ := modify (set_rotation 0) in
    do! _ := modify (set_can_hold false) in
    do! p := read (fun g => spawn_position (current_piece g)) in
    do! _ := modify (set_piece_position p) in
    ret true.

(** The [while True] loop of [get_ghost_position], run for at most [fuel]
    iterations; [temp_pos] is the copy of the position that the loop updates. *)
Fixpoint ghost_loop (fuel : nat) (ghost_y : Z) (temp_pos : Pos) (g : Game)
  : option (result Z * Game) :=
  match fuel with
  | O => None
  | S fuel' =>
      let temp_pos := {| pos_x := pos_x temp_pos; pos_y := ghost_y |} in
      match is_valid_position g None (Some temp_pos) None with
      | Raise e => Some (Raise e, g)
      | Ok false => Some (Ok ghost_y, g)
      | Ok true => ghost_loop fuel' (ghost_y + 1) temp_pos g
      end
  end.

(** [get_ghost_position] *)
Definition get_ghost_position (fuel : nat) (g : Game)
  : option (result (Z * Z) * Game) :=
  let ghost_y := pos_y (piece_position g) in
  let temp_pos := piece_position g in
  match ghost_loop fuel ghost_y temp_pos g with
  | None => None
  | Some (Raise e, g') => Some (Raise e, g')
  | Some (Ok ghost_y, g') => Some (Ok (pos_x (piece_position g'), ghost_y - 1), g')
  end.

(** The fields of the [GameState] model that [get_game_state] fills. *)
Record GameState := {
  gs_board : Grid;
  gs_score : Z;
  gs_lines_cleared : Z;
  gs_level : Z;
  gs_current_piece : option Piece;
  gs_next_piece : option Piece;
  gs_held_piece : option Piece
}.

(** [get_game_state] *)
Definition get_game_state : M GameState :=
  read (fun g => Ok
    {| gs_board := board g;
       gs_score := score g;
       gs_lines_cleared := lines_cleared g;
       gs_level := level g;
       gs_current_piece := Some (current_piece g);
       gs_next_piece := Some (next_piece g);
       gs_held_piece := held_piece g |}).

(** [get_drop_interval] *)
Definition get_drop_interval : M Z :=
  read (fun g => Ok (Z.max 50 (1000 - (level g - 1) * 50))).

(** ** Running sequences of public operations *)

Inductive op :=
  | OpMove (dx dy : Z)
  | OpRotate
  | OpDrop
  | OpHardDrop (rnd : kind)
  | OpHold (rnd : kind)
  | OpGhost
  | OpSnapshot
  | OpDropInterval.

(** The state after one public call, whatever it returned or raised; [None]
    when a loop of the call needs more than [fuel] iterations. *)
Definition run_op (fuel : nat) (o : op) (g : Game) : option Game :=
  match o with
  | OpMove dx dy => Some (snd (move_piece dx dy g))
  | OpRotate => Some (snd (rotate_piece g))
  | OpDrop => Some (snd (drop_piece g))
  | OpHardDrop rnd => snd <$> hard_drop fuel rnd g
  | OpHold rnd => Some (snd (hold_piece rnd g))
  | OpGhost => snd <$> get_ghost_position fuel g
  | OpSnapshot => Some (snd (get_game_state g))
  | OpDropInterval => Some (snd (get_drop_interval g))
  end.

Fixpoint run_ops (fuel : nat) (ops : list op) (g : Game) : option Game :=
  match ops with
  | [] => Some g
  | o :: rest =>
      match run_op fuel o g with
      | Some g' => run_ops fuel rest g'
      | None => None
      end
  end.

(** A state is reachable when some sequence of public calls leads to it from
    a fresh game. *)
Definition reachable (g : Game) : Prop :=
  exists rnd1 rnd2 ops fuel, run_ops fuel ops (new_game rnd1 rnd2) = Some g.

(** ** Predicates on states *)

(** The board has 20 rows of 10 cells. *)
Definition board_ok (b : Grid) : Prop :=
  length b = 20%nat /\ Forall (fun r => length r = 10%nat) b.

(** The piece is one of the seven catalogue pieces. *)
Definition catalog (p : Piece) : Prop := p = generate_random_piece (type p).

(** Cell [(row, col)] of a shape is occupied. *)
Definition occupied (s : Grid) (row col : nat) : Prop :=
  exists r c, s !! row = Some r /\ r !! col = Some c /\ c <> 0.

(** Cell [(X, Y)] of the board is occupied. *)
Definition board_occupied (b : Grid) (X Y : Z) : Prop :=
  exists r v, b !! Z.to_nat Y = Some r /\ r !! Z.to_nat X = Some v /\ v <> 0.

(** An absolute cell that makes a position invalid. *)
Definition blocked (b : Grid) (X Y : Z) : Prop :=
  X < 0 \/ X >= 10 \/ Y >= 20 \/ (Y >= 0 /\ board_occupied b X Y).

Definition empty_row : list Z := replicate (Z.to_nat BOARD_WIDTH) 0.
Definition empty_board : Grid := replicate (Z.to_nat BOARD_HEIGHT) empty_row.

(** The current piece, at its rotation and offset, lies inside the side and
    bottom walls: its position would be valid on the empty board. *)
Definition in_bounds (g : Game) : Prop :=
  is_valid_position (set_board empty_board g) None None None = Ok true.

(** The invariant of the engine. *)
Definition Inv (g : Game) : Prop :=
  board_ok (board g) /\ catalog (current_piece g) /\ catalog (next_piece g) /\
  (forall h, held_piece g = Some h -> catalog h) /\ in_bounds g.

(** ** The outcomes of the methods, written out

    The states and values that the equations of the methods below refer to. *)

(** The rotation state that index [rot] selects. *)
Definition shape_at (p : Piece) (rot : Z) : option Grid :=
  rotations p !! Z.to_nat (rot mod len (rotations p)).

(** An index of a row of the board. *)
Definition row_index (r : Z) : Prop := 0 <= r < 20.

(** The score table [{0:0, 1:40, 2:100, 3:300, 4:1200}]. *)
Definition score_table (n : Z) : Z :=
  match n with
  | 1 => 40
  | 2 => 100
  | 3 => 300
  | 4 => 1200
  | _ => 0
  end.

(** The state after [n] cleared lines have been scored. *)
Definition scored (n : Z) (g : Game) : Game :=
  set_level ((lines_cleared g + n) / 10 + 1)
    (set_lines_cleared (lines_cleared g + n)
       (set_score (score g + score_table n * level g) g)).

(** The column at which a catalogue piece is spawned. *)
Definition spawn_x (k : kind) : Z :=
  match k with KI => 3 | _ => 4 end.

(** The state after the assignments of [_spawn_new_piece]. *)
Definition spawned (rnd : kind) (g : Game) : Game :=
  set_piece_position {| pos_x := spawn_x (type (next_piece g)); pos_y := 0 |}
    (set_can_hold true
       (set_rotation 0
          (set_next_piece (generate_random_piece rnd)
             (set_current_piece (next_piece g) g)))).

(** The offset of the current piece moved by [(dx, dy)]. *)
Definition shifted (dx dy : Z) (g : Game) : Pos :=
  {| pos_x := pos_x (piece_position g) + dx; pos_y := pos_y (piece_position g) + dy |}.

(** The candidates of a rotation in the order of the specification: no kick,
    then the kicks -1, +1, -2, +2.  [first_valid] is the first candidate offset
    at which the rotated piece is valid, [None] when there is none. *)
Definition kick_candidates : list Z := [0; -1; 1; -2; 2].

Fixpoint first_valid (g : Game) (new_rotation : Z) (candidates : list Z)
  : result (option Z) :=
  match candidates with
  | [] => Ok None
  | dx :: rest =>
      match is_valid_position g None (Some (shifted dx 0 g)) (Some new_rotation) with
      | Ok true => Ok (Some dx)
      | Ok false => first_valid g new_rotation rest
      | Raise e => Raise e
      end
  end.

(** The outcome of a rotation according to the specification. *)
Definition rotate_outcome (g : Game) : result bool * Game :=
  match py_mod (rotation g + 1) (len (rotations (current_piece g))) with
  | Raise e => (Raise e, g)
  | Ok new_rotation =>
      match first_valid g new_rotation kick_candidates with
      | Raise e => (Raise e, g)
      | Ok None => (Ok false, g)
      | Ok (Some dx) =>
          (Ok true, set_piece_position (shifted dx 0 g) (set_rotation new_rotation g))
      end
  end.

(** The first half of [_place_piece]: the piece is written into the board and
    the full lines are cleared; the value is the number of lines cleared. *)
Definition write_and_clear : M Z :=
  do! shape := read (fun g =>
      try! i := py_mod (rotation g) (len (rotations (current_piece g))) in
      py_getitem (rotations (current_piece g)) i) in
  do! _ := write_piece shape in
  clear_lines.

(** The state after the score update for [n] cleared lines. *)
Definition after_score (n : Z) (g : Game) : Game :=
  if n <=? 0 then g else scored n g.

(** Iterations that suffice for a piece at row [y]. *)
Definition enough_fuel (g : Game) : nat :=
  S (Z.to_nat (BOARD_HEIGHT - pos_y (piece_position g))).

(** The pieces after the swap of [hold_piece]. *)
Definition swapped (rnd : kind) (g : Game) : Game :=
  match held_piece g with
  | None =>
      set_next_piece (generate_random_piece rnd)
        (set_current_piece (next_piece g)
           (set_held_piece (Some (generate_random_piece (type (current_piece g)))) g))
  | Some h =>
      set_held_piece (Some (generate_random_piece (type (current_piece g))))
        (set_current_piece h g)
  end.

(** The state after a hold that was allowed. *)
Definition after_hold (rnd : kind) (g : Game) : Game :=
  set_piece_position
    {| pos_x := spawn_x (type (current_piece (swapped rnd g))); pos_y := 0 |}
    (set_can_hold false (set_rotation 0 (swapped rnd g))).

(** The position of the current piece moved to row [y']. *)
Definition at_row (g : Game) (y' : Z) : Pos :=
  {| pos_x := pos_x (piece_position g); pos_y := y' |}.

(** The first loop of [_clear_lines] looks at the rows only through [all]. *)
Fixpoint full_rows_flags (flags : list bool) (rows : list Z) : result (list Z) :=
  match rows with
  | [] => Ok []
  | row :: rest =>
      try! f := py_getitem flags row in
      try! more := full_rows_flags flags rest in
      Ok (if f : bool then row :: more else more)
  end.

(** ** Boards with two full rows *)

(** Exactly rows 5 and 7 of the 10x20 board are full. *)
Definition rows_5_7_full (b : Grid) : Prop :=
  board_ok b /\
  forall (i : nat) (r : list Z), b !! i = Some r -> (all r = true <-> (i = 5 \/ i = 7)%nat).

(** ** Sample plays and states *)

(** Five I pieces are turned upright and hard-dropped at the spawn column;
    they fill column 3 from the floor to the top row.  [rnd4] becomes the
    current piece after the fifth drop and [rnd5] the lookahead piece. *)
Definition column_prefix (rnd4 : kind) : list op :=
  [OpRotate; OpHardDrop KI; OpRotate; OpHardDrop KI; OpRotate; OpHardDrop KI;
   OpRotate; OpHardDrop rnd4; OpRotate].

Definition column_ops (rnd4 rnd5 : kind) : list op :=
  column_prefix rnd4 ++ [OpHardDrop rnd5].

(** The state after the calls [ops] in the fresh game with the pieces [rnd1]
    and [rnd2]; thirty iterations suffice for every loop on a board of twenty
    rows. *)
Definition play_from (rnd1 rnd2 : kind) (ops : list op) : Game :=
  match run_ops 30 ops (new_game rnd1 rnd2) with
  | Some g => g
  | None => new_game rnd1 rnd2
  end.

Definition play (ops : list op) : Game := play_from KI KI ops.

(** The fifth drop ends the game: the next I piece spawns onto column 3. *)
Definition game_over_state : Game := play (column_ops KI KO).

(** The O piece spawns beside the full column; the lookahead piece is an I. *)
Definition column_state : Game := play (column_ops KO KI).

(** The hold in [column_state]: the I piece is brought in over column 3. *)
Definition held_state : Game := play (column_ops KO KI ++ [OpHold KT]).

(** An O piece hard-dropped with its left column at [x], an I piece turned
    upright and hard-dropped in column [x]; [rnd] is the piece drawn by the
    spawn that follows. *)
Definition o_at (x : Z) (rnd : kind) : list op :=
  [OpMove (x - 4) 0; OpHardDrop rnd].

Definition i_at (x : Z) (rnd : kind) : list op :=
  [OpRotate; OpMove (x - 3) 0; OpHardDrop rnd].

Definition o_layer (rnd : kind) : list op :=
  o_at 0 KO ++ o_at 2 KO ++ o_at 4 KO ++ o_at 6 rnd.

(** Three upright I pieces in column 8 and twenty O pieces in columns 0 to 7
    fill rows 10 to 19 except for column 9. *)
Definition well_ops : list op :=
  i_at 8 KO ++ i_at 8 KO ++
  o_layer KO ++ o_layer KO ++ o_layer KO ++ o_layer KO ++
  o_at 0 KO ++ o_at 2 KO ++ o_at 4 KI ++ o_at 6 KI ++
  i_at 8 KI.

(** The well is built and an upright I piece hangs above column 9. *)
Definition first_drop_state : Game := play (well_ops ++ [OpRotate; OpMove 6 0]).

(** That piece has been dropped: rows 16 to 19 were completed and cleared. *)
Definition after_four_lines : Game := play (well_ops ++ i_at 9 KT).

(** The next upright I piece hangs above column 9. *)
Definition second_drop_state : Game :=
  play (well_ops ++ i_at 9 KT ++ [OpRotate; OpMove 6 0]).



(** A state in which the upright I piece has landed in the only gap of the
    four bottom rows, at level 2. *)
Definition four_lines_state : Game :=
  {| board := replicate 16 empty_row ++ replicate 4 [0; 1; 1; 1; 1; 1; 1; 1; 1; 1];
     score := 500;
     lines_cleared := 10;
     level := 2;
     current_piece := generate_random_piece KI;
     next_piece := generate_random_piece KT;
     held_piece := None;
     piece_position := {| pos_x := 0; pos_y := 16 |};
     rotation := 1;
     can_hold := true |}.

(** The cells of a partial row that spell its index in binary; the rows of
    [marked_board] can be told apart. *)
Definition marked_row (i : Z) : list Z :=
  [Z.land i 1; Z.land (Z.shiftr i 1) 1; Z.land (Z.shiftr i 2) 1;
   Z.land (Z.shiftr i 3) 1; Z.land (Z.shiftr i 4) 1; 1; 1; 1; 1; 0].

Definition marked_board : Grid :=
  (fun i => if (i =? 5) || (i =? 7) then replicate 10 1 else marked_row i)
    <$> range BOARD_HEIGHT.

Definition marked_state : Game := set_board marked_board (new_game KT KO).

(** The state in which the second hard drop raises. *)
Definition after_second_drop : Game :=
  match hard_drop 30 KT second_drop_state with
  | Some (_, g) => g
  | None => second_drop_state
  end.

(** ** Further predicates on states *)

(** The counters of a game: score and line total are not negative and the
    level is the one that the line total gives. *)
Definition counters_ok (g : Game) : Prop :=
  0 <= score g /\ 0 <= lines_cleared g /\ level g = lines_cleared g / 10 + 1.

(** The rotation index selects a rotation state of the current piece
    without wrapping. *)
Definition rotation_ok (g : Game) : Prop :=
  0 <= rotation g < len (rotations (current_piece g)).

(** A state after some public calls in which the second hard drop has
    raised: used as an example of a state left behind by an exception. *)
Definition state_after_ops : Game :=
  play (well_ops ++ i_at 9 KT ++ i_at 9 KT ++ [OpMove (-1) 0; OpRotate]).

(** The indices, counted from [k], at which a list of flags is set. *)
Fixpoint true_indices (k : Z) (flags : list bool) : list Z :=
  match flags with
  | [] => []
  | f :: rest => (if f then [k] else []) ++ true_indices (k + 1) rest
  end.

(** A board with one full row, row 12, for an example. *)
Definition one_full_row_state : Game :=
  set_board (<[12%nat := replicate 10 1]> (marked_row <$> range BOARD_HEIGHT))
    (new_game KT KO).

(** The value of cell [(X, Y)] of the board, [None] outside the board. *)
Definition cell_at (b : Grid) (X Y : Z) : option Z :=
  match b !! Z.to_nat Y with
  | Some r => r !! Z.to_nat X
  | None => None
  end.

(** Cell [(X, Y)] of the board lies under an occupied cell of shape [s]
    placed at offset [p]. *)
Definition covers (s : Grid) (p : Pos) (X Y : Z) : Prop :=
  exists i j, occupied s i j /\ X = pos_x p + Z.of_nat j /\ Y = pos_y p + Z.of_nat i.

(** Board [b'] is board [b] with the cells selected by [P] set to 1. *)
Definition written (P : Z -> Z -> Prop) (b b' : Grid) : Prop :=
  forall X Y, 0 <= X < 10 -> 0 <= Y < 20 ->
    (P X Y -> cell_at b' X Y = Some 1) /\
    (~ P X Y -> cell_at b' X Y = cell_at b X Y) /\
    (cell_at b' X Y = Some 1 \/ cell_at b' X Y = cell_at b X Y).

(** Every cell of the board is 0 or 1. *)
Definition cells_binary (b : Grid) : Prop :=
  Forall (Forall (fun c => c = 0 \/ c = 1)) b.

(** ** Python indexing inside the bounds *)

(** Closed conjunctions of equations are settled by evaluation. *)
Ltac by_evaluation :=
  lazymatch goal with
  | |- _ /\ _ => split; by_evaluation
  | |- _ <> _ => discriminate
  | |- _ => vm_compute; reflexivity
  end.

Lemma norm_index_in_range (n : nat) (i : Z) :
  0 <= i < Z.of_nat n -> norm_index n i = Some (Z.to_nat i).
Proof.
  intros H. unfold norm_index.
  destruct (Z.ltb_spec i 0); [lia|].
  destruct (Z.leb_spec 0 i); [|lia].
  destruct (Z.ltb_spec i (Z.of_nat n)); [reflexivity|lia].
Qed.

Lemma norm_index_lt (n : nat) (i : Z) (j : nat) :
  norm_index n i = Some j -> (j < n)%nat.
Proof.
  unfold norm_index. intros H.
  destruct ((0 <=? (if i <? 0 then i + Z.of_nat n else i)) &&
            ((if i <? 0 then i + Z.of_nat n else i) <? Z.of_nat n)) eqn:E;
    [|discriminate].
  apply andb_true_iff in E as [E1 E2].
  apply Z.leb_le in E1. apply Z.ltb_lt in E2.
  inversion H; subst. lia.
Qed.

Lemma py_getitem_in_range {A} (l : list A) (i : Z) :
  0 <= i < len l ->
  exists a, l !! Z.to_nat i = Some a /\ py_getitem l i = Ok a.
Proof.
  intros H. unfold py_getitem, len in *.
  rewrite norm_index_in_range by lia.
  destruct (lookup_lt_is_Some_2 l (Z.to_nat i)) as [a Ha]; [lia|].
  exists a. rewrite Ha. auto.
Qed.

Lemma py_setitem_in_range {A} (l : list A) (i : Z) (v : A) :
  0 <= i < len l -> py_setitem l i v = Ok (<[Z.to_nat i := v]> l).
Proof.
  intros H. unfold py_setitem, len in *. now rewrite norm_index_in_range by lia.
Qed.

Lemma py_delitem_in_range {A} (l : list A) (i : Z) :
  0 <= i < len l -> py_delitem l i = Ok (delete (Z.to_nat i) l).
Proof.
  intros H. unfold py_delitem, len in *. now rewrite norm_index_in_range by lia.
Qed.

Lemma board_ok_cell (b : Grid) (X Y : Z) :
  board_ok b -> 0 <= X < 10 -> 0 <= Y < 20 ->
  exists r v, b !! Z.to_nat Y = Some r /\ r !! Z.to_nat X = Some v /\
              py_getitem b Y = Ok r /\ py_getitem r X = Ok v.
Proof.
  intros [Hl Hr] HX HY.
  destruct (py_getitem_in_range b Y) as [r [Hr1 Hr2]]; [unfold len; lia|].
  assert (length r = 10%nat) as Hlen.
  { rewrite Forall_lookup in Hr. eapply Hr; eauto. }
  destruct (py_getitem_in_range r X) as [v [Hv1 Hv2]]; [unfold len; lia|].
  exists r, v. auto.
Qed.

Lemma truthy_true (c : Z) : truthy c = true <-> c <> 0.
Proof. unfold truthy. destruct (Z.eqb_spec c 0); simpl; split; intros; congruence. Qed.

Lemma truthy_false (c : Z) : truthy c = false <-> c = 0.
Proof. unfold truthy. destruct (Z.eqb_spec c 0); simpl; split; intros; congruence. Qed.

(** ** What [_is_valid_position] computes *)

Lemma not_blocked_inside (b : Grid) (X Y : Z) (r : list Z) (v : Z) :
  0 <= X < 10 -> Y < 20 ->
  (0 <= Y -> b !! Z.to_nat Y = Some r /\ r !! Z.to_nat X = Some v /\ v = 0) ->
  ~ blocked b X Y.
Proof.
  intros HX HY Hc [H|[H|[H|[H [r' [v' [H1 [H2 H3]]]]]]]]; try lia.
  destruct Hc as [Hr [Hv Hz]]; [lia|]. congruence.
Qed.

Lemma check_cols_spec (b : Grid) (pos : Pos) (row : Z) (cells : list Z) :
  forall col0,
  pos_y pos + row < 0 \/ board_ok b ->
  exists v, check_cols b pos row col0 cells = Ok v /\
    (v = false <->
     exists j c, cells !! j = Some c /\ c <> 0 /\
       blocked b (pos_x pos + (col0 + Z.of_nat j)) (pos_y pos + row)).
Proof.
  induction cells as [|c rest IH]; intros col0 Hb.
  - exists true. split; [reflexivity|]. split; [discriminate|].
    intros [j [c [H _]]]. destruct j; discriminate.
  - destruct (IH (col0 + 1) Hb) as [v' [Hv' Hiff']].
    assert (Hshift : c = 0 \/ ~ blocked b (pos_x pos + col0) (pos_y pos + row) ->
      (v' = false <->
       exists j c1, (c :: rest) !! j = Some c1 /\ c1 <> 0 /\
         blocked b (pos_x pos + (col0 + Z.of_nat j)) (pos_y pos + row))).
    { intros Hc0. rewrite Hiff'. split.
      - intros [j [c1 [H1 [H2 H3]]]]. exists (S j), c1. repeat split; auto.
        replace (col0 + Z.of_nat (S j)) with (col0 + 1 + Z.of_nat j) by lia. auto.
      - intros [[|j] [c1 [H1 [H2 H3]]]].
        + simpl in H1. inversion H1; subst c1.
          replace (col0 + Z.of_nat 0) with col0 in H3 by lia.
          destruct Hc0; contradiction.
        + exists j, c1. repeat split; auto.
          replace (col0 + 1 + Z.of_nat j) with (col0 + Z.of_nat (S j)) by lia. auto. }
    simpl check_cols. destruct (truthy c) eqn:Hc.
    + apply truthy_true in Hc.
      assert (Hhere : blocked b (pos_x pos + col0) (pos_y pos + row) ->
        exists j c1, (c :: rest) !! j = Some c1 /\ c1 <> 0 /\
          blocked b (pos_x pos + (col0 + Z.of_nat j)) (pos_y pos + row)).
      { intros Hbl. exists 0%nat, c. repeat split; auto.
        replace (col0 + Z.of_nat 0) with col0 by lia. auto. }
      unfold BOARD_WIDTH, BOARD_HEIGHT.
      destruct ((pos_x pos + col0 <? 0) || (pos_x pos + col0 >=? 10) ||
                (pos_y pos + row >=? 20)) eqn:Hbound.
      * exists false. split; [reflexivity|]. split; [|reflexivity].
        intros _. apply Hhere. unfold blocked.
        rewrite !orb_true_iff, Z.ltb_lt, !Z.geb_le in Hbound. lia.
      * rewrite !orb_false_iff, Z.ltb_ge, !Z.geb_leb, !Z.leb_gt in Hbound.
        destruct (pos_y pos + row >=? 0) eqn:Hy.
        -- rewrite Z.geb_le in Hy.
           destruct Hb as [Hb|Hb]; [lia|].
           destruct (board_ok_cell b (pos_x pos + col0) (pos_y pos + row) Hb)
             as [r [v [Hr [Hv [Hgr Hgv]]]]]; [lia|lia|].
           rewrite Hgr. simpl. rewrite Hgv. simpl.
           destruct (truthy v) eqn:Htv.
           ++ exists false. split; [reflexivity|]. split; [|reflexivity].
              intros _. apply Hhere. right. right. right. split; [lia|].
              exists r, v. apply truthy_true in Htv. auto.
           ++ apply truthy_false in Htv.
              exists v'. split; [assumption|].
              apply Hshift. right.
              apply (not_blocked_inside b _ _ r v); [lia|lia|auto].
        -- rewrite Z.geb_leb, Z.leb_gt in Hy. simpl.
           exists v'. split; [assumption|].
           apply Hshift. right.
           apply (not_blocked_inside b _ _ [] 0); [lia|lia|lia].
    + apply truthy_false in Hc. exists v'. split; [assumption|].
      apply Hshift. left. assumption.
Qed.

Lemma check_rows_spec (b : Grid) (pos : Pos) (rows : Grid) :
  forall row0,
  pos_y pos + row0 + len rows <= 0 \/ board_ok b ->
  exists v, check_rows b pos row0 rows = Ok v /\
    (v = false <->
     exists i j, occupied rows i j /\
       blocked b (pos_x pos + Z.of_nat j) (pos_y pos + (row0 + Z.of_nat i))).
Proof.
  induction rows as [|cells rest IH]; intros row0 Hb.
  - exists true. split; [reflexivity|]. split; [discriminate|].
    intros [i [j [[r [c [H _]]] _]]]. destruct i; discriminate.
  - assert (Hb' : pos_y pos + (row0 + 1) + len rest <= 0 \/ board_ok b).
    { destruct Hb as [Hb|Hb]; [left|right; assumption].
      unfold len in *. simpl length in Hb. lia. }
    assert (Hbc : pos_y pos + row0 < 0 \/ board_ok b).
    { destruct Hb as [Hb|Hb]; [left|right; assumption].
      unfold len in *. simpl length in Hb. lia. }
    destruct (IH (row0 + 1) Hb') as [v' [Hv' Hiff']].
    destruct (check_cols_spec b pos row0 cells 0 Hbc) as [vc [Hvc Hiffc]].
    simpl check_rows. rewrite Hvc. simpl.
    destruct vc.
    + exists v'. split; [assumption|]. rewrite Hiff'. split.
      * intros [i [j [[r [c [H1 [H2 H3]]]] H4]]].
        exists (S i), j. split; [exists r, c; auto|].
        replace (row0 + Z.of_nat (S i)) with (row0 + 1 + Z.of_nat i) by lia. auto.
      * intros [[|i] [j [[r [c [H1 [H2 H3]]]] H4]]].
        -- simpl in H1. inversion H1; subst r.
           assert (true = false); [|discriminate].
           apply Hiffc. exists j, c. repeat split; auto.
           replace (row0 + Z.of_nat 0) with row0 in H4 by lia.
           replace (0 + Z.of_nat j) with (Z.of_nat j) by lia. auto.
        -- exists i, j. split; [exists r, c; auto|].
           replace (row0 + 1 + Z.of_nat i) with (row0 + Z.of_nat (S i)) by lia. auto.
    + exists false. split; [reflexivity|]. split; [|reflexivity]. intros _.
      destruct Hiffc as [Hc _]. destruct (Hc eq_refl) as [j [c [H1 [H2 H3]]]].
      exists 0%nat, j. split; [exists cells, c; auto|].
      replace (row0 + Z.of_nat 0) with row0 by lia.
      replace (0 + Z.of_nat j) with (Z.of_nat j) in H3 by lia. auto.
Qed.

Lemma shape_at_getitem (p : Piece) (rot : Z) :
  rotations p <> [] ->
  exists s, shape_at p rot = Some s /\
    (try! i := py_mod rot (len (rotations p)) in py_getitem (rotations p) i) = Ok s.
Proof.
  intros Hne. unfold py_mod, shape_at.
  assert (0 < len (rotations p)) as Hpos.
  { unfold len. destruct (rotations p); [congruence|simpl; lia]. }
  destruct (Z.eqb_spec (len (rotations p)) 0); [lia|]. simpl.
  destruct (py_getitem_in_range (rotations p) (rot mod len (rotations p)))
    as [s [Hs1 Hs2]].
  { apply Z.mod_pos_bound. assumption. }
  exists s. auto.
Qed.

Lemma is_valid_position_spec (g : Game) (piece : Piece) (pos : Pos) (rot : Z) :
  rotations piece <> [] ->
  board_ok (board g) ->
  exists s v, shape_at piece rot = Some s /\
    is_valid_position g (Some piece) (Some pos) (Some rot) = Ok v /\
    (v = false <->
     exists i j, occupied s i j /\
       blocked (board g) (pos_x pos + Z.of_nat j) (pos_y pos + Z.of_nat i)).
Proof.
  intros Hne Hb.
  destruct (shape_at_getitem piece rot Hne) as [s [Hs Hget]].
  destruct (check_rows_spec (board g) pos s 0 (or_intror Hb)) as [v [Hv Hiff]].
  exists s, v. split; [assumption|]. split.
  - unfold is_valid_position.
    unfold rbind in *. destruct (py_mod rot (len (rotations piece))); [|discriminate].
    rewrite Hget. assumption.
  - rewrite Hiff. split; intros [i [j [H1 H2]]]; exists i, j; split; auto.
Qed.

Lemma catalog_rotations (p : Piece) : catalog p -> rotations p <> [].
Proof.
  intros H. rewrite H. destruct (type p); discriminate.
Qed.

Lemma board_ok_empty : board_ok empty_board.
Proof.
  split; [reflexivity|]. unfold empty_board.
  apply Forall_replicate. reflexivity.
Qed.

(** A position that is valid on some board is valid on the empty board. *)
Lemma valid_in_bounds (g : Game) (piece : Piece) (pos : Pos) (rot : Z) :
  rotations piece <> [] ->
  board_ok (board g) ->
  is_valid_position g (Some piece) (Some pos) (Some rot) = Ok true ->
  is_valid_position (set_board empty_board g) (Some piece) (Some pos) (Some rot) = Ok true.
Proof.
  intros Hne Hb Hv.
  destruct (is_valid_position_spec g piece pos rot Hne Hb) as [s [v [Hs [Hv' Hiff]]]].
  destruct (is_valid_position_spec (set_board empty_board g) piece pos rot Hne board_ok_empty)
    as [s2 [v2 [Hs2 [Hv2 Hiff2]]]].
  rewrite Hv2. f_equal. destruct v2; [reflexivity|].
  rewrite Hv in Hv'. inversion Hv'; subst v.
  assert (true = false); [|discriminate].
  apply Hiff. destruct Hiff2 as [Hi _]. destruct (Hi eq_refl) as [i [j [H1 H2]]].
  rewrite Hs in Hs2. inversion Hs2; subst s2.
  exists i, j. split; [assumption|].
  destruct H2 as [H2|[H2|[H2|[H2 [r [c [Hr [Hc Hnz]]]]]]]]; unfold blocked; try lia.
  simpl in Hr. unfold empty_board in Hr.
  apply lookup_replicate in Hr as [Hr _]. subst r.
  apply lookup_replicate in Hc as [Hc _]. congruence.
Qed.

Lemma is_valid_position_defaults (g : Game) :
  is_valid_position g None None None =
  is_valid_position g (Some (current_piece g)) (Some (piece_position g)) (Some (rotation g)).
Proof. reflexivity. Qed.

Lemma occupied_lt (s : Grid) (i j : nat) : occupied s i j -> (i < length s)%nat.
Proof. intros [r [c [H _]]]. eapply lookup_lt_Some; eauto. Qed.

(** C5: on a 10x20 board, [_is_valid_position] returns a boolean, and it is
    [False] exactly when some occupied cell of the shape selected by the
    rotation index (taken modulo the number of rotation states) lies at an
    absolute [x < 0], [x >= 10], [y >= 20], or at [y >= 0] on an occupied board
    cell.  A shape that lies wholly above row 0 gets the same answer on any
    board whatsoever, so cells with [y < 0] are never looked up.  The method
    only reads the state. *)
Theorem is_valid_position_characterised
    (g : Game) (piece : Piece) (pos : Pos) (rot : Z) :
  rotations piece <> [] ->
  board_ok (board g) ->
  exists s v,
    shape_at piece rot = Some s /\
    is_valid_position g (Some piece) (Some pos) (Some rot) = Ok v /\
    (v = false <->
     exists i j, occupied s i j /\
       blocked (board g) (pos_x pos + Z.of_nat j) (pos_y pos + Z.of_nat i)) /\
    (pos_y pos + len s <= 0 ->
     forall b', is_valid_position (set_board b' g) (Some piece) (Some pos) (Some rot) = Ok v) /\
    read (fun self => is_valid_position self (Some piece) (Some pos) (Some rot)) g = (Ok v, g).
Proof.
  intros Hne Hb.
  destruct (is_valid_position_spec g piece pos rot Hne Hb) as [s [v [Hs [Hv Hiff]]]].
  exists s, v. repeat split; try assumption; try apply Hiff.
  - intros Habove b'.
    destruct (shape_at_getitem piece rot Hne) as [s' [Hs' Hget]].
    rewrite Hs in Hs'. inversion Hs'; subst s'.
    assert (Habove' : pos_y pos + 0 + len s <= 0 \/ board_ok b') by (left; lia).
    destruct (check_rows_spec b' pos s 0 Habove') as [v' [Hv' Hiff']].
    unfold is_valid_position. simpl.
    unfold rbind in *. destruct (py_mod rot (len (rotations piece))); [|discriminate].
    rewrite Hget, Hv'. f_equal.
    assert (Hsame : forall i j, occupied s i j ->
      (blocked b' (pos_x pos + Z.of_nat j) (pos_y pos + (0 + Z.of_nat i)) <->
       blocked (board g) (pos_x pos + Z.of_nat j) (pos_y pos + Z.of_nat i))).
    { intros i j Ho. apply occupied_lt in Ho. unfold len in Habove.
      unfold blocked. replace (0 + Z.of_nat i) with (Z.of_nat i) by lia.
      split; intros [H|[H|[H|[H _]]]]; auto; lia. }
    destruct v, v'; try reflexivity.
    + destruct Hiff' as [Hi _]. destruct (Hi eq_refl) as [i [j [Ho Hbl]]].
      symmetry. apply Hiff. exists i, j. split; [assumption|]. apply Hsame; assumption.
    + destruct Hiff as [Hi _]. destruct (Hi eq_refl) as [i [j [Ho Hbl]]].
      apply Hiff'. exists i, j. split; [assumption|]. apply Hsame; assumption.
  - unfold read. rewrite Hv. reflexivity.
Qed.

Lemma board_ok_new_game (rnd1 rnd2 : kind) : board_ok (board (new_game rnd1 rnd2)).
Proof.
  destruct rnd1, rnd2; (split; [reflexivity|]); vm_compute; repeat constructor.
Qed.

Lemma is_valid_position_characterised_witness :
  exists s v,
    shape_at (generate_random_piece KT) 5 = Some s /\
    is_valid_position (new_game KT KO) (Some (generate_random_piece KT))
      (Some {| pos_x := 8; pos_y := -1 |}) (Some 5) = Ok v /\
    (v = false <->
     exists i j, occupied s i j /\
       blocked (board (new_game KT KO)) (8 + Z.of_nat j) (-1 + Z.of_nat i)) /\
    (-1 + len s <= 0 ->
     forall b', is_valid_position (set_board b' (new_game KT KO))
       (Some (generate_random_piece KT)) (Some {| pos_x := 8; pos_y := -1 |}) (Some 5) = Ok v) /\
    read (fun self => is_valid_position self (Some (generate_random_piece KT))
       (Some {| pos_x := 8; pos_y := -1 |}) (Some 5)) (new_game KT KO) = (Ok v, new_game KT KO).
Proof.
  apply (is_valid_position_characterised (new_game KT KO) (generate_random_piece KT)
           {| pos_x := 8; pos_y := -1 |} 5).
  - discriminate.
  - apply board_ok_new_game.
Defined.

(** ** Writing the piece into the board *)

Lemma set_board_set_board (b1 b2 : Grid) (g : Game) :
  set_board b2 (set_board b1 g) = set_board b2 g.
Proof. reflexivity. Qed.

Lemma set_board_id (g : Game) : set_board (board g) g = g.
Proof. destruct g; reflexivity. Qed.

Lemma board_ok_insert (b : Grid) (i : nat) (r : list Z) :
  board_ok b -> length r = 10%nat -> board_ok (<[i := r]> b).
Proof.
  intros [Hl Hr] Hlen. split.
  - rewrite length_insert. assumption.
  - apply Forall_insert; assumption.
Qed.

Lemma write_cell_ok (g : Game) (X Y : Z) :
  board_ok (board g) -> 0 <= X < 10 -> 0 <= Y < 20 ->
  exists b', write_cell Y X g = (Ok tt, set_board b' g) /\ board_ok b'.
Proof.
  intros Hb HX HY.
  destruct (board_ok_cell _ X Y Hb HX HY) as [r [v [Hr [Hv [Hgr Hgv]]]]].
  assert (length r = 10%nat) as Hlen.
  { destruct Hb as [_ Hf]. rewrite Forall_lookup in Hf. eapply Hf; eauto. }
  unfold write_cell. rewrite Hgr.
  rewrite py_setitem_in_range by (unfold len; lia).
  rewrite py_setitem_in_range by (destruct Hb as [Hl _]; unfold len; lia).
  eexists. split; [reflexivity|].
  apply board_ok_insert; [assumption|]. rewrite length_insert. assumption.
Qed.

Lemma enumerate_seq {A} (l : list A) :
  enumerate l = zip (Z.of_nat <$> seq 0 (length l)) l.
Proof. unfold enumerate, range, len. rewrite Nat2Z.id. reflexivity. Qed.

Lemma write_row_ok (row : Z) (cells : list Z) :
  forall (k : nat) (g : Game),
  board_ok (board g) ->
  (forall j c, cells !! j = Some c -> c <> 0 ->
     0 <= pos_x (piece_position g) + Z.of_nat (k + j) < 10 /\
     pos_y (piece_position g) + row < 20) ->
  exists b',
    for_each (zip (Z.of_nat <$> seq k (length cells)) cells)
      (fun '(col, c) =>
         if truthy c then
           do! p := read (fun g => Ok (piece_position g)) in
           let board_y := pos_y p + row in
           let board_x := pos_x p + col in
           if board_y >=? 0 then write_cell board_y board_x else ret tt
         else ret tt) g = (Ok tt, set_board b' g) /\ board_ok b'.
Proof.
  induction cells as [|c rest IH]; intros k g Hb Hin.
  - exists (board g). simpl. unfold ret. rewrite set_board_id. auto.
  - simpl length. simpl seq. simpl fmap. simpl zip. simpl for_each.
    assert (Hstep : exists b1,
      (if truthy c then
         do! p := read (fun g => Ok (piece_position g)) in
         let board_y := pos_y p + row in
         let board_x := pos_x p + Z.of_nat k in
         if board_y >=? 0 then write_cell board_y board_x else ret tt
       else ret tt) g = (Ok tt, set_board b1 g) /\ board_ok b1).
    { destruct (truthy c) eqn:Hc.
      - apply truthy_true in Hc.
        destruct (Hin 0%nat c eq_refl Hc) as [HX HY].
        replace (k + 0)%nat with k in HX by lia.
        unfold bind, read. simpl.
        destruct (pos_y (piece_position g) + row >=? 0) eqn:Hy.
        + rewrite Z.geb_le in Hy. apply write_cell_ok; [assumption|lia|lia].
        + exists (board g). unfold ret. rewrite set_board_id. auto.
      - exists (board g). unfold ret. rewrite set_board_id. auto. }
    destruct Hstep as [b1 [Hrun Hb1]].
    cbv zeta in Hrun. unfold bind at 1. rewrite Hrun.
    destruct (IH (S k) (set_board b1 g)) as [b2 [Hrun2 Hb2]].
    + assumption.
    + intros j c' Hj Hc'. simpl.
      destruct (Hin (S j) c' Hj Hc') as [HX HY].
      replace (k + S j)%nat with (S k + j)%nat in HX by lia. auto.
    + exists b2. split; [exact Hrun2|assumption].
Qed.

Lemma write_rows_ok (rows : Grid) :
  forall (k : nat) (g : Game),
  board_ok (board g) ->
  (forall i j, occupied rows i j ->
     0 <= pos_x (piece_position g) + Z.of_nat j < 10 /\
     pos_y (piece_position g) + Z.of_nat (k + i) < 20) ->
  exists b',
    for_each (zip (Z.of_nat <$> seq k (length rows)) rows)
      (fun '(row, cells) =>
         for_each (enumerate cells) (fun '(col, c) =>
           if truthy c then
             do! p := read (fun g => Ok (piece_position g)) in
             let board_y := pos_y p + row in
             let board_x := pos_x p + col in
             if board_y >=? 0 then write_cell board_y board_x else ret tt
           else ret tt)) g = (Ok tt, set_board b' g) /\ board_ok b'.
Proof.
  induction rows as [|cells rest IH]; intros k g Hb Hin.
  - exists (board g). simpl. unfold ret. rewrite set_board_id. auto.
  - simpl length. simpl seq. simpl fmap. simpl zip. simpl for_each.
    destruct (write_row_ok (Z.of_nat k) cells 0 g Hb) as [b1 [Hrun Hb1]].
    { intros j c Hj Hc. simpl.
      destruct (Hin 0%nat j) as [HX HY]; [exists cells, c; auto|].
      replace (k + 0)%nat with k in HY by lia. auto. }
    cbv zeta in Hrun. unfold bind at 1. rewrite enumerate_seq, Hrun.
    destruct (IH (S k) (set_board b1 g)) as [b2 [Hrun2 Hb2]].
    + assumption.
    + intros i j [r [c [Hr [Hc Hnz]]]]. simpl.
      destruct (Hin (S i) j) as [HX HY]; [exists r, c; auto|].
      replace (k + S i)%nat with (S k + i)%nat in HY by lia. auto.
    + exists b2. split; [exact Hrun2|assumption].
Qed.

Lemma write_piece_ok (s : Grid) (g : Game) :
  board_ok (board g) ->
  (forall i j, occupied s i j ->
     0 <= pos_x (piece_position g) + Z.of_nat j < 10 /\
     pos_y (piece_position g) + Z.of_nat i < 20) ->
  exists b', write_piece s g = (Ok tt, set_board b' g) /\ board_ok b'.
Proof.
  intros Hb Hin. unfold write_piece. rewrite enumerate_seq.
  apply write_rows_ok; assumption.
Qed.

(** ** Clearing lines keeps the board 10x20 *)

Lemma range_row_index : Forall row_index (range BOARD_HEIGHT).
Proof. vm_compute. repeat constructor; discriminate. Qed.

Lemma full_rows_ok (b : Grid) (rows : list Z) :
  board_ok b -> Forall row_index rows ->
  exists ls, full_rows b rows = Ok ls /\ Forall row_index ls /\
             (length ls <= length rows)%nat.
Proof.
  intros Hb. induction 1 as [|row rest Hrow Hrest IH].
  - exists []. simpl. auto.
  - destruct IH as [ls [Hls [Hf Hlen]]].
    destruct (py_getitem_in_range b row) as [r [_ Hr]].
    { destruct Hb as [Hl _]. unfold len, row_index in *. lia. }
    simpl. rewrite Hr. simpl. rewrite Hls. simpl.
    destruct (all r); eexists; (split; [reflexivity|]); split; simpl; auto; lia.
Qed.

Lemma board_ok_cons_empty (b : Grid) :
  length b = 19%nat -> Forall (fun r => length r = 10%nat) b ->
  board_ok (replicate (Z.to_nat BOARD_WIDTH) 0 :: b).
Proof.
  intros Hl Hf. split; [simpl; lia|]. constructor; [reflexivity|assumption].
Qed.

Lemma remove_rows_ok (rows : list Z) :
  forall b, board_ok b -> Forall row_index rows ->
  exists b', remove_rows rows b = Ok b' /\ board_ok b'.
Proof.
  induction rows as [|row rest IH]; intros b Hb Hrows.
  - exists b. auto.
  - inversion Hrows as [|? ? Hrow Hrest]; subst.
    destruct Hb as [Hl Hf]. unfold row_index in Hrow.
    simpl. rewrite py_delitem_in_range by (unfold len; lia). simpl.
    apply IH; [|assumption].
    apply board_ok_cons_empty.
    + rewrite length_delete; [lia|]. apply lookup_lt_is_Some_2. lia.
    + apply Forall_delete. assumption.
Qed.

Lemma clear_lines_ok (g : Game) :
  board_ok (board g) ->
  exists n b', clear_lines g = (Ok n, set_board b' g) /\ board_ok b' /\ 0 <= n <= 20.
Proof.
  intros Hb.
  destruct (full_rows_ok (board g) (range BOARD_HEIGHT) Hb range_row_index)
    as [ls [Hls [Hf Hlen]]].
  destruct (remove_rows_ok (sorted_reverse ls) (board g) Hb) as [b' [Hb' Hok]].
  { unfold sorted_reverse. rewrite merge_sort_Permutation. assumption. }
  exists (len ls), b'. unfold clear_lines, bind, read, ret.
  rewrite Hls, Hb'. split; [reflexivity|]. split; [assumption|].
  unfold len. change (length (range BOARD_HEIGHT)) with 20%nat in Hlen. lia.
Qed.

(** ** The score update and the spawn, as equations *)

Lemma py_getitem_above {A} (l : list A) (i : Z) :
  len l <= i -> py_getitem l i = Raise IndexError.
Proof.
  intros H. unfold py_getitem, norm_index, len in *.
  destruct (Z.ltb_spec i 0); [lia|].
  destruct (Z.leb_spec 0 i); [|lia].
  destruct (Z.ltb_spec i (Z.of_nat (length l))); [lia|]. reflexivity.
Qed.

Lemma update_score_eq (n : Z) (g : Game) :
  update_score n g =
  if n <=? 0 then (Ok tt, g)
  else if n <=? 4 then (Ok tt, scored n g)
  else (Raise IndexError, g).
Proof.
  unfold update_score. rewrite Z.gtb_ltb.
  destruct (Z.leb_spec n 0); destruct (Z.ltb_spec 0 n); try lia; [reflexivity|].
  destruct (Z.leb_spec n 4).
  - assert (n = 1 \/ n = 2 \/ n = 3 \/ n = 4) as [->|[->|[->| ->]]] by lia;
      reflexivity.
  - unfold bind, read. rewrite py_getitem_above by (unfold len; simpl; lia).
    reflexivity.
Qed.

Lemma spawn_position_catalog (p : Piece) :
  catalog p -> spawn_position p = Ok {| pos_x := spawn_x (type p); pos_y := 0 |}.
Proof. intros H. rewrite H. destruct (type p); reflexivity. Qed.

Lemma catalog_generate (k : kind) : catalog (generate_random_piece k).
Proof. reflexivity. Qed.

Lemma in_bounds_ext (g g' : Game) :
  current_piece g' = current_piece g ->
  piece_position g' = piece_position g ->
  rotation g' = rotation g ->
  in_bounds g -> in_bounds g'.
Proof.
  unfold in_bounds, is_valid_position. simpl. intros -> -> ->. auto.
Qed.

Lemma in_bounds_spawn (g : Game) (p : Piece) :
  catalog p ->
  current_piece g = p ->
  piece_position g = {| pos_x := spawn_x (type p); pos_y := 0 |} ->
  rotation g = 0 ->
  in_bounds g.
Proof.
  intros Hc Hp Hpos Hrot. unfold in_bounds, is_valid_position. simpl.
  rewrite Hp, Hpos, Hrot, Hc. destruct (type p); reflexivity.
Qed.

Lemma is_valid_position_total (g : Game) (pos : Pos) (rot : Z) :
  board_ok (board g) -> catalog (current_piece g) ->
  exists v, is_valid_position g None (Some pos) (Some rot) = Ok v.
Proof.
  intros Hb Hc.
  destruct (is_valid_position_spec g (current_piece g) pos rot
              (catalog_rotations _ Hc) Hb) as [s [v [_ [Hv _]]]].
  exists v. exact Hv.
Qed.

Lemma spawn_new_piece_eq (rnd : kind) (g : Game) :
  board_ok (board g) -> catalog (next_piece g) ->
  exists v,
    spawn_new_piece rnd g = (Ok v, spawned rnd g) /\
    is_valid_position (spawned rnd g) None None None = Ok v.
Proof.
  intros Hb Hc.
  destruct (is_valid_position_total (spawned rnd g)
              (piece_position (spawned rnd g)) (rotation (spawned rnd g)))
    as [v Hv]; [exact Hb|exact Hc|].
  exists v. split; [|exact Hv].
  unfold spawn_new_piece, bind, modify, read, ret. simpl.
  rewrite (spawn_position_catalog _ Hc).
  change (is_valid_position (spawned rnd g) None None None = Ok v) in Hv.
  unfold spawned in Hv. rewrite Hv. destruct v; reflexivity.
Qed.

Lemma Inv_spawned (rnd : kind) (g : Game) :
  board_ok (board g) -> catalog (next_piece g) ->
  (forall h, held_piece g = Some h -> catalog h) ->
  Inv (spawned rnd g).
Proof.
  intros Hb Hc Hh. repeat split; try assumption.
  - apply Hb.
  - apply Hb.
  - apply (in_bounds_spawn _ (next_piece g)); auto.
Qed.

Lemma Inv_new_game (rnd1 rnd2 : kind) : Inv (new_game rnd1 rnd2).
Proof.
  unfold new_game.
  match goal with |- Inv (snd (spawn_new_piece _ ?g0)) =>
    destruct (spawn_new_piece_eq rnd2 g0) as [v [Hv _]];
      [ split; [reflexivity|]; vm_compute; repeat constructor
      | apply catalog_generate
      | rewrite Hv; apply Inv_spawned;
        [ split; [reflexivity|]; vm_compute; repeat constructor
        | apply catalog_generate
        | discriminate ] ]
  end.
Qed.

(** ** Moving and rotating *)

Lemma move_piece_eq (dx dy : Z) (g : Game) :
  move_piece dx dy g =
  match is_valid_position g None (Some (shifted dx dy g)) None with
  | Ok true => (Ok true, set_piece_position (shifted dx dy g) g)
  | Ok false => (Ok false, g)
  | Raise e => (Raise e, g)
  end.
Proof.
  unfold move_piece, bind, read, modify, ret, shifted.
  destruct (is_valid_position g None _ None) as [[|]|]; reflexivity.
Qed.

Lemma Inv_reposition (g : Game) (pos : Pos) (rot : Z) :
  Inv g ->
  is_valid_position g None (Some pos) (Some rot) = Ok true ->
  Inv (set_piece_position pos (set_rotation rot g)).
Proof.
  intros [Hb [Hc [Hn [Hh Hin]]]] Hv. repeat split; try assumption; try apply Hb.
  apply (valid_in_bounds g (current_piece g) pos rot (catalog_rotations _ Hc) Hb Hv).
Qed.

Lemma set_rotation_id (g : Game) : set_rotation (rotation g) g = g.
Proof. destruct g; reflexivity. Qed.

Lemma set_piece_position_id (g : Game) : set_piece_position (piece_position g) g = g.
Proof. destruct g; reflexivity. Qed.

Lemma Inv_move_piece (dx dy : Z) (g : Game) :
  Inv g ->
  Inv (snd (move_piece dx dy g)) /\ exists v, fst (move_piece dx dy g) = Ok v.
Proof.
  intros HI. rewrite move_piece_eq.
  pose proof HI as [Hb [Hc _]].
  destruct (is_valid_position_total g (shifted dx dy g) (rotation g) Hb Hc) as [v Hv].
  change (is_valid_position g None (Some (shifted dx dy g)) None = Ok v) in Hv.
  rewrite Hv. destruct v; simpl; (split; [|eauto]); [|assumption].
  rewrite <- (set_rotation_id g) at 2. apply Inv_reposition; assumption.
Qed.

Lemma set_piece_position_same (r : Z) (g : Game) :
  set_piece_position (piece_position g) (set_rotation r g) = set_rotation r g.
Proof. destruct g; reflexivity. Qed.

Lemma shifted_0_0 (g : Game) : shifted 0 0 g = piece_position g.
Proof. unfold shifted. destruct (piece_position g). simpl. f_equal; lia. Qed.

Lemma shifted_y (dx : Z) (g : Game) :
  shifted dx 0 g = {| pos_x := pos_x (piece_position g) + dx; pos_y := pos_y (piece_position g) |}.
Proof. unfold shifted. f_equal. lia. Qed.

Lemma try_kicks_eq (nr : Z) (kicks : list Z) (g : Game) :
  try_kicks nr kicks g =
  match first_valid g nr kicks with
  | Raise e => (Raise e, g)
  | Ok None => (Ok false, g)
  | Ok (Some dx) => (Ok true, set_piece_position (shifted dx 0 g) (set_rotation nr g))
  end.
Proof.
  induction kicks as [|dx rest IH]; [reflexivity|].
  simpl. unfold bind at 1. unfold read at 1. unfold bind at 1. unfold read at 1.
  rewrite <- shifted_y.
  destruct (is_valid_position g None (Some (shifted dx 0 g)) (Some nr)) as [[|]|];
    [reflexivity|exact IH|reflexivity].
Qed.

Lemma rotate_piece_eq (g : Game) : rotate_piece g = rotate_outcome g.
Proof.
  unfold rotate_piece, rotate_outcome, bind at 1. unfold read at 1.
  destruct (py_mod (rotation g + 1) (len (rotations (current_piece g)))) as [nr|e];
    [|reflexivity].
  unfold bind at 1. unfold read at 1.
  unfold kick_candidates. simpl first_valid. rewrite shifted_0_0.
  change (is_valid_position g None (Some (piece_position g)) (Some nr))
    with (is_valid_position g None None (Some nr)).
  destruct (is_valid_position g None None (Some nr)) as [[|]|]; [| |reflexivity].
  - unfold bind, modify, ret. rewrite shifted_0_0, set_piece_position_same. reflexivity.
  - unfold bind at 1. rewrite try_kicks_eq.
    change (first_valid g nr [-1; 1; -2; 2]) with
      (match is_valid_position g None (Some (shifted (-1) 0 g)) (Some nr) with
       | Ok true => Ok (Some (-1))
       | Ok false =>
         match is_valid_position g None (Some (shifted 1 0 g)) (Some nr) with
         | Ok true => Ok (Some 1)
         | Ok false =>
           match is_valid_position g None (Some (shifted (-2) 0 g)) (Some nr) with
           | Ok true => Ok (Some (-2))
           | Ok false =>
             match is_valid_position g None (Some (shifted 2 0 g)) (Some nr) with
             | Ok true => Ok (Some 2)
             | Ok false => Ok None
             | Raise e => Raise e
             end
           | Raise e => Raise e
           end
         | Raise e => Raise e
         end
       | Raise e => Raise e
       end).
    destruct (is_valid_position g None (Some (shifted (-1) 0 g)) (Some nr)) as [[|]|];
      try reflexivity.
    destruct (is_valid_position g None (Some (shifted 1 0 g)) (Some nr)) as [[|]|];
      try reflexivity.
    destruct (is_valid_position g None (Some (shifted (-2) 0 g)) (Some nr)) as [[|]|];
      try reflexivity.
    destruct (is_valid_position g None (Some (shifted 2 0 g)) (Some nr)) as [[|]|];
      reflexivity.
Qed.

Lemma first_valid_total (g : Game) (nr : Z) (cands : list Z) :
  board_ok (board g) -> catalog (current_piece g) ->
  exists o, first_valid g nr cands = Ok o.
Proof.
  intros Hb Hc. induction cands as [|dx rest [o IH]]; [exists None; reflexivity|].
  destruct (is_valid_position_total g (shifted dx 0 g) nr Hb Hc) as [v Hv].
  simpl. rewrite Hv. destruct v; eauto.
Qed.

Lemma first_valid_Some (g : Game) (nr : Z) (cands : list Z) (dx : Z) :
  first_valid g nr cands = Ok (Some dx) ->
  is_valid_position g None (Some (shifted dx 0 g)) (Some nr) = Ok true.
Proof.
  induction cands as [|d rest IH]; [discriminate|].
  simpl. destruct (is_valid_position g None (Some (shifted d 0 g)) (Some nr))
    as [[|]|] eqn:E; intros H; [|auto|discriminate].
  inversion H; subst. exact E.
Qed.

Lemma py_mod_ok (a : Z) {A} (l : list A) :
  l <> [] -> py_mod a (len l) = Ok (a mod len l).
Proof.
  intros H. unfold py_mod, len. destruct l; [congruence|].
  destruct (Z.eqb_spec (Z.of_nat (length (a0 :: l))) 0); [simpl in *; lia|reflexivity].
Qed.

Lemma Inv_rotate_piece (g : Game) :
  Inv g -> Inv (snd (rotate_piece g)) /\ exists v, fst (rotate_piece g) = Ok v.
Proof.
  intros HI. pose proof HI as [Hb [Hc _]].
  rewrite rotate_piece_eq. unfold rotate_outcome.
  rewrite (py_mod_ok _ _ (catalog_rotations _ Hc)).
  destruct (first_valid_total g ((rotation g + 1) mod len (rotations (current_piece g)))
              kick_candidates Hb Hc) as [o Ho].
  rewrite Ho. destruct o as [dx|]; simpl; (split; [|eauto]); [|assumption].
  apply Inv_reposition; [assumption|]. eapply first_valid_Some; eauto.
Qed.

(** ** Placement *)

Lemma place_piece_split (rnd : kind) (g : Game) :
  place_piece rnd g =
  match write_and_clear g with
  | (Raise e, g1) => (Raise e, g1)
  | (Ok n, g1) =>
      match update_score n g1 with
      | (Raise e, g2) => (Raise e, g2)
      | (Ok _, g2) =>
          match spawn_new_piece rnd g2 with
          | (Raise e, g3) => (Raise e, g3)
          | (Ok sp, g3) => (Ok (if sp then n else -1), g3)
          end
      end
  end.
Proof.
  unfold place_piece, write_and_clear, bind.
  destruct (read _ g) as [[s|e] g0]; [|reflexivity].
  destruct (write_piece s g0) as [[[]|e] g1]; [|reflexivity].
  destruct (clear_lines g1) as [[n|e] g2]; [|reflexivity].
  destruct (update_score n g2) as [[[]|e] g3]; [|reflexivity].
  destruct (spawn_new_piece rnd g3) as [[[|]|e] g4]; reflexivity.
Qed.

Lemma in_bounds_cells (g : Game) :
  catalog (current_piece g) -> in_bounds g ->
  exists s, shape_at (current_piece g) (rotation g) = Some s /\
    forall i j, occupied s i j ->
      0 <= pos_x (piece_position g) + Z.of_nat j < 10 /\
      pos_y (piece_position g) + Z.of_nat i < 20.
Proof.
  intros Hc Hin.
  destruct (is_valid_position_spec (set_board empty_board g) (current_piece g)
              (piece_position g) (rotation g) (catalog_rotations _ Hc) board_ok_empty)
    as [s [v [Hs [Hv Hiff]]]].
  exists s. split; [assumption|]. intros i j Ho.
  unfold in_bounds in Hin. rewrite is_valid_position_defaults in Hin. simpl in Hin.
  rewrite Hin in Hv. inversion Hv; subst v.
  destruct (Z.lt_ge_cases (pos_x (piece_position g) + Z.of_nat j) 0) as [H1|H1];
  [|destruct (Z.lt_ge_cases (pos_x (piece_position g) + Z.of_nat j) 10) as [H2|H2];
    [destruct (Z.lt_ge_cases (pos_y (piece_position g) + Z.of_nat i) 20) as [H3|H3];
     [lia|]|]];
  (assert (true = false); [|discriminate]); apply Hiff; exists i, j;
  (split; [assumption|]); unfold blocked; lia.
Qed.

Lemma Inv_set_board (b : Grid) (g : Game) : Inv g -> board_ok b -> Inv (set_board b g).
Proof.
  intros [Hb [Hc [Hn [Hh Hin]]]] Hb'. repeat split; try assumption; try apply Hb'.
Qed.

Lemma write_and_clear_ok (g : Game) :
  Inv g ->
  exists n b, write_and_clear g = (Ok n, set_board b g) /\ board_ok b /\ 0 <= n <= 20.
Proof.
  intros [Hb [Hc [Hn [Hh Hin]]]].
  destruct (in_bounds_cells g Hc Hin) as [s [Hs Hcells]].
  destruct (shape_at_getitem (current_piece g) (rotation g) (catalog_rotations _ Hc))
    as [s' [Hs' Hget]].
  rewrite Hs in Hs'. inversion Hs'; subst s'.
  destruct (write_piece_ok s g Hb Hcells) as [b1 [Hw Hb1]].
  destruct (clear_lines_ok (set_board b1 g) Hb1) as [n [b2 [Hcl [Hb2 Hn2]]]].
  exists n, b2. unfold write_and_clear, bind, read.
  rewrite Hget, Hw, Hcl. auto.
Qed.

Lemma Inv_after_score (n : Z) (g : Game) : Inv g -> Inv (after_score n g).
Proof.
  intros HI. unfold after_score. destruct (n <=? 0); [assumption|].
  destruct HI as [Hb [Hc [Hn [Hh Hin]]]]. repeat split; try assumption; apply Hb.
Qed.

(** [_place_piece] on a state that satisfies the invariant. *)
Lemma place_piece_ok (rnd : kind) (g : Game) :
  Inv g ->
  exists n b v,
    write_and_clear g = (Ok n, set_board b g) /\ board_ok b /\ 0 <= n <= 20 /\
    is_valid_position (spawned rnd (after_score n (set_board b g))) None None None = Ok v /\
    place_piece rnd g =
      if n <=? 4
      then (Ok (if v then n else -1), spawned rnd (after_score n (set_board b g)))
      else (Raise IndexError, set_board b g).
Proof.
  intros HI.
  destruct (write_and_clear_ok g HI) as [n [b [Hwc [Hb Hn]]]].
  pose proof (Inv_after_score n _ (Inv_set_board b g HI Hb)) as HI2.
  destruct HI2 as [Hb2 [Hc2 [Hn2 [Hh2 Hin2]]]].
  destruct (spawn_new_piece_eq rnd (after_score n (set_board b g)) Hb2 Hn2)
    as [v [Hsp Hv]].
  exists n, b, v. repeat split; try assumption; try apply Hb; try lia.
  rewrite place_piece_split, Hwc, update_score_eq. unfold after_score in *.
  destruct (Z.leb_spec n 0).
  - destruct (Z.leb_spec n 4); [|lia]. rewrite Hsp. reflexivity.
  - destruct (Z.leb_spec n 4); [|reflexivity]. rewrite Hsp. reflexivity.
Qed.

Lemma Inv_place_piece (rnd : kind) (g : Game) :
  Inv g -> Inv (snd (place_piece rnd g)).
Proof.
  intros HI.
  destruct (place_piece_ok rnd g HI) as [n [b [v [Hwc [Hb [Hn [Hv Hpp]]]]]]].
  rewrite Hpp.
  pose proof (Inv_after_score n _ (Inv_set_board b g HI Hb)) as HI2.
  destruct (n <=? 4); simpl.
  - destruct HI2 as [Hb2 [Hc2 [Hn2 [Hh2 Hin2]]]]. apply Inv_spawned; assumption.
  - apply Inv_set_board; assumption.
Qed.

(** ** Below the floor every catalogue piece is invalid *)

Lemma check_cols_low (b : Grid) (pos : Pos) (row : Z) (cells : list Z) :
  forall col, pos_y pos + row >= 20 ->
  check_cols b pos row col cells = Ok (negb (existsb truthy cells)).
Proof.
  induction cells as [|c rest IH]; intros col Hy; [reflexivity|].
  simpl. destruct (truthy c); simpl; [|apply IH; assumption].
  unfold BOARD_HEIGHT. rewrite (Z.geb_leb (pos_y pos + row) 20).
  destruct (Z.leb_spec 20 (pos_y pos + row)); [|lia].
  rewrite orb_true_r. reflexivity.
Qed.

Lemma check_rows_low (b : Grid) (pos : Pos) (rows : Grid) :
  forall row, pos_y pos + row >= 20 ->
  check_rows b pos row rows = Ok (negb (existsb (existsb truthy) rows)).
Proof.
  induction rows as [|cells rest IH]; intros row Hy; [reflexivity|].
  simpl. rewrite check_cols_low by assumption. simpl.
  destruct (existsb truthy cells); simpl; [reflexivity|].
  apply IH. lia.
Qed.

(** Every rotation state of every catalogue piece has an occupied cell. *)
Lemma catalog_shapes_occupied (k : kind) :
  Forall (fun s => existsb (existsb truthy) s = true)
         (rotations (generate_random_piece k)).
Proof. destruct k; repeat constructor. Qed.

Lemma is_valid_position_low (g : Game) (pos : Pos) (rot : Z) :
  catalog (current_piece g) -> pos_y pos >= 20 ->
  is_valid_position g None (Some pos) (Some rot) = Ok false.
Proof.
  intros Hc Hy.
  destruct (shape_at_getitem (current_piece g) rot (catalog_rotations _ Hc))
    as [s [Hs Hget]].
  assert (existsb (existsb truthy) s = true) as Hocc.
  { pose proof (catalog_shapes_occupied (type (current_piece g))) as Hf.
    rewrite <- Hc in Hf. rewrite Forall_lookup in Hf. eapply Hf. exact Hs. }
  unfold is_valid_position. unfold rbind in *.
  destruct (py_mod rot (len (rotations (current_piece g)))); [|discriminate].
  rewrite Hget, check_rows_low by lia. rewrite Hocc. reflexivity.
Qed.

(** ** The loops of [hard_drop] and [get_ghost_position] *)

Lemma drop_piece_eq (g : Game) :
  drop_piece g =
  match is_valid_position g None (Some (shifted 0 1 g)) None with
  | Ok true => (Ok true, set_piece_position (shifted 0 1 g) g)
  | Ok false => (Ok false, g)
  | Raise e => (Raise e, g)
  end.
Proof. apply move_piece_eq. Qed.

Lemma drop_loop_terminates (fuel : nat) :
  forall (d : Z) (g : Game),
  catalog (current_piece g) ->
  (enough_fuel g <= fuel)%nat ->
  exists r g', drop_loop fuel d g = Some (r, g').
Proof.
  unfold enough_fuel, BOARD_HEIGHT.
  induction fuel as [|fuel IH]; intros d g Hc Hfuel; [lia|].
  simpl. rewrite drop_piece_eq.
  destruct (Z.le_gt_cases 19 (pos_y (piece_position g))) as [Hy|Hy].
  - change (is_valid_position g None (Some (shifted 0 1 g)) None)
      with (is_valid_position g None (Some (shifted 0 1 g)) (Some (rotation g))).
    rewrite is_valid_position_low by (auto; simpl; lia). eauto.
  - destruct (is_valid_position g None (Some (shifted 0 1 g)) None) as [[|]|]; eauto.
    apply IH; [exact Hc|]. simpl. lia.
Qed.

Lemma drop_loop_Inv (fuel : nat) :
  forall (d : Z) (g : Game) (r : result Z) (g' : Game),
  Inv g -> drop_loop fuel d g = Some (r, g') ->
  Inv g' /\ exists d', r = Ok d' /\ d <= d'.
Proof.
  induction fuel as [|fuel IH]; intros d g r g' HI Hrun; [discriminate|].
  simpl in Hrun.
  destruct (Inv_move_piece 0 1 g HI) as [HI' [v Hv]].
  unfold drop_piece in Hrun.
  destruct (move_piece 0 1 g) as [[[|]|e] g1]; simpl in *.
  - destruct (IH _ _ _ _ HI' Hrun) as [H1 [d' [H2 H3]]].
    split; [assumption|]. exists d'. split; [assumption|lia].
  - inversion Hrun; subst. split; [assumption|]. exists d. split; [reflexivity|lia].
  - discriminate.
Qed.

Lemma Inv_set_score (v : Z) (g : Game) : Inv g -> Inv (set_score v g).
Proof.
  intros [Hb [Hc [Hn [Hh Hin]]]]. repeat split; try assumption; apply Hb.
Qed.

Lemma hard_drop_eq (fuel : nat) (rnd : kind) (g : Game) :
  hard_drop fuel rnd g =
  match drop_loop fuel 0 g with
  | None => None
  | Some (Raise e, g') => Some (Raise e, g')
  | Some (Ok d, g') => Some (place_piece rnd (set_score (score g' + d * 2) g'))
  end.
Proof. reflexivity. Qed.

Lemma Inv_hard_drop (fuel : nat) (rnd : kind) (g : Game) (r : result Z) (g' : Game) :
  Inv g -> hard_drop fuel rnd g = Some (r, g') -> Inv g'.
Proof.
  intros HI. rewrite hard_drop_eq.
  destruct (drop_loop fuel 0 g) as [[r1 g1]|] eqn:E; [|discriminate].
  destruct (drop_loop_Inv _ _ _ _ _ HI E) as [HI1 [d [-> _]]].
  intros H. inversion H as [H1].
  replace g' with (snd (place_piece rnd (set_score (score g1 + d * 2) g1)))
    by (rewrite H1; reflexivity).
  apply Inv_place_piece, Inv_set_score, HI1.
Qed.

Lemma hard_drop_terminates (fuel : nat) (rnd : kind) (g : Game) :
  catalog (current_piece g) ->
  (enough_fuel g <= fuel)%nat ->
  exists r g', hard_drop fuel rnd g = Some (r, g').
Proof.
  intros Hc Hfuel. rewrite hard_drop_eq.
  destruct (drop_loop_terminates fuel 0 g Hc Hfuel) as [r [g1 ->]].
  destruct r as [d|e]; [|eauto].
  destruct (place_piece rnd _) as [r' g']. eauto.
Qed.

Lemma ghost_loop_state (fuel : nat) :
  forall (ghost_y : Z) (temp_pos : Pos) (g : Game) (r : result Z) (g' : Game),
  ghost_loop fuel ghost_y temp_pos g = Some (r, g') -> g' = g.
Proof.
  induction fuel as [|fuel IH]; intros ghost_y temp_pos g r g' H; [discriminate|].
  simpl in H.
  destruct (is_valid_position g None _ None) as [[|]|];
    [eapply IH; eauto|inversion H; reflexivity|inversion H; reflexivity].
Qed.

Lemma ghost_loop_terminates (fuel : nat) :
  forall (ghost_y : Z) (temp_pos : Pos) (g : Game),
  catalog (current_piece g) ->
  (S (Z.to_nat (BOARD_HEIGHT - ghost_y)) <= fuel)%nat ->
  exists r, ghost_loop fuel ghost_y temp_pos g = Some (r, g).
Proof.
  unfold BOARD_HEIGHT.
  induction fuel as [|fuel IH]; intros ghost_y temp_pos g Hc Hfuel; [lia|].
  simpl.
  destruct (Z.le_gt_cases 20 ghost_y) as [Hy|Hy].
  - change (is_valid_position g None (Some {| pos_x := pos_x temp_pos; pos_y := ghost_y |}) None)
      with (is_valid_position g None (Some {| pos_x := pos_x temp_pos; pos_y := ghost_y |})
              (Some (rotation g))).
    rewrite is_valid_position_low by (auto; simpl; lia). eauto.
  - destruct (is_valid_position g None _ None) as [[|]|]; eauto.
    apply IH; [exact Hc|]. lia.
Qed.

Lemma get_ghost_position_state (fuel : nat) (g : Game) (r : result (Z * Z)) (g' : Game) :
  get_ghost_position fuel g = Some (r, g') -> g' = g.
Proof.
  unfold get_ghost_position.
  destruct (ghost_loop fuel _ _ g) as [[[y|e] g1]|] eqn:E; [| |discriminate];
    apply ghost_loop_state in E; subst g1; intros H; inversion H; reflexivity.
Qed.

Lemma get_ghost_position_terminates (fuel : nat) (g : Game) :
  catalog (current_piece g) ->
  (enough_fuel g <= fuel)%nat ->
  exists r, get_ghost_position fuel g = Some (r, g).
Proof.
  intros Hc Hfuel. unfold get_ghost_position.
  destruct (ghost_loop_terminates fuel (pos_y (piece_position g)) (piece_position g) g
              Hc Hfuel) as [r ->].
  destruct r; eauto.
Qed.

(** More fuel does not change the outcome of a loop that has ended. *)
Lemma drop_loop_more_fuel (fuel : nat) :
  forall (fuel' : nat) (d : Z) (g : Game) (x : result Z * Game),
  (fuel <= fuel')%nat -> drop_loop fuel d g = Some x -> drop_loop fuel' d g = Some x.
Proof.
  induction fuel as [|fuel IH]; intros fuel' d g x Hle H; [discriminate|].
  destruct fuel' as [|fuel']; [lia|].
  simpl in *. destruct (drop_piece g) as [[[|]|e] g1]; auto.
  apply (IH fuel'); [lia|assumption].
Qed.

Lemma ghost_loop_more_fuel (fuel : nat) :
  forall (fuel' : nat) (y : Z) (p : Pos) (g : Game) (x : result Z * Game),
  (fuel <= fuel')%nat -> ghost_loop fuel y p g = Some x -> ghost_loop fuel' y p g = Some x.
Proof.
  induction fuel as [|fuel IH]; intros fuel' y p g x Hle H; [discriminate|].
  destruct fuel' as [|fuel']; [lia|].
  simpl in *. destruct (is_valid_position g None _ None) as [[|]|]; auto.
  apply (IH fuel'); [lia|assumption].
Qed.

Lemma hard_drop_more_fuel (fuel fuel' : nat) (rnd : kind) (g : Game) (x : result Z * Game) :
  (fuel <= fuel')%nat -> hard_drop fuel rnd g = Some x -> hard_drop fuel' rnd g = Some x.
Proof.
  intros Hle. rewrite !hard_drop_eq.
  destruct (drop_loop fuel 0 g) as [y|] eqn:E; [|discriminate].
  rewrite (drop_loop_more_fuel _ _ _ _ _ Hle E). auto.
Qed.

Lemma get_ghost_position_more_fuel (fuel fuel' : nat) (g : Game)
    (x : result (Z * Z) * Game) :
  (fuel <= fuel')%nat ->
  get_ghost_position fuel g = Some x -> get_ghost_position fuel' g = Some x.
Proof.
  intros Hle. unfold get_ghost_position.
  destruct (ghost_loop fuel _ _ g) as [y|] eqn:E; [|discriminate].
  rewrite (ghost_loop_more_fuel _ _ _ _ _ _ Hle E). auto.
Qed.

(** ** Hold *)

Lemma catalog_swapped (rnd : kind) (g : Game) :
  catalog (next_piece g) ->
  (forall h, held_piece g = Some h -> catalog h) ->
  catalog (current_piece (swapped rnd g)) /\
  catalog (next_piece (swapped rnd g)) /\
  (forall h, held_piece (swapped rnd g) = Some h -> catalog h) /\
  board (swapped rnd g) = board g.
Proof.
  intros Hn Hh. unfold swapped.
  destruct (held_piece g) as [h|] eqn:E; simpl; repeat split; auto;
    intros h' H'; inversion H'; apply catalog_generate.
Qed.

Lemma hold_piece_eq (rnd : kind) (g : Game) :
  catalog (next_piece g) ->
  (forall h, held_piece g = Some h -> catalog h) ->
  hold_piece rnd g =
  if can_hold g then (Ok true, after_hold rnd g) else (Ok false, g).
Proof.
  intros Hn Hh.
  unfold hold_piece, after_hold, swapped, bind, read, modify, ret.
  cbv beta iota.
  destruct (can_hold g); [|reflexivity]. simpl.
  destruct (held_piece g) as [h|]; simpl.
  - rewrite (spawn_position_catalog h (Hh h eq_refl)). reflexivity.
  - rewrite (spawn_position_catalog _ Hn). reflexivity.
Qed.

Lemma Inv_hold_piece (rnd : kind) (g : Game) :
  Inv g -> Inv (snd (hold_piece rnd g)) /\ exists v, fst (hold_piece rnd g) = Ok v.
Proof.
  intros HI. pose proof HI as [Hb [Hc [Hn [Hh Hin]]]].
  rewrite (hold_piece_eq rnd g Hn Hh).
  destruct (can_hold g); simpl; (split; [|eauto]); [|assumption].
  destruct (catalog_swapped rnd g Hn Hh) as [Hc' [Hn' [Hh' Hb']]].
  unfold after_hold. repeat split; simpl; try assumption.
  - rewrite Hb'. apply Hb.
  - rewrite Hb'. apply Hb.
  - eapply in_bounds_spawn; [exact Hc'| | |]; reflexivity.
Qed.

(** ** The invariant holds in every reachable state *)

Lemma Inv_run_op (fuel : nat) (o : op) (g g' : Game) :
  Inv g -> run_op fuel o g = Some g' -> Inv g'.
Proof.
  intros HI. destruct o; simpl; intros H.
  - inversion H. apply Inv_move_piece, HI.
  - inversion H. apply Inv_rotate_piece, HI.
  - inversion H. apply (Inv_move_piece 0 1), HI.
  - destruct (hard_drop fuel rnd g) as [[r g1]|] eqn:E; [|discriminate].
    inversion H; subst. eapply Inv_hard_drop; eauto.
  - inversion H. apply Inv_hold_piece, HI.
  - destruct (get_ghost_position fuel g) as [[r g1]|] eqn:E; [|discriminate].
    inversion H; subst. simpl. apply get_ghost_position_state in E. subst. exact HI.
  - inversion H; subst. exact HI.
  - inversion H; subst. exact HI.
Qed.

Lemma Inv_run_ops (fuel : nat) (ops : list op) :
  forall g g', Inv g -> run_ops fuel ops g = Some g' -> Inv g'.
Proof.
  induction ops as [|o rest IH]; intros g g' HI H; simpl in H.
  - inversion H; subst. exact HI.
  - destruct (run_op fuel o g) as [g1|] eqn:E; [|discriminate].
    eapply IH; [|exact H]. eapply Inv_run_op; eauto.
Qed.

Lemma Inv_reachable (g : Game) : reachable g -> Inv g.
Proof.
  intros [rnd1 [rnd2 [ops [fuel H]]]].
  eapply Inv_run_ops; [apply Inv_new_game|exact H].
Qed.

Lemma run_op_terminates (fuel : nat) (o : op) (g : Game) :
  catalog (current_piece g) -> (enough_fuel g <= fuel)%nat ->
  exists g', run_op fuel o g = Some g'.
Proof.
  intros Hc Hfuel. destruct o; simpl; eauto.
  - destruct (hard_drop_terminates fuel rnd g Hc Hfuel) as [r [g' ->]]. simpl. eauto.
  - destruct (get_ghost_position_terminates fuel g Hc Hfuel) as [r ->]. simpl. eauto.
Qed.

Lemma run_op_more_fuel (fuel fuel' : nat) (o : op) (g g' : Game) :
  (fuel <= fuel')%nat -> run_op fuel o g = Some g' -> run_op fuel' o g = Some g'.
Proof.
  intros Hle. destruct o; simpl; auto.
  - destruct (hard_drop fuel rnd g) as [x|] eqn:E; [|discriminate].
    rewrite (hard_drop_more_fuel _ _ _ _ _ Hle E). auto.
  - destruct (get_ghost_position fuel g) as [x|] eqn:E; [|discriminate].
    rewrite (get_ghost_position_more_fuel _ _ _ _ Hle E). auto.
Qed.

Lemma run_ops_more_fuel (fuel fuel' : nat) (ops : list op) :
  forall g g', (fuel <= fuel')%nat ->
  run_ops fuel ops g = Some g' -> run_ops fuel' ops g = Some g'.
Proof.
  induction ops as [|o rest IH]; intros g g' Hle H; [exact H|].
  simpl in *. destruct (run_op fuel o g) as [g1|] eqn:E; [|discriminate].
  rewrite (run_op_more_fuel _ _ _ _ _ Hle E). apply IH; assumption.
Qed.

(** Every sequence of public calls runs to its end from a state of the
    invariant, in particular from a fresh game. *)
Lemma run_ops_total (ops : list op) :
  forall g, Inv g -> exists fuel g', run_ops fuel ops g = Some g'.
Proof.
  induction ops as [|o rest IH]; intros g HI; [exists 0%nat, g; reflexivity|].
  pose proof HI as [_ [Hc _]].
  destruct (run_op_terminates (enough_fuel g) o g Hc (Nat.le_refl _)) as [g1 H1].
  destruct (IH g1 (Inv_run_op _ _ _ _ HI H1)) as [fuel2 [g2 H2]].
  exists (Nat.max (enough_fuel g) fuel2), g2. simpl.
  rewrite (run_op_more_fuel _ _ _ _ _ (Nat.le_max_l _ _) H1).
  apply (run_ops_more_fuel fuel2); [apply Nat.le_max_r|exact H2].
Qed.

Lemma new_game_runs (rnd1 rnd2 : kind) (ops : list op) :
  exists fuel g, run_ops fuel ops (new_game rnd1 rnd2) = Some g /\ reachable g.
Proof.
  destruct (run_ops_total ops _ (Inv_new_game rnd1 rnd2)) as [fuel [g H]].
  exists fuel, g. split; [exact H|]. exists rnd1, rnd2, ops, fuel. exact H.
Qed.

(** ** The sample plays are reachable *)

Lemma reachable_play (ops : list op) :
  run_ops 30 ops (new_game KI KI) <> None -> reachable (play ops).
Proof.
  intros H. exists KI, KI, ops, 30%nat. unfold play, play_from.
  destruct (run_ops 30 ops (new_game KI KI)); congruence.
Qed.


Lemma reachable_game_over_state : reachable game_over_state.
Proof. apply reachable_play. vm_compute. discriminate. Qed.

Lemma reachable_column_state : reachable column_state.
Proof. apply reachable_play. vm_compute. discriminate. Qed.

(** ** The claims *)

(** C6: after any sequence of public operations (move, rotate, drop, hard
    drop, hold, ghost query, snapshot, drop interval) from a fresh game,
    whatever the random pieces and whatever the calls returned or raised, the
    board has exactly 20 rows of exactly 10 cells. *)
Theorem board_dimensions_invariant (g : Game) :
  reachable g ->
  length (board g) = 20%nat /\ Forall (fun r => length r = 10%nat) (board g).
Proof.
  intros H. apply Inv_reachable in H. apply H.
Qed.

Lemma board_dimensions_invariant_witness :
  length (board game_over_state) = 20%nat /\
  Forall (fun r => length r = 10%nat) (board game_over_state).
Proof.
  apply (board_dimensions_invariant game_over_state).
  apply reachable_play. vm_compute. discriminate.
Defined.

(** C9: for every board, offset and rotation index and each of the seven
    catalogue pieces, the loops of [hard_drop] and [get_ghost_position] end
    within [enough_fuel] iterations (one more than the distance of the offset
    from the floor), with an outcome that more iterations do not change; all
    other public operations have no unbounded loop, so every public operation
    runs to completion. *)
Theorem public_operations_terminate
    (g : Game) (rnd : kind) (fuel : nat) :
  catalog (current_piece g) ->
  (enough_fuel g <= fuel)%nat ->
  (exists r g', hard_drop fuel rnd g = Some (r, g') /\
     forall fuel', (fuel <= fuel')%nat -> hard_drop fuel' rnd g = Some (r, g')) /\
  (exists r, get_ghost_position fuel g = Some (r, g) /\
     forall fuel', (fuel <= fuel')%nat -> get_ghost_position fuel' g = Some (r, g)) /\
  (forall o, exists g', run_op fuel o g = Some g').
Proof.
  intros Hc Hfuel. repeat split.
  - destruct (hard_drop_terminates fuel rnd g Hc Hfuel) as [r [g' H]].
    exists r, g'. split; [assumption|]. intros fuel' Hle.
    eapply hard_drop_more_fuel; eauto.
  - destruct (get_ghost_position_terminates fuel g Hc Hfuel) as [r H].
    exists r. split; [assumption|]. intros fuel' Hle.
    eapply get_ghost_position_more_fuel; eauto.
  - intros o. apply run_op_terminates; assumption.
Qed.

Lemma public_operations_terminate_witness :
  (exists r g', hard_drop 21 KS (new_game KT KO) = Some (r, g') /\
     forall fuel', (21 <= fuel')%nat -> hard_drop fuel' KS (new_game KT KO) = Some (r, g')) /\
  (exists r, get_ghost_position 21 (new_game KT KO) = Some (r, new_game KT KO) /\
     forall fuel', (21 <= fuel')%nat ->
       get_ghost_position fuel' (new_game KT KO) = Some (r, new_game KT KO)) /\
  (forall o, exists g', run_op 21 o (new_game KT KO) = Some g').
Proof.
  apply (public_operations_terminate (new_game KT KO) KS 21).
  - reflexivity.
  - vm_compute. lia.
Defined.

(** C4: [rotate_piece] computes the candidate rotation
    [(rotation + 1) mod rotationCount] and commits the first offset among
    0, -1, +1, -2, +2 (in that order, y unchanged) at which the piece in the
    candidate rotation is valid; when all five are invalid it returns [False]
    and leaves the whole state, rotation index and offset included, as it
    was. *)
Theorem rotate_piece_first_valid_kick (g : Game) :
  rotate_piece g =
  match py_mod (rotation g + 1) (len (rotations (current_piece g))) with
  | Raise e => (Raise e, g)
  | Ok new_rotation =>
      match first_valid g new_rotation [0; -1; 1; -2; 2] with
      | Raise e => (Raise e, g)
      | Ok None => (Ok false, g)
      | Ok (Some dx) =>
          (Ok true,
           set_piece_position
             {| pos_x := pos_x (piece_position g) + dx;
                pos_y := pos_y (piece_position g) |}
             (set_rotation new_rotation g))
      end
  end.
Proof.
  rewrite rotate_piece_eq. unfold rotate_outcome, kick_candidates.
  destruct (py_mod _ _) as [nr|e]; [|reflexivity].
  destruct (first_valid g nr _) as [[dx|]|e]; try reflexivity.
  rewrite shifted_y. reflexivity.
Qed.

Lemma ghost_loop_spec (fuel : nat) :
  forall (y0 : Z) (p : Pos) (g : Game),
  board_ok (board g) -> catalog (current_piece g) ->
  (S (Z.to_nat (BOARD_HEIGHT - y0)) <= fuel)%nat ->
  exists gy,
    ghost_loop fuel y0 p g = Some (Ok gy, g) /\ y0 <= gy /\
    (forall y', y0 <= y' < gy ->
       is_valid_position g None (Some {| pos_x := pos_x p; pos_y := y' |}) None = Ok true) /\
    is_valid_position g None (Some {| pos_x := pos_x p; pos_y := gy |}) None = Ok false.
Proof.
  unfold BOARD_HEIGHT.
  induction fuel as [|fuel IH]; intros y0 p g Hb Hc Hfuel; [lia|].
  simpl.
  destruct (is_valid_position_total g {| pos_x := pos_x p; pos_y := y0 |} (rotation g) Hb Hc)
    as [v Hv].
  change (is_valid_position g None (Some {| pos_x := pos_x p; pos_y := y0 |}) None = Ok v) in Hv.
  rewrite Hv. destruct v.
  - assert (y0 < 20) as Hy.
    { destruct (Z.lt_ge_cases y0 20) as [H|H]; [assumption|].
      change (is_valid_position g None (Some {| pos_x := pos_x p; pos_y := y0 |})
                (Some (rotation g)) = Ok true) in Hv.
      rewrite is_valid_position_low in Hv by (auto; simpl; lia). discriminate. }
    destruct (IH (y0 + 1) {| pos_x := pos_x p; pos_y := y0 |} g Hb Hc) as [gy [H1 [H2 [H3 H4]]]];
      [lia|].
    simpl in *. exists gy. split; [assumption|]. split; [lia|]. split; [|assumption].
    intros y' Hy'. destruct (Z.eq_dec y' y0) as [->|Hne]; [assumption|].
    apply H3. lia.
  - exists y0. split; [reflexivity|]. split; [lia|]. split; [intros; lia|assumption].
Qed.

Lemma at_row_current (g : Game) : at_row g (pos_y (piece_position g)) = piece_position g.
Proof. unfold at_row. destruct (piece_position g). reflexivity. Qed.

Lemma get_ghost_position_spec (g : Game) (fuel : nat) :
  board_ok (board g) -> catalog (current_piece g) ->
  (enough_fuel g <= fuel)%nat ->
  exists gy,
    get_ghost_position fuel g = Some (Ok (pos_x (piece_position g), gy), g) /\
    pos_y (piece_position g) - 1 <= gy /\
    (forall y', pos_y (piece_position g) <= y' <= gy ->
       is_valid_position g None (Some (at_row g y')) None = Ok true) /\
    is_valid_position g None (Some (at_row g (gy + 1))) None = Ok false.
Proof.
  intros Hb Hc Hfuel.
  destruct (ghost_loop_spec fuel (pos_y (piece_position g)) (piece_position g) g
              Hb Hc Hfuel) as [gy [H1 [H2 [H3 H4]]]].
  exists (gy - 1). unfold get_ghost_position. rewrite H1.
  split; [reflexivity|]. split; [lia|]. split.
  - intros y' Hy'. apply H3. lia.
  - replace (gy - 1 + 1) with gy by lia. exact H4.
Qed.

(** C7 (amended): on a 10x20 board with a catalogue piece,
    [get_ghost_position] returns the current x and a row [gy], and leaves the
    whole state (board, piece, offset, rotation) as it was, so that a second
    call returns the same.  Validity is tested for the current piece in its
    current rotation: every row from the current one down to [gy] is valid
    and row [gy + 1] is not.  When the current position is valid, [gy] is the
    last valid row at or below it; when the current position is itself
    invalid, the result is the row above the current one, [y - 1]. *)
Theorem get_ghost_position_last_valid_row (g : Game) (fuel : nat) :
  board_ok (board g) -> catalog (current_piece g) ->
  (enough_fuel g <= fuel)%nat ->
  exists gy,
    get_ghost_position fuel g = Some (Ok (pos_x (piece_position g), gy), g) /\
    (forall r g', get_ghost_position fuel g = Some (r, g') ->
       g' = g /\ get_ghost_position fuel g' = Some (r, g')) /\
    (forall y', pos_y (piece_position g) <= y' <= gy ->
       is_valid_position g (Some (current_piece g)) (Some (at_row g y'))
         (Some (rotation g)) = Ok true) /\
    is_valid_position g (Some (current_piece g)) (Some (at_row g (gy + 1)))
      (Some (rotation g)) = Ok false /\
    (is_valid_position g None None None = Ok true -> pos_y (piece_position g) <= gy) /\
    (is_valid_position g None None None = Ok false -> gy = pos_y (piece_position g) - 1).
Proof.
  intros Hb Hc Hfuel.
  destruct (get_ghost_position_spec g fuel Hb Hc Hfuel) as [gy [H1 [H2 [H3 H4]]]].
  exists gy. split; [assumption|]. split.
  { intros r g' H. pose proof (get_ghost_position_state _ _ _ _ H) as ->. auto. }
  split; [exact H3|]. split; [exact H4|].
  assert (Heq : is_valid_position g None None None =
                is_valid_position g None (Some (at_row g (pos_y (piece_position g)))) None).
  { rewrite at_row_current. reflexivity. }
  rewrite Heq. split; intros Hv.
  - destruct (Z.eq_dec gy (pos_y (piece_position g) - 1)) as [Hgy|Hne]; [|lia].
    subst gy.
    replace (pos_y (piece_position g) - 1 + 1) with (pos_y (piece_position g)) in H4 by lia.
    change (is_valid_position g None (Some (at_row g (pos_y (piece_position g)))) None
            = Ok false) in H4.
    congruence.
  - destruct (Z.eq_dec gy (pos_y (piece_position g) - 1)) as [Hgy|Hne]; [assumption|].
    assert (is_valid_position g None (Some (at_row g (pos_y (piece_position g)))) None
            = Ok true) as Hv' by (apply H3; lia).
    congruence.
Qed.

Lemma get_ghost_position_last_valid_row_witness :
  exists gy,
    get_ghost_position 21 (new_game KT KO)
      = Some (Ok (pos_x (piece_position (new_game KT KO)), gy), new_game KT KO) /\
    (forall r g', get_ghost_position 21 (new_game KT KO) = Some (r, g') ->
       g' = new_game KT KO /\ get_ghost_position 21 g' = Some (r, g')) /\
    (forall y', pos_y (piece_position (new_game KT KO)) <= y' <= gy ->
       is_valid_position (new_game KT KO) (Some (current_piece (new_game KT KO)))
         (Some (at_row (new_game KT KO) y')) (Some (rotation (new_game KT KO))) = Ok true) /\
    is_valid_position (new_game KT KO) (Some (current_piece (new_game KT KO)))
      (Some (at_row (new_game KT KO) (gy + 1))) (Some (rotation (new_game KT KO))) = Ok false /\
    (is_valid_position (new_game KT KO) None None None = Ok true ->
       pos_y (piece_position (new_game KT KO)) <= gy) /\
    (is_valid_position (new_game KT KO) None None None = Ok false ->
       gy = pos_y (piece_position (new_game KT KO)) - 1).
Proof.
  apply (get_ghost_position_last_valid_row (new_game KT KO) 21).
  - apply board_ok_new_game.
  - reflexivity.
  - vm_compute. lia.
Defined.

Lemma get_ghost_position_unique (g : Game) (fuel1 fuel2 : nat)
    (x1 x2 : result (Z * Z) * Game) :
  get_ghost_position fuel1 g = Some x1 ->
  get_ghost_position fuel2 g = Some x2 -> x1 = x2.
Proof.
  intros H1 H2.
  apply (get_ghost_position_more_fuel fuel1 (Nat.max fuel1 fuel2)) in H1; [|lia].
  apply (get_ghost_position_more_fuel fuel2 (Nat.max fuel1 fuel2)) in H2; [|lia].
  congruence.
Qed.

(** C7 as stated fails in a reachable state of a running game: after the
    hold in [column_state] the current piece sits at row 0 in an invalid
    position, and [get_ghost_position] returns row -1, which is not at or
    below the current row. *)
Lemma get_ghost_position_above_current_row :
  reachable held_state /\
  held_state = snd (hold_piece KT column_state) /\
  piece_position held_state = {| pos_x := 3; pos_y := 0 |} /\
  is_valid_position held_state None None None = Ok false /\
  get_ghost_position 30 held_state = Some (Ok (3, -1), held_state) /\
  ~ (exists fuel gy,
       get_ghost_position fuel held_state = Some (Ok (3, gy), held_state) /\
       pos_y (piece_position held_state) <= gy).
Proof.
  assert (H30 : get_ghost_position 30 held_state = Some (Ok (3, -1), held_state))
    by (vm_compute; reflexivity).
  assert (Hpos : piece_position held_state = {| pos_x := 3; pos_y := 0 |})
    by (vm_compute; reflexivity).
  split; [apply reachable_play; vm_compute; discriminate|].
  split; [vm_compute; reflexivity|].
  split; [exact Hpos|].
  split; [vm_compute; reflexivity|].
  split; [exact H30|].
  intros [fuel [gy [H Hge]]].
  rewrite Hpos in Hge. simpl in Hge.
  pose proof (get_ghost_position_unique _ _ _ _ _ H H30) as Heq.
  assert (gy = -1) by congruence. lia.
Qed.

(** ** Hard drop in any state of the invariant *)



(** ** Scoring four lines *)

Lemma Inv_four_lines_state : Inv four_lines_state.
Proof.
  repeat split; try discriminate.
  vm_compute. repeat constructor.
Qed.

Lemma place_piece_four_lines (g : Game) (rnd : kind) (g1 : Game) :
  Inv g -> write_and_clear g = (Ok 4, g1) ->
  exists (v : bool) (b : Grid),
    g1 = set_board b g /\
    place_piece rnd g = (Ok (if v then 4 else -1), spawned rnd (scored 4 (set_board b g))).
Proof.
  intros HI Hwc.
  destruct (place_piece_ok rnd g HI) as [n [b [v [Hwc' [Hb [Hn [Hv Hpp]]]]]]].
  rewrite Hwc in Hwc'. inversion Hwc'; subst n g1.
  exists v, b. split; [reflexivity|]. exact Hpp.
Qed.

(** C8: a placement that clears exactly 4 rows returns (4, or -1 when the next
    spawn fails) and adds exactly 1200 times the level held before the
    placement to the score: 1200 at level 1 and 2400 at level 2.  The level is
    recomputed from the new total of cleared lines only afterwards. *)
Theorem four_lines_score (g : Game) (rnd : kind) (g1 : Game) :
  Inv g ->
  write_and_clear g = (Ok 4, g1) ->
  exists r g',
    place_piece rnd g = (Ok r, g') /\
    (r = 4 \/ r = -1) /\
    score g' = score g + 1200 * level g /\
    (level g = 1 -> score g' = score g + 1200) /\
    (level g = 2 -> score g' = score g + 2400) /\
    lines_cleared g' = lines_cleared g + 4 /\
    level g' = (lines_cleared g + 4) / 10 + 1.
Proof.
  intros HI Hwc.
  destruct (place_piece_four_lines g rnd g1 HI Hwc) as [v [b [_ Hpp]]].
  eexists. eexists. split; [exact Hpp|]. simpl.
  split; [destruct v; auto|].
  repeat split; intros; lia.
Qed.

Lemma four_lines_score_witness :
  exists r g',
    place_piece KO four_lines_state = (Ok r, g') /\
    (r = 4 \/ r = -1) /\
    score g' = score four_lines_state + 1200 * level four_lines_state /\
    (level four_lines_state = 1 -> score g' = score four_lines_state + 1200) /\
    (level four_lines_state = 2 -> score g' = score four_lines_state + 2400) /\
    lines_cleared g' = lines_cleared four_lines_state + 4 /\
    level g' = (lines_cleared four_lines_state + 4) / 10 + 1.
Proof.
  apply (four_lines_score four_lines_state KO (snd (write_and_clear four_lines_state))).
  - repeat split; try discriminate. vm_compute. repeat constructor.
  - vm_compute. reflexivity.
Defined.

(** ** Clearing rows 5 and 7 *)

Lemma all_false_from_iff (r : list Z) (P : Prop) :
  (all r = true <-> P) -> ~ P -> all r = false.
Proof. intros [H _] HP. destruct (all r); [exfalso; auto|reflexivity]. Qed.

Lemma py_getitem_fmap {A B} (f : A -> B) (l : list A) (i : Z) :
  py_getitem (f <$> l) i =
  match py_getitem l i with Ok a => Ok (f a) | Raise e => Raise e end.
Proof.
  unfold py_getitem. rewrite length_fmap.
  destruct (norm_index (length l) i) as [j|]; [|reflexivity].
  rewrite list_lookup_fmap. destruct (l !! j); reflexivity.
Qed.

Lemma full_rows_flags_eq (b : Grid) (rows : list Z) :
  full_rows b rows = full_rows_flags (all <$> b) rows.
Proof.
  induction rows as [|row rest IH]; [reflexivity|].
  simpl. rewrite py_getitem_fmap, IH.
  destruct (py_getitem b row); reflexivity.
Qed.

Lemma range_BOARD_HEIGHT :
  range BOARD_HEIGHT = [0; 1; 2; 3; 4; 5; 6; 7; 8; 9; 10; 11; 12; 13; 14; 15; 16; 17; 18; 19].
Proof. reflexivity. Qed.

Lemma sorted_reverse_5_7 : sorted_reverse [5; 7] = [7; 5].
Proof. reflexivity. Qed.

Lemma rows_5_7_cleared_board (g : Game) :
  rows_5_7_full (board g) ->
  exists r0 r1 r2 r3 r4 r5 r6 r7 r8 r9 r10 r11 r12 r13 r14 r15 r16 r17 r18 r19,
    board g = [r0; r1; r2; r3; r4; r5; r6; r7; r8; r9; r10; r11; r12; r13; r14;
               r15; r16; r17; r18; r19] /\
    clear_lines g =
      (Ok 2, set_board [empty_row; empty_row; r0; r1; r2; r3; r5; r6; r8; r9; r10;
                        r11; r12; r13; r14; r15; r16; r17; r18; r19] g).
Proof.
  intros [[Hlen _] Hfull].
  unfold clear_lines, bind, read, ret.
  destruct (board g) as [|r0 b]; [discriminate|].
  do 19 (destruct b as [|? b]; [discriminate|]).
  destruct b; [|discriminate].
  assert (H0 := all_false_from_iff _ _ (Hfull 0%nat _ eq_refl) ltac:(lia)).
  assert (H1 := all_false_from_iff _ _ (Hfull 1%nat _ eq_refl) ltac:(lia)).
  assert (H2 := all_false_from_iff _ _ (Hfull 2%nat _ eq_refl) ltac:(lia)).
  assert (H3 := all_false_from_iff _ _ (Hfull 3%nat _ eq_refl) ltac:(lia)).
  assert (H4 := all_false_from_iff _ _ (Hfull 4%nat _ eq_refl) ltac:(lia)).
  assert (H5 := proj2 (Hfull 5%nat _ eq_refl) ltac:(lia)).
  assert (H6 := all_false_from_iff _ _ (Hfull 6%nat _ eq_refl) ltac:(lia)).
  assert (H7 := proj2 (Hfull 7%nat _ eq_refl) ltac:(lia)).
  assert (H8 := all_false_from_iff _ _ (Hfull 8%nat _ eq_refl) ltac:(lia)).
  assert (H9 := all_false_from_iff _ _ (Hfull 9%nat _ eq_refl) ltac:(lia)).
  assert (H10 := all_false_from_iff _ _ (Hfull 10%nat _ eq_refl) ltac:(lia)).
  assert (H11 := all_false_from_iff _ _ (Hfull 11%nat _ eq_refl) ltac:(lia)).
  assert (H12 := all_false_from_iff _ _ (Hfull 12%nat _ eq_refl) ltac:(lia)).
  assert (H13 := all_false_from_iff _ _ (Hfull 13%nat _ eq_refl) ltac:(lia)).
  assert (H14 := all_false_from_iff _ _ (Hfull 14%nat _ eq_refl) ltac:(lia)).
  assert (H15 := all_false_from_iff _ _ (Hfull 15%nat _ eq_refl) ltac:(lia)).
  assert (H16 := all_false_from_iff _ _ (Hfull 16%nat _ eq_refl) ltac:(lia)).
  assert (H17 := all_false_from_iff _ _ (Hfull 17%nat _ eq_refl) ltac:(lia)).
  assert (H18 := all_false_from_iff _ _ (Hfull 18%nat _ eq_refl) ltac:(lia)).
  assert (H19 := all_false_from_iff _ _ (Hfull 19%nat _ eq_refl) ltac:(lia)).
  do 20 eexists. split; [reflexivity|].
  rewrite full_rows_flags_eq. simpl fmap.
  rewrite H0, H1, H2, H3, H4, H5, H6, H7, H8, H9, H10, H11, H12, H13, H14,
    H15, H16, H17, H18, H19.
  rewrite range_BOARD_HEIGHT.
  replace (full_rows_flags _ _) with (@Ok (list Z) [5; 7]) by (vm_compute; reflexivity).
  rewrite sorted_reverse_5_7. reflexivity.
Qed.

Lemma rows_5_7_full_marked_board : rows_5_7_full (board marked_state).
Proof.
  split.
  - split; [reflexivity|]. vm_compute. repeat constructor.
  - intros i r H.
    do 20 (destruct i as [|i];
           [inversion H; subst r; split; intros H';
            first [lia | reflexivity | vm_compute in H'; discriminate H']|]).
    discriminate H.
Qed.

(** C1: the code breaks the claim on every board the claim speaks of.  On a
    10x20 board in which exactly rows 5 and 7 are full, [_clear_lines]
    returns 2, but the insertion at the top moves the upper full row from
    index 5 to index 6 before [del self.board[5]] runs: the partial row 4 is
    deleted in its place and the full row 5 stays on the board, at index 6.
    The board left is the old one without rows 4 and 7 under two empty rows,
    not the old one without rows 5 and 7.  The rows that were at indices 0
    to 3 are found 2 lower, the row that was at index 6 is found 1 lower, and
    the rows at indices 8 to 19 stay where they were. *)
Theorem rows_5_7_clear_deletes_row_4 (g : Game) :
  rows_5_7_full (board g) ->
  exists b' r4 r5,
    clear_lines g = (Ok 2, set_board b' g) /\
    board g !! 4%nat = Some r4 /\ all r4 = false /\
    board g !! 5%nat = Some r5 /\ all r5 = true /\
    b' = empty_row :: empty_row :: delete 4%nat (delete 7%nat (board g)) /\
    b' <> empty_row :: empty_row :: delete 5%nat (delete 7%nat (board g)) /\
    b' !! 6%nat = Some r5 /\
    (forall i, (i < 4)%nat -> b' !! (i + 2)%nat = board g !! i) /\
    b' !! 7%nat = board g !! 6%nat /\
    (forall i, (8 <= i < 20)%nat -> b' !! i = board g !! i).
Proof.
  intros H.
  destruct (rows_5_7_cleared_board g H)
    as (r0 & r1 & r2 & r3 & r4 & r5 & r6 & r7 & r8 & r9 & r10 & r11 & r12 & r13 &
        r14 & r15 & r16 & r17 & r18 & r19 & Hb & Hcl).
  destruct H as [_ Hfull]. rewrite Hb in Hfull.
  assert (H4 : all r4 = false).
  { destruct (all r4) eqn:E; [|reflexivity].
    pose proof (proj1 (Hfull 4%nat r4 eq_refl) E). lia. }
  assert (H5 : all r5 = true) by (apply (Hfull 5%nat r5 eq_refl); lia).
  eexists. exists r4, r5. split; [exact Hcl|]. rewrite Hb.
  split; [reflexivity|]. split; [exact H4|].
  split; [reflexivity|]. split; [exact H5|].
  split; [reflexivity|]. split; [|split; [reflexivity|split; [|split; [reflexivity|]]]].
  - intros Heq. apply (f_equal (fun l : Grid => l !! 6%nat)) in Heq.
    simpl in Heq. inversion Heq; subst r5. congruence.
  - intros i Hi. do 4 (destruct i as [|i]; [reflexivity|]). lia.
  - intros i Hi. do 8 (destruct i as [|i]; [lia|]).
    do 12 (destruct i as [|i]; [reflexivity|]). lia.
Qed.

Lemma rows_5_7_clear_deletes_row_4_witness :
  exists b' r4 r5,
    clear_lines marked_state = (Ok 2, set_board b' marked_state) /\
    board marked_state !! 4%nat = Some r4 /\ all r4 = false /\
    board marked_state !! 5%nat = Some r5 /\ all r5 = true /\
    b' = empty_row :: empty_row :: delete 4%nat (delete 7%nat (board marked_state)) /\
    b' <> empty_row :: empty_row :: delete 5%nat (delete 7%nat (board marked_state)) /\
    b' !! 6%nat = Some r5 /\
    (forall i, (i < 4)%nat -> b' !! (i + 2)%nat = board marked_state !! i) /\
    b' !! 7%nat = board marked_state !! 6%nat /\
    (forall i, (8 <= i < 20)%nat -> b' !! i = board marked_state !! i).
Proof.
  apply (rows_5_7_clear_deletes_row_4 marked_state).
  split.
  - split; [reflexivity|]. vm_compute. repeat constructor.
  - intros i r H.
    do 20 (destruct i as [|i];
           [inversion H; subst r; split; intros H';
            first [lia | reflexivity | vm_compute in H'; discriminate H']|]).
    discriminate H.
Defined.

(** The same call on [marked_board], whose rows are pairwise different: the
    partial row that was at index 4 is nowhere on the board afterwards, and
    index 6 holds a full row. *)
Lemma clear_lines_marked_board_loses_row_4 :
  board marked_state !! 4%nat = Some (marked_row 4) /\
  all (marked_row 4) = false /\
  (marked_row 4 ∉ board (snd (clear_lines marked_state))) /\
  board (snd (clear_lines marked_state)) !! 6%nat = Some (replicate 10 1).
Proof.
  split; [reflexivity|]. split; [reflexivity|]. split; [|reflexivity].
  intros Hin. apply list_elem_of_In in Hin. vm_compute in Hin.
  repeat (destruct Hin as [Hin|Hin]; [discriminate Hin|]). exact Hin.
Qed.

(** ** The score table *)

(** C3 (amended): the scoring step adds nothing for a count of 0 (or less);
    for a count [n] from 1 to 4 it adds the table entry [40, 100, 300, 1200]
    times the level, adds [n] to the total of cleared lines and recomputes the
    level from the new total; for a count of 5 or more the table lookup is out
    of range and the step raises [IndexError] with the score untouched: the
    count is not clamped to the 4-line entry. *)
Theorem update_score_table (n : Z) (g : Game) :
  update_score n g =
    (if n <=? 0 then (Ok tt, g)
     else if n <=? 4 then (Ok tt, scored n g)
     else (Raise IndexError, g)) /\
  score (scored n g) = score g + score_table n * level g /\
  lines_cleared (scored n g) = lines_cleared g + n /\
  level (scored n g) = (lines_cleared g + n) / 10 + 1 /\
  score_table <$> [0; 1; 2; 3; 4] = [0; 40; 100; 300; 1200].
Proof.
  split; [apply update_score_eq|]. repeat split.
Qed.

(** C3 as stated fails for a count above 4: the scoring step raises
    [IndexError] instead of awarding 1200 times the level.  The count is
    reached in play: in the reachable [second_drop_state] two full rows are
    left on the board by the preceding four-line clear, the hard drop
    completes four more, and the call raises [IndexError] with no line
    score awarded (only the drop bonus of 2 x 14) and no new piece spawned. *)
Lemma update_score_5_raises :
  update_score 5 (new_game KT KO) = (Raise IndexError, new_game KT KO) /\
  reachable second_drop_state /\
  hard_drop 30 KT second_drop_state = Some (Raise IndexError, after_second_drop) /\
  score after_second_drop = score second_drop_state + 2 * 14 /\
  lines_cleared after_second_drop = lines_cleared second_drop_state.
Proof.
  split; [reflexivity|].
  split; [apply reachable_play; vm_compute; discriminate|].
  by_evaluation.
Qed.

(** The four-line clear of the first drop scores 4 lines at level 1 but leaves
    two of the four full rows on the board. *)
Lemma four_lines_leave_two_full_rows :
  reachable first_drop_state /\
  hard_drop 30 KT first_drop_state = Some (Ok 4, after_four_lines) /\
  score after_four_lines = score first_drop_state + 2 * 16 + 1200 /\
  board after_four_lines !! 18%nat = Some (replicate 10 1) /\
  board after_four_lines !! 19%nat = Some (replicate 10 1).
Proof.
  split; [apply reachable_play; vm_compute; discriminate|].
  by_evaluation.
Qed.

(** ** Hold does not validate *)

(** C10: [hold_piece] succeeds whenever [can_hold] is set, and its outcome
    does not depend on the board: the position it assigns is never validated.
    In the reachable [column_state] the current piece is valid, the hold
    succeeds and leaves the I piece on the occupied cell (3, 0) of the board,
    in an invalid position, whereas [_spawn_new_piece], which would bring the
    same piece to the same place, reports the failure. *)
Theorem hold_piece_not_validated :
  (forall (g : Game) (rnd : kind),
     reachable g -> can_hold g = true ->
     hold_piece rnd g = (Ok true, after_hold rnd g) /\
     forall b, fst (hold_piece rnd (set_board b g)) = Ok true) /\
  (reachable column_state /\
   can_hold column_state = true /\
   is_valid_position column_state None None None = Ok true /\
   fst (hold_piece KT column_state) = Ok true /\
   type (current_piece (snd (hold_piece KT column_state))) = KI /\
   piece_position (snd (hold_piece KT column_state)) = {| pos_x := 3; pos_y := 0 |} /\
   occupied (shape (current_piece (snd (hold_piece KT column_state)))) 0 0 /\
   board_occupied (board (snd (hold_piece KT column_state))) 3 0 /\
   is_valid_position (snd (hold_piece KT column_state)) None None None = Ok false /\
   fst (spawn_new_piece KT column_state) = Ok false /\
   current_piece (snd (spawn_new_piece KT column_state)) =
     current_piece (snd (hold_piece KT column_state)) /\
   piece_position (snd (spawn_new_piece KT column_state)) =
     piece_position (snd (hold_piece KT column_state))).
Proof.
  split.
  - intros g rnd Hreach Hcan. apply Inv_reachable in Hreach.
    destruct Hreach as [Hb [Hc [Hn [Hh Hin]]]].
    split.
    + rewrite (hold_piece_eq rnd g Hn Hh), Hcan. reflexivity.
    + intros b. rewrite (hold_piece_eq rnd (set_board b g) Hn Hh). simpl.
      rewrite Hcan. reflexivity.
  - split; [apply reachable_column_state|].
    do 5 (split; [vm_compute; reflexivity|]).
    split; [exists [1; 1; 1; 1], 1; by_evaluation|].
    split; [exists [0; 0; 0; 1; 0; 0; 0; 0; 0; 0], 1; by_evaluation|].
    by_evaluation.
Qed.

Lemma hold_piece_not_validated_witness :
  hold_piece KT column_state = (Ok true, after_hold KT column_state) /\
  forall b, fst (hold_piece KT (set_board b column_state)) = Ok true.
Proof.
  apply (proj1 hold_piece_not_validated column_state KT).
  - apply reachable_play. vm_compute. discriminate.
  - vm_compute. reflexivity.
Defined.

(** ** The hard-drop bonus and the line score add up *)

Lemma drop_loop_fields (fuel : nat) :
  forall (d : Z) (g : Game) (r : result Z) (g' : Game),
  drop_loop fuel d g = Some (r, g') ->
  score g' = score g /\ level g' = level g /\
  lines_cleared g' = lines_cleared g /\ board g' = board g.
Proof.
  induction fuel as [|fuel IH]; intros d g r g' H; [discriminate|].
  simpl in H. rewrite drop_piece_eq in H.
  destruct (is_valid_position g None (Some (shifted 0 1 g)) None) as [[|]|].
  - apply IH in H. simpl in H. exact H.
  - inversion H; subst. auto.
  - inversion H; subst. auto.
Qed.

(** A hard drop of [d] rows whose placement clears 4 lines adds [2 * d] and
    1200 times the level to the score. *)
Lemma hard_drop_four_lines (fuel : nat) (rnd : kind) (g g1 g2 : Game) (d : Z) :
  Inv g ->
  drop_loop fuel 0 g = Some (Ok d, g1) ->
  write_and_clear (set_score (score g1 + d * 2) g1) = (Ok 4, g2) ->
  exists r g',
    hard_drop fuel rnd g = Some (Ok r, g') /\
    score g' = score g + d * 2 + 1200 * level g.
Proof.
  intros HI Hloop Hwc.
  destruct (drop_loop_Inv _ _ _ _ _ HI Hloop) as [HI1 _].
  destruct (drop_loop_fields _ _ _ _ _ Hloop) as [Hs [Hl _]].
  destruct (place_piece_four_lines _ rnd g2 (Inv_set_score (score g1 + d * 2) g1 HI1) Hwc)
    as [v [b [_ Hpp]]].
  rewrite hard_drop_eq, Hloop, Hpp.
  eexists. eexists. split; [reflexivity|]. simpl. rewrite Hs, Hl. lia.
Qed.

(** ** The engine on small plays *)

(** A fresh game with an I piece: the hard drop moves it 19 rows down to the
    bottom row, clears nothing and awards the bonus 2 x 19. *)
Example hard_drop_I_on_empty_board :
  exists g,
    hard_drop 30 KT (new_game KI KO) = Some (Ok 0, g) /\
    score g = 38 /\
    board g !! 19%nat = Some [0; 0; 0; 1; 1; 1; 1; 0; 0; 0] /\
    type (current_piece g) = KO /\ type (next_piece g) = KT.
Proof.
  exists (play_from KI KO [OpHardDrop KT]). by_evaluation.
Qed.

(** The upright T piece beside the right wall: the rotation is blocked at its
    own offset and commits the first kick, one column to the left. *)
Example rotate_piece_kicks_left :
  let g := play_from KT KO [OpRotate; OpMove 4 0] in
  piece_position g = {| pos_x := 8; pos_y := 0 |} /\ rotation g = 1 /\
  is_valid_position g None None (Some 2) = Ok false /\
  rotate_piece g =
    (Ok true, set_piece_position {| pos_x := 7; pos_y := 0 |} (set_rotation 2 g)).
Proof. cbv zeta. by_evaluation. Qed.

(** The upright I piece inside the one-column well: all five candidates are
    blocked and the rotation leaves the state as it was. *)
Example rotate_piece_blocked_in_well :
  let g := play (well_ops ++ [OpRotate; OpMove 6 0; OpMove 0 12]) in
  piece_position g = {| pos_x := 9; pos_y := 12 |} /\ rotation g = 1 /\
  first_valid g 0 [0; -1; 1; -2; 2] = Ok None /\
  rotate_piece g = (Ok false, g).
Proof. cbv zeta. by_evaluation. Qed.

(** Two holds in a row: the second one is refused. *)
Example hold_piece_twice :
  let g := new_game KT KO in
  fst (hold_piece KS g) = Ok true /\
  hold_piece KL (snd (hold_piece KS g)) = (Ok false, snd (hold_piece KS g)).
Proof. cbv zeta. by_evaluation. Qed.

(** ** The shape of the state after each call *)

Lemma drop_loop_frame (fuel : nat) :
  forall (d : Z) (g : Game) (r : result Z) (g' : Game),
  drop_loop fuel d g = Some (r, g') ->
  g' = set_piece_position (piece_position g') g.
Proof.
  induction fuel as [|fuel IH]; intros d g r g' H; [discriminate|].
  simpl in H. rewrite drop_piece_eq in H.
  destruct (is_valid_position g None (Some (shifted 0 1 g)) None) as [[|]|].
  - apply IH in H. rewrite H at 1. reflexivity.
  - inversion H; subst. symmetry. apply set_piece_position_id.
  - inversion H; subst. symmetry. apply set_piece_position_id.
Qed.

(** The state that a hard drop leaves, whether it returns or raises. *)
Lemma hard_drop_form (fuel : nat) (rnd : kind) (g : Game) (r : result Z) (g' : Game) :
  Inv g -> hard_drop fuel rnd g = Some (r, g') ->
  exists (d : Z) (p : Pos) (n : Z) (b : Grid),
    0 <= d /\ 0 <= n <= 20 /\ board_ok b /\
    let gs := set_board b (set_score (score g + d * 2) (set_piece_position p g)) in
    (n <= 4 /\ g' = spawned rnd (after_score n gs) /\
     exists v : bool, r = Ok (if v then n else -1) /\
                      is_valid_position g' None None None = Ok v) \/
    (4 < n /\ g' = gs /\ r = Raise IndexError).
Proof.
  intros HI H. rewrite hard_drop_eq in H.
  destruct (drop_loop fuel 0 g) as [[r1 g1]|] eqn:E; [|discriminate].
  destruct (drop_loop_Inv _ _ _ _ _ HI E) as [HI1 [d [-> Hd]]].
  pose proof (drop_loop_frame _ _ _ _ _ E) as Hg1.
  destruct (place_piece_ok rnd _ (Inv_set_score (score g1 + d * 2) g1 HI1))
    as [n [b [v [Hwc [Hb [Hn [Hv Hpp]]]]]]].
  rewrite Hpp in H.
  exists d, (piece_position g1), n, b. split; [lia|]. split; [assumption|].
  split; [assumption|]. cbv zeta.
  assert (Hgs : set_board b (set_score (score g1 + d * 2) g1) =
                set_board b (set_score (score g + d * 2)
                               (set_piece_position (piece_position g1) g))).
  { rewrite Hg1 at 1 2. reflexivity. }
  destruct (Z.leb_spec n 4).
  - left. inversion H; subst r g'. split; [assumption|]. rewrite <- Hgs.
    split; [reflexivity|]. exists v. split; [reflexivity|]. exact Hv.
  - right. inversion H; subst r g'. split; [assumption|]. rewrite <- Hgs. auto.
Qed.

Lemma level_positive (g : Game) : counters_ok g -> 1 <= level g.
Proof.
  intros [_ [Hl Hlev]]. rewrite Hlev.
  pose proof (Z.div_pos (lines_cleared g) 10 Hl ltac:(lia)). lia.
Qed.

Lemma score_table_nonneg (n : Z) : 0 <= score_table n.
Proof.
  unfold score_table. destruct n as [|p|p]; try lia.
  destruct p as [[p|p|]|[p|p|]|]; try lia; destruct p; lia.
Qed.

Lemma counters_after_score (n : Z) (g : Game) :
  0 <= n -> counters_ok g ->
  counters_ok (after_score n g) /\
  score g <= score (after_score n g) /\
  lines_cleared g <= lines_cleared (after_score n g).
Proof.
  intros Hn Hc. pose proof (level_positive g Hc) as Hlev.
  destruct Hc as [Hs [Hl Hlv]]. unfold after_score.
  destruct (Z.leb_spec n 0).
  - repeat split; try assumption; lia.
  - pose proof (score_table_nonneg n). unfold counters_ok. simpl.
    repeat split; try lia; nia.
Qed.

Lemma catalog_len_rotations (p : Piece) : catalog p -> 0 < len (rotations p).
Proof. intros H. rewrite H. destruct (type p); reflexivity. Qed.

(** What one public call does to the counters and to the rotation index. *)
Lemma run_op_counters (fuel : nat) (o : op) (g g' : Game) :
  Inv g -> counters_ok g -> rotation_ok g ->
  run_op fuel o g = Some g' ->
  counters_ok g' /\ rotation_ok g' /\
  score g <= score g' /\ lines_cleared g <= lines_cleared g'.
Proof.
  intros HI Hc Hr Hrun.
  pose proof HI as [Hb [Hcat [Hn [Hh Hin]]]].
  assert (Hsame : counters_ok g /\ rotation_ok g /\
                  score g <= score g /\ lines_cleared g <= lines_cleared g)
    by (repeat split; try apply Hc; try apply Hr; lia).
  destruct o; simpl in Hrun.
  - inversion Hrun; subst g'. rewrite move_piece_eq.
    destruct (is_valid_position g None _ None) as [[|]|]; exact Hsame.
  - inversion Hrun; subst g'. rewrite rotate_piece_eq. unfold rotate_outcome.
    rewrite (py_mod_ok _ _ (catalog_rotations _ Hcat)).
    destruct (first_valid g _ kick_candidates) as [[dx|]|]; try exact Hsame.
    simpl. split; [exact Hc|]. split; [|lia].
    unfold rotation_ok. simpl.
    apply Z.mod_pos_bound, catalog_len_rotations, Hcat.
  - inversion Hrun; subst g'. unfold drop_piece. rewrite move_piece_eq.
    destruct (is_valid_position g None _ None) as [[|]|]; exact Hsame.
  - destruct (hard_drop fuel rnd g) as [[r g1]|] eqn:E; [|discriminate].
    inversion Hrun; subst g'. simpl.
    destruct (hard_drop_form _ _ _ _ _ HI E) as (d & p & n & b & Hd & Hn' & Hb' & Hform).
    cbv zeta in Hform.
    assert (Hcs : counters_ok
              (set_board b (set_score (score g + d * 2) (set_piece_position p g)))).
    { destruct Hc as [Hs [Hl Hlv]]. unfold counters_ok. simpl. repeat split; lia. }
    destruct Hform as [[Hle [-> _]]|[Hgt [-> _]]].
    + destruct (counters_after_score n _ (proj1 Hn') Hcs) as [Hc2 [Hs2 Hl2]].
      simpl in Hs2, Hl2.
      split; [exact Hc2|]. split; [|simpl; lia].
      unfold rotation_ok. simpl. split; [lia|].
      replace (next_piece (after_score n _)) with (next_piece g)
        by (unfold after_score; destruct (n <=? 0); reflexivity).
      apply catalog_len_rotations, Hn.
    + split; [exact Hcs|]. split; [exact Hr|]. simpl. lia.
  - inversion Hrun; subst g'. rewrite (hold_piece_eq rnd g Hn Hh).
    destruct (can_hold g); [|exact Hsame].
    pose proof (catalog_swapped rnd g Hn Hh) as [Hcs _].
    apply catalog_len_rotations in Hcs.
    unfold counters_ok, rotation_ok, after_hold, swapped in *.
    destruct (held_piece g); simpl in *; (split; [exact Hc|]); split; lia.
  - destruct (get_ghost_position fuel g) as [[r g1]|] eqn:E; [|discriminate].
    inversion Hrun; subst g'. simpl.
    apply get_ghost_position_state in E. subst g1. exact Hsame.
  - inversion Hrun; subst g'. exact Hsame.
  - inversion Hrun; subst g'. exact Hsame.
Qed.

Lemma counters_new_game (rnd1 rnd2 : kind) :
  counters_ok (new_game rnd1 rnd2) /\ rotation_ok (new_game rnd1 rnd2).
Proof. destruct rnd1, rnd2; repeat split; vm_compute; congruence. Qed.

Lemma run_ops_counters (fuel : nat) (ops : list op) :
  forall g g',
  Inv g -> counters_ok g -> rotation_ok g ->
  run_ops fuel ops g = Some g' ->
  counters_ok g' /\ rotation_ok g' /\
  score g <= score g' /\ lines_cleared g <= lines_cleared g'.
Proof.
  induction ops as [|o rest IH]; intros g g' HI Hc Hr H; simpl in H.
  - inversion H; subst. repeat split; try apply Hc; try apply Hr; lia.
  - destruct (run_op fuel o g) as [g1|] eqn:E; [|discriminate].
    destruct (run_op_counters _ _ _ _ HI Hc Hr E) as [Hc1 [Hr1 [Hs1 Hl1]]].
    destruct (IH _ _ (Inv_run_op _ _ _ _ HI E) Hc1 Hr1 H) as [Hc2 [Hr2 [Hs2 Hl2]]].
    repeat split; try apply Hc2; try apply Hr2; lia.
Qed.

Lemma reachable_counters (g : Game) : reachable g -> counters_ok g /\ rotation_ok g.
Proof.
  intros [rnd1 [rnd2 [ops [fuel H]]]].
  destruct (counters_new_game rnd1 rnd2) as [Hc Hr].
  destruct (run_ops_counters _ _ _ _ (Inv_new_game rnd1 rnd2) Hc Hr H) as [H1 [H2 _]].
  auto.
Qed.

(** ** Counters, rotation index and drop interval in reachable states *)

(** X1: in every state reached by public calls from a fresh game the score
    and the total of cleared lines are not negative, and the level is the
    total of cleared lines divided by 10, plus 1 (so it is at least 1). *)
Theorem counters_invariant (g : Game) :
  reachable g ->
  0 <= score g /\ 0 <= lines_cleared g /\
  level g = lines_cleared g / 10 + 1 /\ 1 <= level g.
Proof.
  intros H. destruct (reachable_counters g H) as [Hc _].
  pose proof (level_positive g Hc). destruct Hc as [Hs [Hl Hlv]]. auto.
Qed.

Lemma reachable_state_after_ops : reachable state_after_ops.
Proof. apply reachable_play. vm_compute. discriminate. Qed.

Lemma counters_invariant_witness :
  0 <= score state_after_ops /\ 0 <= lines_cleared state_after_ops /\
  level state_after_ops = lines_cleared state_after_ops / 10 + 1 /\
  1 <= level state_after_ops.
Proof.
  apply (counters_invariant state_after_ops).
  apply reachable_play. vm_compute. discriminate.
Defined.

(** X2: in every reachable state the rotation index lies between 0 and the
    number of rotation states of the current piece, so the reduction modulo
    that number in [_is_valid_position] and [_place_piece] changes nothing. *)
Theorem rotation_index_in_range (g : Game) :
  reachable g ->
  0 <= rotation g < len (rotations (current_piece g)) /\
  py_mod (rotation g) (len (rotations (current_piece g))) = Ok (rotation g).
Proof.
  intros H. destruct (reachable_counters g H) as [_ Hr].
  split; [exact Hr|]. unfold rotation_ok in Hr. unfold py_mod.
  destruct (Z.eqb_spec (len (rotations (current_piece g))) 0); [lia|].
  rewrite Z.mod_small by lia. reflexivity.
Qed.

Lemma rotation_index_in_range_witness :
  0 <= rotation state_after_ops < len (rotations (current_piece state_after_ops)) /\
  py_mod (rotation state_after_ops) (len (rotations (current_piece state_after_ops)))
    = Ok (rotation state_after_ops).
Proof.
  apply (rotation_index_in_range state_after_ops).
  apply reachable_play. vm_compute. discriminate.
Defined.

(** X3: no sequence of public calls makes the score, the total of cleared
    lines or the level smaller, whatever the calls return or raise. *)
Theorem counters_never_decrease (g g' : Game) (fuel : nat) (ops : list op) :
  reachable g ->
  run_ops fuel ops g = Some g' ->
  score g <= score g' /\ lines_cleared g <= lines_cleared g' /\ level g <= level g'.
Proof.
  intros Hreach Hrun.
  destruct (reachable_counters g Hreach) as [Hc Hr].
  destruct (run_ops_counters _ _ _ _ (Inv_reachable g Hreach) Hc Hr Hrun)
    as [Hc' [_ [Hs Hl]]].
  split; [exact Hs|]. split; [exact Hl|].
  destruct Hc as [_ [_ ->]]. destruct Hc' as [_ [_ ->]].
  pose proof (Z.div_le_mono (lines_cleared g) (lines_cleared g') 10 ltac:(lia) Hl). lia.
Qed.

Lemma counters_never_decrease_witness :
  score first_drop_state <= score state_after_ops /\
  lines_cleared first_drop_state <= lines_cleared state_after_ops /\
  level first_drop_state <= level state_after_ops.
Proof.
  apply (counters_never_decrease first_drop_state state_after_ops 30
           ([OpHardDrop KT] ++ i_at 9 KT ++ [OpMove (-1) 0; OpRotate])).
  - apply reachable_play. vm_compute. discriminate.
  - vm_compute. reflexivity.
Defined.

(** X4: in every reachable state [get_drop_interval] returns a value between
    50 and 1000 and changes nothing; it is 1000 at level 1, falls by 50 with
    each level, and is 50 from level 20 on. *)
Theorem drop_interval_bounds (g : Game) :
  reachable g ->
  exists v,
    get_drop_interval g = (Ok v, g) /\
    50 <= v <= 1000 /\
    (level g <= 20 -> v = 1050 - 50 * level g) /\
    (20 <= level g -> v = 50).
Proof.
  intros H. destruct (reachable_counters g H) as [Hc _].
  pose proof (level_positive g Hc) as Hlev.
  exists (Z.max 50 (1000 - (level g - 1) * 50)).
  split; [reflexivity|]. lia.
Qed.

Lemma drop_interval_bounds_witness :
  exists v,
    get_drop_interval state_after_ops = (Ok v, state_after_ops) /\
    50 <= v <= 1000 /\
    (level state_after_ops <= 20 -> v = 1050 - 50 * level state_after_ops) /\
    (20 <= level state_after_ops -> v = 50).
Proof.
  apply (drop_interval_bounds state_after_ops).
  apply reachable_play. vm_compute. discriminate.
Defined.

(** ** Moves, rotations and soft drops of a valid piece *)

Lemma is_valid_position_at (g : Game) (p : Pos) (r : Z) :
  is_valid_position (set_piece_position p (set_rotation r g)) None None None =
  is_valid_position g None (Some p) (Some r).
Proof. reflexivity. Qed.

(** X5: on a 10x20 board with a catalogue piece in a valid position, each of
    [move_piece], [rotate_piece] and [drop_piece] returns a boolean, changes
    at most the offset and the rotation index, leaves the piece in a valid
    position, and changes nothing at all when it returns [False]. *)
Theorem moves_keep_the_piece_valid (g : Game) (dx dy : Z) (m : M bool) :
  board_ok (board g) -> catalog (current_piece g) ->
  is_valid_position g None None None = Ok true ->
  m = move_piece dx dy \/ m = rotate_piece \/ m = drop_piece ->
  exists (v : bool) (g' : Game),
    m g = (Ok v, g') /\
    g' = set_piece_position (piece_position g') (set_rotation (rotation g') g) /\
    is_valid_position g' None None None = Ok true /\
    (v = false -> g' = g).
Proof.
  intros Hb Hc Hv Hm.
  assert (Hstay : g = set_piece_position (piece_position g) (set_rotation (rotation g) g))
    by (destruct g; reflexivity).
  assert (Hmove : forall ddx ddy, exists (v : bool) (g' : Game),
    move_piece ddx ddy g = (Ok v, g') /\
    g' = set_piece_position (piece_position g') (set_rotation (rotation g') g) /\
    is_valid_position g' None None None = Ok true /\ (v = false -> g' = g)).
  { intros ddx ddy. rewrite move_piece_eq.
    destruct (is_valid_position_total g (shifted ddx ddy g) (rotation g) Hb Hc) as [v Hv'].
    change (is_valid_position g None (Some (shifted ddx ddy g)) None = Ok v) in Hv'.
    rewrite Hv'. destruct v.
    - eexists. eexists. split; [reflexivity|]. split; [destruct g; reflexivity|].
      split; [exact Hv'|discriminate].
    - exists false, g. auto. }
  destruct Hm as [->|[->| ->]]; [apply Hmove| |apply Hmove].
  rewrite rotate_piece_eq. unfold rotate_outcome.
  rewrite (py_mod_ok _ _ (catalog_rotations _ Hc)).
  destruct (first_valid_total g ((rotation g + 1) mod len (rotations (current_piece g)))
              kick_candidates Hb Hc) as [o Ho].
  rewrite Ho. destruct o as [dx'|].
  - eexists. eexists. split; [reflexivity|]. split; [destruct g; reflexivity|].
    split; [|discriminate].
    rewrite is_valid_position_at. eapply first_valid_Some. exact Ho.
  - exists false, g. auto.
Qed.

Lemma moves_keep_the_piece_valid_witness :
  exists (v : bool) (g' : Game),
    rotate_piece (play_from KT KO [OpRotate; OpMove 4 0]) = (Ok v, g') /\
    g' = set_piece_position (piece_position g')
           (set_rotation (rotation g') (play_from KT KO [OpRotate; OpMove 4 0])) /\
    is_valid_position g' None None None = Ok true /\
    (v = false -> g' = play_from KT KO [OpRotate; OpMove 4 0]).
Proof.
  apply (moves_keep_the_piece_valid (play_from KT KO [OpRotate; OpMove 4 0]) 0 0 rotate_piece).
  - split; [reflexivity|]. vm_compute. repeat constructor.
  - reflexivity.
  - vm_compute. reflexivity.
  - right. left. reflexivity.
Defined.

(** X6: a move that succeeded from a valid position is undone by the opposite
    move: [move_piece(-dx, -dy)] succeeds and restores the state. *)
Theorem move_piece_back (g g' : Game) (dx dy : Z) :
  is_valid_position g None None None = Ok true ->
  move_piece dx dy g = (Ok true, g') ->
  move_piece (- dx) (- dy) g' = (Ok true, g).
Proof.
  intros Hv Hm. rewrite move_piece_eq in Hm.
  destruct (is_valid_position g None (Some (shifted dx dy g)) None) as [[|]|];
    try discriminate.
  inversion Hm; subst g'. rewrite move_piece_eq.
  assert (Hback : shifted (- dx) (- dy) (set_piece_position (shifted dx dy g) g)
                  = piece_position g).
  { unfold shifted. simpl. destruct (piece_position g) as [x y]. simpl. f_equal; lia. }
  rewrite Hback.
  change (is_valid_position (set_piece_position (shifted dx dy g) g) None
            (Some (piece_position g)) None)
    with (is_valid_position g None None None).
  rewrite Hv. f_equal. destruct g; reflexivity.
Qed.

Lemma move_piece_back_witness :
  move_piece (- 3) (- 5) (snd (move_piece 3 5 (new_game KT KO)))
  = (Ok true, new_game KT KO).
Proof.
  apply (move_piece_back (new_game KT KO) (snd (move_piece 3 5 (new_game KT KO))) 3 5).
  - vm_compute. reflexivity.
  - vm_compute. reflexivity.
Defined.

(** ** The hard drop lands on the ghost position *)

Lemma shifted_down (g : Game) : shifted 0 1 g = at_row g (pos_y (piece_position g) + 1).
Proof. unfold shifted, at_row. f_equal. lia. Qed.

Lemma drop_loop_lands (fuel : nat) :
  forall (d : Z) (g : Game) (gy : Z),
  pos_y (piece_position g) <= gy ->
  (forall y', pos_y (piece_position g) < y' <= gy ->
     is_valid_position g None (Some (at_row g y')) None = Ok true) ->
  is_valid_position g None (Some (at_row g (gy + 1))) None = Ok false ->
  (Z.to_nat (gy - pos_y (piece_position g)) < fuel)%nat ->
  drop_loop fuel d g =
    Some (Ok (d + (gy - pos_y (piece_position g))), set_piece_position (at_row g gy) g).
Proof.
  induction fuel as [|fuel IH]; intros d g gy Hle Hvalid Hstop Hfuel; [lia|].
  simpl. rewrite drop_piece_eq, shifted_down.
  destruct (Z.eq_dec gy (pos_y (piece_position g))) as [->|Hne].
  - rewrite Hstop. rewrite at_row_current, set_piece_position_id.
    do 3 f_equal. lia.
  - rewrite Hvalid by lia.
    rewrite (IH (d + 1) (set_piece_position (at_row g (pos_y (piece_position g) + 1)) g) gy).
    + simpl. do 3 f_equal. lia.
    + simpl. lia.
    + simpl. intros y' Hy'. apply (Hvalid y'). lia.
    + exact Hstop.
    + simpl. lia.
Qed.

(** X7: on a 10x20 board with a catalogue piece in a valid position, the loop
    of [hard_drop] stops exactly on the row that [get_ghost_position]
    reports: the piece is moved straight down to the ghost row [gy], the drop
    distance is [gy - y], and [hard_drop] places the piece there after adding
    twice that distance to the score. *)
Theorem hard_drop_lands_on_ghost (g : Game) (rnd : kind) (fuel : nat) :
  board_ok (board g) -> catalog (current_piece g) ->
  is_valid_position g None None None = Ok true ->
  (enough_fuel g <= fuel)%nat ->
  exists gy,
    get_ghost_position fuel g = Some (Ok (pos_x (piece_position g), gy), g) /\
    pos_y (piece_position g) <= gy < 20 /\
    drop_loop fuel 0 g =
      Some (Ok (gy - pos_y (piece_position g)), set_piece_position (at_row g gy) g) /\
    hard_drop fuel rnd g =
      Some (place_piece rnd
              (set_score (score g + (gy - pos_y (piece_position g)) * 2)
                 (set_piece_position (at_row g gy) g))).
Proof.
  intros Hb Hc Hv Hfuel.
  destruct (get_ghost_position_spec g fuel Hb Hc Hfuel) as [gy [H1 [H2 [H3 H4]]]].
  assert (Hge : pos_y (piece_position g) <= gy).
  { destruct (Z.eq_dec gy (pos_y (piece_position g) - 1)) as [->|Hne]; [|lia].
    replace (pos_y (piece_position g) - 1 + 1) with (pos_y (piece_position g)) in H4 by lia.
    rewrite at_row_current in H4.
    change (is_valid_position g None None None = Ok false) in H4. congruence. }
  assert (Hlt : gy < 20).
  { destruct (Z.lt_ge_cases gy 20) as [H|H]; [assumption|].
    assert (Hgy : is_valid_position g None (Some (at_row g gy)) None = Ok true)
      by (apply H3; lia).
    change (is_valid_position g None (Some (at_row g gy)) (Some (rotation g)) = Ok true)
      in Hgy.
    rewrite is_valid_position_low in Hgy by (auto; simpl; lia). discriminate. }
  assert (Hloop : drop_loop fuel 0 g =
    Some (Ok (gy - pos_y (piece_position g)), set_piece_position (at_row g gy) g)).
  { rewrite (drop_loop_lands fuel 0 g gy Hge); [reflexivity| |exact H4|].
    - intros y' Hy'. apply H3. lia.
    - unfold enough_fuel, BOARD_HEIGHT in Hfuel. lia. }
  exists gy. split; [exact H1|]. split; [lia|]. split; [exact Hloop|].
  rewrite hard_drop_eq, Hloop. reflexivity.
Qed.

Lemma hard_drop_lands_on_ghost_witness :
  exists gy,
    get_ghost_position 30 first_drop_state
      = Some (Ok (pos_x (piece_position first_drop_state), gy), first_drop_state) /\
    pos_y (piece_position first_drop_state) <= gy < 20 /\
    drop_loop 30 0 first_drop_state =
      Some (Ok (gy - pos_y (piece_position first_drop_state)),
            set_piece_position (at_row first_drop_state gy) first_drop_state) /\
    hard_drop 30 KT first_drop_state =
      Some (place_piece KT
              (set_score (score first_drop_state
                          + (gy - pos_y (piece_position first_drop_state)) * 2)
                 (set_piece_position (at_row first_drop_state gy) first_drop_state))).
Proof.
  apply (hard_drop_lands_on_ghost first_drop_state KT 30).
  - split; [reflexivity|]. vm_compute. repeat constructor.
  - reflexivity.
  - vm_compute. reflexivity.
  - vm_compute. lia.
Defined.

(** X8: a soft drop that succeeds does not change the ghost row: on a 10x20
    board with a catalogue piece in a valid position, [get_ghost_position]
    returns the same pair before and after a successful [drop_piece]. *)
Theorem ghost_unchanged_by_soft_drop (g g' : Game) (fuel : nat) :
  board_ok (board g) -> catalog (current_piece g) ->
  is_valid_position g None None None = Ok true ->
  drop_piece g = (Ok true, g') ->
  (enough_fuel g <= fuel)%nat ->
  exists xy,
    get_ghost_position fuel g = Some (Ok xy, g) /\
    get_ghost_position fuel g' = Some (Ok xy, g').
Proof.
  intros Hb Hc Hv Hdrop Hfuel.
  rewrite drop_piece_eq, shifted_down in Hdrop.
  destruct (is_valid_position g None
              (Some (at_row g (pos_y (piece_position g) + 1))) None) as [[|]|] eqn:Hnext;
    try discriminate.
  inversion Hdrop; subst g'. clear Hdrop.
  set (g1 := set_piece_position (at_row g (pos_y (piece_position g) + 1)) g).
  destruct (get_ghost_position_spec g fuel Hb Hc Hfuel) as [gy [H1 [H2 [H3 H4]]]].
  destruct (get_ghost_position_spec g1 fuel Hb Hc) as [gy1 [K1 [K2 [K3 K4]]]].
  { unfold enough_fuel in *. simpl. lia. }
  assert (K3' : forall y', pos_y (piece_position g) + 1 <= y' <= gy1 ->
            is_valid_position g None (Some (at_row g y')) None = Ok true) by exact K3.
  assert (K4' : is_valid_position g None (Some (at_row g (gy1 + 1))) None = Ok false)
    by exact K4.
  clear K3 K4.
  assert (K2' : pos_y (piece_position g) <= gy1)
    by (unfold g1 in K2; simpl in K2; lia).
  assert (gy = gy1); [|subst gy1; exists (pos_x (piece_position g), gy); auto].
  assert (Hge : pos_y (piece_position g) + 1 <= gy).
  { destruct (Z.le_gt_cases (pos_y (piece_position g) + 1) gy) as [H|H]; [assumption|].
    assert (gy + 1 = pos_y (piece_position g) \/ gy + 1 = pos_y (piece_position g) + 1)
      as [E|E] by lia; rewrite E in H4.
    - rewrite at_row_current in H4.
      change (is_valid_position g None None None = Ok false) in H4. congruence.
    - congruence. }
  destruct (Z.lt_trichotomy gy gy1) as [Hlt|[Heq|Hgt]]; [|assumption|].
  - assert (is_valid_position g None (Some (at_row g (gy + 1))) None = Ok true)
      by (apply K3'; lia). congruence.
  - assert (is_valid_position g None (Some (at_row g (gy1 + 1))) None = Ok true)
      by (apply H3; lia). congruence.
Qed.

Lemma ghost_unchanged_by_soft_drop_witness :
  exists xy,
    get_ghost_position 30 (new_game KT KO) = Some (Ok xy, new_game KT KO) /\
    get_ghost_position 30 (snd (drop_piece (new_game KT KO)))
      = Some (Ok xy, snd (drop_piece (new_game KT KO))).
Proof.
  apply (ghost_unchanged_by_soft_drop (new_game KT KO) (snd (drop_piece (new_game KT KO))) 30).
  - apply board_ok_new_game.
  - reflexivity.
  - vm_compute. reflexivity.
  - vm_compute. reflexivity.
  - vm_compute. lia.
Defined.

(** ** Spawning *)

(** X9: on a 10x20 board, [_spawn_new_piece] with a catalogue lookahead piece
    returns a boolean and leaves the board, the score, the line total and the
    level untouched; it returns [False] exactly when an occupied cell of the
    new piece, in rotation state 0 at its spawn offset, lies on an occupied
    cell of the board (the spawn offset itself is always inside the walls). *)
Theorem spawn_fails_iff_overlap (g : Game) (rnd : kind) :
  board_ok (board g) -> catalog (next_piece g) ->
  exists (v : bool) (g' : Game) (s : Grid),
    spawn_new_piece rnd g = (Ok v, g') /\
    board g' = board g /\ score g' = score g /\
    lines_cleared g' = lines_cleared g /\ level g' = level g /\
    current_piece g' = next_piece g /\
    next_piece g' = generate_random_piece rnd /\
    rotation g' = 0 /\ can_hold g' = true /\
    piece_position g' = {| pos_x := spawn_x (type (next_piece g)); pos_y := 0 |} /\
    shape_at (next_piece g) 0 = Some s /\
    (v = false <->
     exists i j, occupied s i j /\
       board_occupied (board g) (spawn_x (type (next_piece g)) + Z.of_nat j) (Z.of_nat i)).
Proof.
  intros Hb Hc.
  destruct (spawn_new_piece_eq rnd g Hb Hc) as [v [Hsp Hv]].
  destruct (is_valid_position_spec (spawned rnd g) (next_piece g)
              {| pos_x := spawn_x (type (next_piece g)); pos_y := 0 |} 0
              (catalog_rotations _ Hc) Hb) as [s [v' [Hs [Hv' Hiff]]]].
  change (is_valid_position (spawned rnd g) None None None = Ok v') in Hv'.
  rewrite Hv in Hv'. inversion Hv'; subst v'.
  assert (Hin : in_bounds (spawned rnd g))
    by (apply (in_bounds_spawn _ (next_piece g)); auto).
  destruct (in_bounds_cells (spawned rnd g) Hc Hin) as [s' [Hs' Hcells]].
  change (shape_at (next_piece g) 0 = Some s') in Hs'.
  rewrite Hs in Hs'. inversion Hs'; subst s'. simpl in Hcells.
  exists v, (spawned rnd g), s. split; [exact Hsp|].
  do 9 (split; [reflexivity|]). split; [exact Hs|].
  rewrite Hiff. simpl. split.
  - intros [i [j [Ho Hbl]]]. exists i, j. split; [exact Ho|].
    destruct (Hcells i j Ho) as [HX HY].
    destruct Hbl as [H|[H|[H|[_ H]]]]; try lia. exact H.
  - intros [i [j [Ho Hocc]]]. exists i, j. split; [exact Ho|].
    right. right. right. split; [lia|exact Hocc].
Qed.

Lemma spawn_fails_iff_overlap_witness :
  exists (v : bool) (g' : Game) (s : Grid),
    spawn_new_piece KT column_state = (Ok v, g') /\
    board g' = board column_state /\ score g' = score column_state /\
    lines_cleared g' = lines_cleared column_state /\ level g' = level column_state /\
    current_piece g' = next_piece column_state /\
    next_piece g' = generate_random_piece KT /\
    rotation g' = 0 /\ can_hold g' = true /\
    piece_position g'
      = {| pos_x := spawn_x (type (next_piece column_state)); pos_y := 0 |} /\
    shape_at (next_piece column_state) 0 = Some s /\
    (v = false <->
     exists i j, occupied s i j /\
       board_occupied (board column_state)
         (spawn_x (type (next_piece column_state)) + Z.of_nat j) (Z.of_nat i)).
Proof.
  apply (spawn_fails_iff_overlap column_state KT).
  - split; [reflexivity|]. vm_compute. repeat constructor.
  - reflexivity.
Defined.

(** X10: a fresh game, whatever the two pieces drawn: the board is empty, the
    counters are 0, 0 and level 1, nothing is held, holding is allowed, the
    first draw is the current piece at its spawn offset in rotation state 0,
    the second draw is the lookahead piece, and the position is valid: the
    first spawn never fails. *)
Theorem new_game_state (rnd1 rnd2 : kind) :
  board (new_game rnd1 rnd2) = empty_board /\
  score (new_game rnd1 rnd2) = 0 /\
  lines_cleared (new_game rnd1 rnd2) = 0 /\
  level (new_game rnd1 rnd2) = 1 /\
  current_piece (new_game rnd1 rnd2) = generate_random_piece rnd1 /\
  next_piece (new_game rnd1 rnd2) = generate_random_piece rnd2 /\
  held_piece (new_game rnd1 rnd2) = None /\
  can_hold (new_game rnd1 rnd2) = true /\
  rotation (new_game rnd1 rnd2) = 0 /\
  piece_position (new_game rnd1 rnd2) = {| pos_x := spawn_x rnd1; pos_y := 0 |} /\
  is_valid_position (new_game rnd1 rnd2) None None None = Ok true.
Proof.
  assert (Hg : new_game rnd1 rnd2 =
    {| board := empty_board; score := 0; lines_cleared := 0; level := 1;
       current_piece := generate_random_piece rnd1;
       next_piece := generate_random_piece rnd2;
       held_piece := None;
       piece_position := {| pos_x := spawn_x rnd1; pos_y := 0 |};
       rotation := 0; can_hold := true |})
    by (destruct rnd1; reflexivity).
  rewrite Hg. do 10 (split; [reflexivity|]).
  destruct rnd1; reflexivity.
Qed.

(** ** Clearing lines *)

Lemma full_rows_flags_seq (l2 : list bool) :
  forall l1 : list bool,
  full_rows_flags (l1 ++ l2) (Z.of_nat <$> seq (length l1) (length l2))
  = Ok (true_indices (Z.of_nat (length l1)) l2).
Proof.
  induction l2 as [|f l2 IH]; intros l1; [reflexivity|].
  simpl length. simpl seq. simpl fmap. simpl full_rows_flags.
  destruct (py_getitem_in_range (l1 ++ f :: l2) (Z.of_nat (length l1))) as [a [Ha1 Ha2]].
  { unfold len. rewrite length_app. simpl. lia. }
  rewrite Nat2Z.id, lookup_app_r, Nat.sub_diag in Ha1 by lia.
  simpl in Ha1. inversion Ha1; subst a. rewrite Ha2. simpl rbind.
  specialize (IH (l1 ++ [f])).
  rewrite <- app_assoc, length_app in IH. simpl in IH.
  replace (length l1 + 1)%nat with (S (length l1)) in IH by lia.
  change (list_fmap nat Z Z.of_nat (seq (S (length l1)) (length l2)))
    with (Z.of_nat <$> seq (S (length l1)) (length l2)).
  rewrite IH. simpl.
  replace (Z.of_nat (S (length l1))) with (Z.of_nat (length l1) + 1) by lia.
  destruct f; reflexivity.
Qed.

Lemma full_rows_true_indices (b : Grid) :
  length b = 20%nat ->
  full_rows b (range BOARD_HEIGHT) = Ok (true_indices 0 (all <$> b)).
Proof.
  intros Hlen. rewrite full_rows_flags_eq.
  pose proof (full_rows_flags_seq (all <$> b) []) as H.
  rewrite length_fmap, Hlen in H. exact H.
Qed.

Lemma length_true_indices (b : Grid) :
  forall k, length (true_indices k (all <$> b)) = length (List.filter all b).
Proof.
  induction b as [|r b IH]; intros k; [reflexivity|].
  simpl. rewrite length_app, IH. destruct (all r); reflexivity.
Qed.

Lemma true_indices_none (flags : list bool) :
  forall k, (forall i f, flags !! i = Some f -> f = false) -> true_indices k flags = [].
Proof.
  induction flags as [|f flags IH]; intros k H; [reflexivity|].
  simpl. rewrite (H 0%nat f eq_refl). simpl.
  apply IH. intros i f' Hi. apply (H (S i) f' Hi).
Qed.

Lemma true_indices_single (flags : list bool) :
  forall (k0 : Z) (k : nat),
  (k < length flags)%nat ->
  (forall i f, flags !! i = Some f -> (f = true <-> i = k)) ->
  true_indices k0 flags = [k0 + Z.of_nat k].
Proof.
  induction flags as [|f flags IH]; intros k0 k Hk H; [simpl in Hk; lia|].
  simpl. destruct k as [|k].
  - rewrite (proj2 (H 0%nat f eq_refl) eq_refl). simpl.
    rewrite true_indices_none.
    + f_equal. lia.
    + intros i f' Hi. destruct f'; [|reflexivity].
      pose proof (proj1 (H (S i) true Hi) eq_refl). discriminate.
  - destruct f.
    + pose proof (proj1 (H 0%nat true eq_refl) eq_refl). discriminate.
    + simpl. rewrite (IH (k0 + 1) k).
      * f_equal. lia.
      * simpl in Hk. lia.
      * intros i f' Hi. rewrite (H (S i) f' Hi). lia.
Qed.

Lemma clear_lines_from_full_rows (g : Game) (ls : list Z) :
  board_ok (board g) ->
  full_rows (board g) (range BOARD_HEIGHT) = Ok ls ->
  exists b',
    clear_lines g = (Ok (len ls), set_board b' g) /\ board_ok b' /\
    remove_rows (sorted_reverse ls) (board g) = Ok b'.
Proof.
  intros Hb Hls.
  destruct (full_rows_ok (board g) (range BOARD_HEIGHT) Hb range_row_index)
    as [ls' [Hls' [Hf _]]].
  rewrite Hls in Hls'. inversion Hls'; subst ls'.
  destruct (remove_rows_ok (sorted_reverse ls) (board g) Hb) as [b' [Hb' Hok]].
  { unfold sorted_reverse. rewrite merge_sort_Permutation. assumption. }
  exists b'. unfold clear_lines, bind, read, ret. rewrite Hls, Hb'. auto.
Qed.

(** X11: on a 10x20 board [_clear_lines] returns the number of full rows and
    leaves a 10x20 board; when no row is full the board is left as it was. *)
Theorem clear_lines_counts_full_rows (g : Game) :
  board_ok (board g) ->
  exists b',
    clear_lines g = (Ok (len (List.filter all (board g))), set_board b' g) /\
    board_ok b' /\
    (List.filter all (board g) = [] -> clear_lines g = (Ok 0, g)).
Proof.
  intros Hb. pose proof Hb as [Hlen _].
  destruct (clear_lines_from_full_rows g _ Hb (full_rows_true_indices _ Hlen))
    as [b' [Hcl [Hb' Hrm]]].
  unfold len in Hcl. rewrite length_true_indices in Hcl.
  exists b'. split; [exact Hcl|]. split; [exact Hb'|].
  intros Hnone. rewrite Hcl, Hnone. simpl. f_equal.
  assert (Hnil : true_indices 0 (all <$> board g) = []).
  { apply length_zero_iff_nil. rewrite length_true_indices, Hnone. reflexivity. }
  rewrite Hnil in Hrm. simpl in Hrm. inversion Hrm. apply set_board_id.
Qed.

Lemma clear_lines_counts_full_rows_witness :
  exists b',
    clear_lines after_four_lines
      = (Ok (len (List.filter all (board after_four_lines))), set_board b' after_four_lines) /\
    board_ok b' /\
    (List.filter all (board after_four_lines) = [] ->
     clear_lines after_four_lines = (Ok 0, after_four_lines)).
Proof.
  apply (clear_lines_counts_full_rows after_four_lines).
  split; [reflexivity|]. vm_compute. repeat constructor.
Defined.

(** X12: when exactly one row [k] of a 10x20 board is full, [_clear_lines]
    returns 1 and the new board is an empty row followed by the old rows
    without row [k]: the rows above [k] move down by one, the rows below [k]
    stay, and no full row is left. *)
Theorem clear_lines_single_row (g : Game) (k : nat) :
  board_ok (board g) ->
  (k < 20)%nat ->
  (forall i r, board g !! i = Some r -> (all r = true <-> i = k)) ->
  clear_lines g = (Ok 1, set_board (empty_row :: delete k (board g)) g) /\
  (forall i, (i < k)%nat -> (empty_row :: delete k (board g)) !! S i = board g !! i) /\
  (forall i, (k < i)%nat -> (empty_row :: delete k (board g)) !! i = board g !! i) /\
  (forall r, r ∈ empty_row :: delete k (board g) -> all r = false).
Proof.
  intros Hb Hk Hfull. pose proof Hb as [Hlen _].
  assert (Hls : full_rows (board g) (range BOARD_HEIGHT) = Ok [Z.of_nat k]).
  { rewrite (full_rows_true_indices _ Hlen).
    rewrite (true_indices_single (all <$> board g) 0 k).
    - reflexivity.
    - rewrite length_fmap. lia.
    - intros i f Hi. rewrite list_lookup_fmap in Hi.
      destruct (board g !! i) as [r|] eqn:Hr; [|discriminate].
      simpl in Hi. inversion Hi; subst f. apply (Hfull i r Hr). }
  destruct (clear_lines_from_full_rows g _ Hb Hls) as [b' [Hcl [Hb' Hrm]]].
  change (sorted_reverse [Z.of_nat k]) with [Z.of_nat k] in Hrm.
  simpl in Hrm. rewrite py_delitem_in_range in Hrm by (unfold len; lia).
  simpl in Hrm. rewrite Nat2Z.id in Hrm. inversion Hrm; subst b'.
  split; [exact Hcl|]. split; [|split].
  - intros i Hi. simpl. apply list_lookup_delete_lt. exact Hi.
  - intros i Hi. destruct i as [|i]; [lia|]. simpl.
    apply list_lookup_delete_ge. lia.
  - intros r Hr. apply elem_of_cons in Hr as [->|Hr]; [reflexivity|].
    apply list_elem_of_lookup in Hr as [i Hi].
    rewrite list_lookup_delete in Hi.
    destruct (all r) eqn:Hall; [|reflexivity].
    pose proof (proj1 (Hfull _ r Hi) Hall) as Heq.
    destruct (decide (i < k)%nat); lia.
Qed.

Lemma clear_lines_single_row_witness :
  clear_lines one_full_row_state
    = (Ok 1, set_board (empty_row :: delete 12%nat (board one_full_row_state))
               one_full_row_state) /\
  (forall i, (i < 12)%nat ->
     (empty_row :: delete 12%nat (board one_full_row_state)) !! S i
     = board one_full_row_state !! i) /\
  (forall i, (12 < i)%nat ->
     (empty_row :: delete 12%nat (board one_full_row_state)) !! i
     = board one_full_row_state !! i) /\
  (forall r, r ∈ empty_row :: delete 12%nat (board one_full_row_state) -> all r = false).
Proof.
  apply (clear_lines_single_row one_full_row_state 12).
  - split; [reflexivity|]. vm_compute. repeat constructor.
  - lia.
  - intros i r H.
    do 20 (destruct i as [|i];
           [inversion H; subst r; split; intros H';
            first [lia | reflexivity | vm_compute in H'; discriminate H']|]).
    discriminate H.
Defined.

(** ** The cells that [_place_piece] writes *)

Lemma written_nothing (P : Z -> Z -> Prop) (b : Grid) :
  (forall X Y, 0 <= X < 10 -> 0 <= Y < 20 -> ~ P X Y) -> written P b b.
Proof.
  intros H X Y HX HY. split; [|split].
  - intros HP. destruct (H X Y HX HY HP).
  - reflexivity.
  - right. reflexivity.
Qed.

Lemma written_ext (P Q : Z -> Z -> Prop) (b b' : Grid) :
  written P b b' ->
  (forall X Y, 0 <= X < 10 -> 0 <= Y < 20 -> (P X Y <-> Q X Y)) ->
  written Q b b'.
Proof.
  intros H Hiff X Y HX HY.
  destruct (H X Y HX HY) as [H1 [H2 H3]]. pose proof (Hiff X Y HX HY) as Hi.
  split; [|split].
  - intros HQ. apply H1, Hi, HQ.
  - intros HQ. apply H2. intros HP. apply HQ, Hi, HP.
  - exact H3.
Qed.

Lemma written_combine (P Q R : Z -> Z -> Prop) (b b1 b2 : Grid) :
  written P b b1 -> written Q b1 b2 ->
  (forall X Y, R X Y <-> P X Y \/ Q X Y) ->
  (forall X Y, P X Y -> ~ Q X Y) ->
  written R b b2.
Proof.
  intros H1 H2 HR Hdis X Y HX HY.
  destruct (H1 X Y HX HY) as [P1 [P2 P3]].
  destruct (H2 X Y HX HY) as [Q1 [Q2 Q3]].
  split; [|split].
  - intros Hr. apply HR in Hr as [Hp|Hq].
    + rewrite (Q2 (Hdis X Y Hp)). apply P1, Hp.
    + apply Q1, Hq.
  - intros Hn. rewrite Q2, P2; [reflexivity| |]; intros Hc; apply Hn, HR; auto.
  - destruct Q3 as [Q3|Q3]; [left; exact Q3|].
    rewrite Q3. exact P3.
Qed.

Lemma write_cell_cells (g : Game) (X Y : Z) :
  board_ok (board g) -> 0 <= X < 10 -> 0 <= Y < 20 ->
  exists b', write_cell Y X g = (Ok tt, set_board b' g) /\ board_ok b' /\
             written (fun X' Y' => X' = X /\ Y' = Y) (board g) b'.
Proof.
  intros Hb HX HY.
  destruct (board_ok_cell _ X Y Hb HX HY) as [r [v [Hr [Hv [Hgr Hgv]]]]].
  assert (length r = 10%nat) as Hlen.
  { destruct Hb as [_ Hf]. rewrite Forall_lookup in Hf. eapply Hf; eauto. }
  pose proof Hb as [Hl _].
  unfold write_cell. rewrite Hgr.
  rewrite py_setitem_in_range by (unfold len; lia).
  rewrite py_setitem_in_range by (unfold len; lia).
  eexists. split; [reflexivity|]. split.
  { apply board_ok_insert; [assumption|]. rewrite length_insert. assumption. }
  assert (Hcell : forall X' Y', 0 <= X' < 10 -> 0 <= Y' < 20 ->
    cell_at (<[Z.to_nat Y := <[Z.to_nat X := 1]> r]> (board g)) X' Y'
    = if decide (X' = X /\ Y' = Y) then Some 1 else cell_at (board g) X' Y').
  { intros X' Y' HX' HY'. unfold cell_at.
    destruct (decide (Y' = Y)) as [->|Hy].
    - rewrite list_lookup_insert_eq by lia. rewrite Hr.
      destruct (decide (X' = X)) as [->|Hx].
      + rewrite list_lookup_insert_eq by lia.
        destruct (decide (X = X /\ Y = Y)) as [_|Hn]; [reflexivity|].
        destruct Hn; auto.
      + rewrite list_lookup_insert_ne by lia.
        destruct (decide (X' = X /\ Y = Y)) as [[Hc _]|_]; [lia|reflexivity].
    - rewrite list_lookup_insert_ne by lia.
      destruct (decide (X' = X /\ Y' = Y)) as [[_ Hc]|_]; [lia|reflexivity]. }
  intros X' Y' HX' HY'. rewrite (Hcell X' Y' HX' HY').
  destruct (decide (X' = X /\ Y' = Y)) as [Hd|Hd].
  - split; [reflexivity|]. split; [intros Hn; destruct (Hn Hd)|left; reflexivity].
  - split; [intros Hp; destruct (Hd Hp)|]. split; [reflexivity|right; reflexivity].
Qed.

Lemma write_row_cells (row : Z) (cells : list Z) :
  forall (k : nat) (g : Game),
  board_ok (board g) ->
  (forall j c, cells !! j = Some c -> c <> 0 ->
     0 <= pos_x (piece_position g) + Z.of_nat (k + j) < 10 /\
     pos_y (piece_position g) + row < 20) ->
  exists b',
    for_each (zip (Z.of_nat <$> seq k (length cells)) cells)
      (fun '(col, c) =>
         if truthy c then
           do! p := read (fun g => Ok (piece_position g)) in
           let board_y := pos_y p + row in
           let board_x := pos_x p + col in
           if board_y >=? 0 then write_cell board_y board_x else ret tt
         else ret tt) g = (Ok tt, set_board b' g) /\ board_ok b' /\
    written (fun X Y =>
               Y = pos_y (piece_position g) + row /\
               exists j c, cells !! j = Some c /\ c <> 0 /\
                           X = pos_x (piece_position g) + Z.of_nat (k + j))
            (board g) b'.
Proof.
  induction cells as [|c rest IH]; intros k g Hb Hin.
  - exists (board g). simpl. unfold ret. rewrite set_board_id.
    split; [reflexivity|]. split; [assumption|].
    apply written_nothing. intros X Y _ _ [_ [j [c [Hj _]]]]. discriminate.
  - simpl length. simpl seq. simpl fmap. simpl zip. simpl for_each.
    assert (Hstep : exists b1,
      (if truthy c then
         do! p := read (fun g => Ok (piece_position g)) in
         let board_y := pos_y p + row in
         let board_x := pos_x p + Z.of_nat k in
         if board_y >=? 0 then write_cell board_y board_x else ret tt
       else ret tt) g = (Ok tt, set_board b1 g) /\ board_ok b1 /\
      written (fun X Y => c <> 0 /\ X = pos_x (piece_position g) + Z.of_nat k /\
                          Y = pos_y (piece_position g) + row) (board g) b1).
    { destruct (truthy c) eqn:Hc.
      - apply truthy_true in Hc.
        destruct (Hin 0%nat c eq_refl Hc) as [HX HY].
        replace (k + 0)%nat with k in HX by lia.
        unfold bind, read. simpl.
        destruct (pos_y (piece_position g) + row >=? 0) eqn:Hy.
        + rewrite Z.geb_le in Hy.
          destruct (write_cell_cells g (pos_x (piece_position g) + Z.of_nat k)
                      (pos_y (piece_position g) + row) Hb) as [b1 [Hrun [Hb1 Hw]]];
            [lia|lia|].
          exists b1. split; [exact Hrun|]. split; [exact Hb1|].
          eapply written_ext; [exact Hw|]. intros X Y _ _. tauto.
        + exists (board g). unfold ret. rewrite set_board_id.
          split; [reflexivity|]. split; [assumption|].
          apply written_nothing. intros X Y _ HY' [_ [_ Hc']].
          destruct (Z.geb_spec (pos_y (piece_position g) + row) 0); [discriminate|lia].
      - apply truthy_false in Hc.
        exists (board g). unfold ret. rewrite set_board_id.
        split; [reflexivity|]. split; [assumption|].
        apply written_nothing. intros X Y _ _ [Hc' _]. auto. }
    destruct Hstep as [b1 [Hrun [Hb1 Hw1]]].
    cbv zeta in Hrun. unfold bind at 1. rewrite Hrun.
    destruct (IH (S k) (set_board b1 g)) as [b2 [Hrun2 [Hb2 Hw2]]].
    + assumption.
    + intros j c' Hj Hc'. simpl.
      destruct (Hin (S j) c' Hj Hc') as [HX HY].
      replace (k + S j)%nat with (S k + j)%nat in HX by lia. auto.
    + exists b2. split; [exact Hrun2|]. split; [assumption|].
      simpl in Hw2.
      eapply written_combine; [exact Hw1|exact Hw2| |].
      * intros X Y. split.
        -- intros [HY [j [c' [Hj [Hc' HX]]]]]. destruct j as [|j].
           ++ left. simpl in Hj. inversion Hj; subst c'.
              split; [assumption|]. split; [|assumption]. rewrite HX. f_equal. lia.
           ++ right. split; [assumption|]. exists j, c'. simpl in Hj.
              split; [assumption|]. split; [assumption|]. rewrite HX. f_equal. lia.
        -- intros [[Hc [HX HY]]|[HY [j [c' [Hj [Hc' HX]]]]]].
           ++ split; [assumption|]. exists 0%nat, c.
              split; [reflexivity|]. split; [assumption|]. rewrite HX. f_equal. lia.
           ++ split; [assumption|]. exists (S j), c'.
              split; [exact Hj|]. split; [assumption|]. rewrite HX. f_equal. lia.
      * intros X Y [_ [HX _]] [_ [j [c' [_ [_ HX']]]]]. lia.
Qed.

Lemma write_rows_cells (rows : Grid) :
  forall (k : nat) (g : Game),
  board_ok (board g) ->
  (forall i j, occupied rows i j ->
     0 <= pos_x (piece_position g) + Z.of_nat j < 10 /\
     pos_y (piece_position g) + Z.of_nat (k + i) < 20) ->
  exists b',
    for_each (zip (Z.of_nat <$> seq k (length rows)) rows)
      (fun '(row, cells) =>
         for_each (enumerate cells) (fun '(col, c) =>
           if truthy c then
             do! p := read (fun g => Ok (piece_position g)) in
             let board_y := pos_y p + row in
             let board_x := pos_x p + col in
             if board_y >=? 0 then write_cell board_y board_x else ret tt
           else ret tt)) g = (Ok tt, set_board b' g) /\ board_ok b' /\
    written (fun X Y =>
               exists i j, occupied rows i j /\
                 X = pos_x (piece_position g) + Z.of_nat j /\
                 Y = pos_y (piece_position g) + Z.of_nat (k + i))
            (board g) b'.
Proof.
  induction rows as [|cells rest IH]; intros k g Hb Hin.
  - exists (board g). simpl. unfold ret. rewrite set_board_id.
    split; [reflexivity|]. split; [assumption|].
    apply written_nothing. intros X Y _ _ [i [j [[r [c [Hr _]]] _]]]. discriminate.
  - simpl length. simpl seq. simpl fmap. simpl zip. simpl for_each.
    destruct (write_row_cells (Z.of_nat k) cells 0 g Hb) as [b1 [Hrun [Hb1 Hw1]]].
    { intros j c Hj Hc. simpl.
      destruct (Hin 0%nat j) as [HX HY]; [exists cells, c; auto|].
      replace (k + 0)%nat with k in HY by lia. auto. }
    cbv zeta in Hrun. unfold bind at 1. rewrite enumerate_seq, Hrun.
    destruct (IH (S k) (set_board b1 g)) as [b2 [Hrun2 [Hb2 Hw2]]].
    + assumption.
    + intros i j [r [c [Hr [Hc Hnz]]]]. simpl.
      destruct (Hin (S i) j) as [HX HY]; [exists r, c; auto|].
      replace (k + S i)%nat with (S k + i)%nat in HY by lia. auto.
    + exists b2. split; [exact Hrun2|]. split; [assumption|].
      simpl in Hw2.
      eapply written_combine; [exact Hw1|exact Hw2| |].
      * intros X Y. split.
        -- intros [i [j [[r [c [Hr [Hc Hnz]]]] [HX HY]]]]. destruct i as [|i].
           ++ left. simpl in Hr. inversion Hr; subst r.
              split; [rewrite HY; f_equal; lia|]. exists j, c. auto.
           ++ right. exists i, j. split; [exists r, c; auto|].
              split; [assumption|]. rewrite HY. f_equal. lia.
        -- intros [[HY [j [c [Hj [Hc HX]]]]]|[i [j [[r [c [Hr [Hc Hnz]]]] [HX HY]]]]].
           ++ exists 0%nat, j. split; [exists cells, c; auto|].
              split; [assumption|]. rewrite HY. f_equal. lia.
           ++ exists (S i), j. split; [exists r, c; auto|].
              split; [assumption|]. rewrite HY. f_equal. lia.
      * intros X Y [HY _] [i [j [_ [_ HY']]]]. lia.
Qed.

Lemma write_piece_cells (s : Grid) (g : Game) :
  board_ok (board g) ->
  (forall i j, occupied s i j ->
     0 <= pos_x (piece_position g) + Z.of_nat j < 10 /\
     pos_y (piece_position g) + Z.of_nat i < 20) ->
  exists b', write_piece s g = (Ok tt, set_board b' g) /\ board_ok b' /\
             written (covers s (piece_position g)) (board g) b'.
Proof.
  intros Hb Hin. unfold write_piece. rewrite enumerate_seq.
  destruct (write_rows_cells s 0 g Hb Hin) as [b' [Hrun [Hb' Hw]]].
  exists b'. split; [exact Hrun|]. split; [exact Hb'|].
  eapply written_ext; [exact Hw|]. intros X Y _ _. unfold covers. simpl.
  reflexivity.
Qed.

(** X13: for a catalogue piece at a valid position on a 10x20 board, the two
    writing loops of [_place_piece] raise nothing and change the board in
    exactly the cells under the occupied cells of the piece: each such cell
    was 0 and becomes 1, every other cell keeps its value. *)
Theorem place_piece_writes_the_piece (g : Game) :
  board_ok (board g) -> catalog (current_piece g) ->
  is_valid_position g None None None = Ok true ->
  exists s b',
    shape_at (current_piece g) (rotation g) = Some s /\
    write_piece s g = (Ok tt, set_board b' g) /\ board_ok b' /\
    forall X Y, 0 <= X < 10 -> 0 <= Y < 20 ->
      (covers s (piece_position g) X Y ->
       cell_at (board g) X Y = Some 0 /\ cell_at b' X Y = Some 1) /\
      (~ covers s (piece_position g) X Y -> cell_at b' X Y = cell_at (board g) X Y).
Proof.
  intros Hb Hc Hv.
  pose proof (catalog_rotations _ Hc) as Hne.
  destruct (is_valid_position_spec g (current_piece g) (piece_position g) (rotation g)
              Hne Hb) as [s [v [Hs [Hv' Hiff]]]].
  rewrite <- is_valid_position_defaults, Hv in Hv'. inversion Hv'; subst v.
  assert (Hfree : forall i j, occupied s i j ->
            ~ blocked (board g) (pos_x (piece_position g) + Z.of_nat j)
                                (pos_y (piece_position g) + Z.of_nat i)).
  { intros i j Ho Hbl.
    assert (true = false) by (apply Hiff; exists i, j; auto). discriminate. }
  destruct (write_piece_cells s g Hb) as [b' [Hrun [Hb' Hw]]].
  { intros i j Ho. pose proof (Hfree i j Ho) as Hn. unfold blocked in Hn. lia. }
  exists s, b'. split; [exact Hs|]. split; [exact Hrun|]. split; [exact Hb'|].
  intros X Y HX HY. destruct (Hw X Y HX HY) as [W1 [W2 _]].
  split; [|exact W2]. intros Hcov. split; [|exact (W1 Hcov)].
  destruct Hcov as [i [j [Ho [-> ->]]]].
  pose proof (Hfree i j Ho) as Hn.
  destruct (board_ok_cell _ _ _ Hb HX HY) as [r [c [Hr [Hcx _]]]].
  unfold cell_at. rewrite Hr, Hcx. f_equal.
  destruct (decide (c = 0)) as [Hz|Hz]; [exact Hz|].
  destruct Hn. right. right. right. split; [lia|]. exists r, c. auto.
Qed.

Lemma place_piece_writes_the_piece_witness :
  exists s b',
    shape_at (current_piece first_drop_state) (rotation first_drop_state) = Some s /\
    write_piece s first_drop_state = (Ok tt, set_board b' first_drop_state) /\
    board_ok b' /\
    forall X Y, 0 <= X < 10 -> 0 <= Y < 20 ->
      (covers s (piece_position first_drop_state) X Y ->
       cell_at (board first_drop_state) X Y = Some 0 /\ cell_at b' X Y = Some 1) /\
      (~ covers s (piece_position first_drop_state) X Y ->
       cell_at b' X Y = cell_at (board first_drop_state) X Y).
Proof.
  apply (place_piece_writes_the_piece first_drop_state).
  - split; [reflexivity|]. vm_compute. repeat constructor.
  - reflexivity.
  - vm_compute. reflexivity.
Defined.

(** ** The cells of the board are 0 or 1 *)

Lemma cells_binary_cell_at (b : Grid) :
  board_ok b ->
  (cells_binary b <->
   forall X Y, 0 <= X < 10 -> 0 <= Y < 20 ->
     cell_at b X Y = Some 0 \/ cell_at b X Y = Some 1).
Proof.
  intros Hb. unfold cells_binary. split.
  - intros H X Y HX HY.
    destruct (board_ok_cell _ _ _ Hb HX HY) as [r [c [Hr [Hc _]]]].
    unfold cell_at. rewrite Hr, Hc.
    rewrite Forall_lookup in H. pose proof (H _ _ Hr) as Hrow.
    rewrite Forall_lookup in Hrow. destruct (Hrow _ _ Hc) as [->| ->]; auto.
  - intros H. apply Forall_lookup. intros i r Hr. apply Forall_lookup. intros j c Hc.
    destruct Hb as [Hl Hf].
    assert (Hi : (i < 20)%nat) by (rewrite <- Hl; eapply lookup_lt_Some; eauto).
    assert (Hj : (j < 10)%nat).
    { rewrite Forall_lookup in Hf. rewrite <- (Hf _ _ Hr). eapply lookup_lt_Some; eauto. }
    specialize (H (Z.of_nat j) (Z.of_nat i)). unfold cell_at in H.
    rewrite !Nat2Z.id, Hr, Hc in H.
    destruct H as [H|H]; [lia|lia|inversion H; auto|inversion H; auto].
Qed.

Lemma cells_binary_written (P : Z -> Z -> Prop) (b b' : Grid) :
  board_ok b -> board_ok b' -> written P b b' -> cells_binary b -> cells_binary b'.
Proof.
  intros Hb Hb' Hw Hbin.
  rewrite (cells_binary_cell_at _ Hb) in Hbin. apply (cells_binary_cell_at _ Hb').
  intros X Y HX HY. destruct (Hw X Y HX HY) as [_ [_ [H|H]]].
  - right. exact H.
  - rewrite H. apply Hbin; assumption.
Qed.

Lemma cells_binary_remove_rows (rows : list Z) :
  forall b b', remove_rows rows b = Ok b' -> cells_binary b -> cells_binary b'.
Proof.
  induction rows as [|row rest IH]; intros b b' H Hbin; simpl in H.
  - inversion H; subst. exact Hbin.
  - unfold py_delitem in H. destruct (norm_index (length b) row) as [j|]; [|discriminate].
    simpl in H. apply (IH _ _ H). constructor.
    + repeat constructor.
    + apply Forall_delete. exact Hbin.
Qed.

Lemma cells_binary_write_and_clear (g : Game) :
  Inv g -> cells_binary (board g) ->
  exists n b, write_and_clear g = (Ok n, set_board b g) /\ cells_binary b.
Proof.
  intros [Hb [Hc [Hn [Hh Hin]]]] Hbin.
  destruct (in_bounds_cells g Hc Hin) as [s [Hs Hcells]].
  destruct (shape_at_getitem (current_piece g) (rotation g) (catalog_rotations _ Hc))
    as [s' [Hs' Hget]].
  rewrite Hs in Hs'. inversion Hs'; subst s'.
  destruct (write_piece_cells s g Hb Hcells) as [b1 [Hw [Hb1 Hwr]]].
  pose proof (cells_binary_written _ _ _ Hb Hb1 Hwr Hbin) as Hbin1.
  destruct (full_rows_ok b1 (range BOARD_HEIGHT) Hb1 range_row_index) as [ls [Hls _]].
  destruct (clear_lines_from_full_rows (set_board b1 g) ls Hb1 Hls) as [b2 [Hcl [_ Hrm]]].
  exists (len ls), b2. unfold write_and_clear, bind, read.
  rewrite Hget, Hw, Hcl. split; [reflexivity|].
  apply (cells_binary_remove_rows _ _ _ Hrm). exact Hbin1.
Qed.

Lemma cells_binary_hard_drop (fuel : nat) (rnd : kind) (g : Game) (r : result Z) (g' : Game) :
  Inv g -> cells_binary (board g) ->
  hard_drop fuel rnd g = Some (r, g') -> cells_binary (board g').
Proof.
  intros HI Hbin H. rewrite hard_drop_eq in H.
  destruct (drop_loop fuel 0 g) as [[r1 g1]|] eqn:E; [|discriminate].
  destruct (drop_loop_Inv _ _ _ _ _ HI E) as [HI1 [d [-> Hd]]].
  destruct (drop_loop_fields _ _ _ _ _ E) as [_ [_ [_ Hboard]]].
  pose proof (Inv_set_score (score g1 + d * 2) g1 HI1) as HI2.
  destruct (place_piece_ok rnd _ HI2) as [n [b [v [Hwc [Hb [Hn [Hv Hpp]]]]]]].
  destruct (cells_binary_write_and_clear _ HI2) as [n' [b' [Hwc' Hbin']]].
  { simpl. rewrite Hboard. exact Hbin. }
  rewrite Hwc in Hwc'. inversion Hwc'; subst n' b'.
  rewrite Hpp in H.
  destruct (n <=? 4); inversion H; subst r g'; [|exact Hbin'].
  unfold after_score. destruct (n <=? 0); exact Hbin'.
Qed.

Lemma cells_binary_run_op (fuel : nat) (o : op) (g g' : Game) :
  Inv g -> cells_binary (board g) -> run_op fuel o g = Some g' ->
  cells_binary (board g').
Proof.
  intros HI Hbin Hrun.
  pose proof HI as [Hb [Hcat [Hn [Hh Hin]]]].
  destruct o; simpl in Hrun.
  - inversion Hrun; subst g'. rewrite move_piece_eq.
    destruct (is_valid_position g None _ None) as [[|]|]; exact Hbin.
  - inversion Hrun; subst g'. rewrite rotate_piece_eq. unfold rotate_outcome.
    destruct (py_mod _ _) as [nr|]; [|exact Hbin].
    destruct (first_valid g _ kick_candidates) as [[dx|]|]; exact Hbin.
  - inversion Hrun; subst g'. unfold drop_piece. rewrite move_piece_eq.
    destruct (is_valid_position g None _ None) as [[|]|]; exact Hbin.
  - destruct (hard_drop fuel rnd g) as [[r g1]|] eqn:E; [|discriminate].
    inversion Hrun; subst g'. simpl.
    apply (cells_binary_hard_drop _ _ _ _ _ HI Hbin E).
  - inversion Hrun; subst g'. rewrite (hold_piece_eq rnd g Hn Hh).
    destruct (can_hold g); [|exact Hbin].
    unfold after_hold, swapped. destruct (held_piece g); exact Hbin.
  - destruct (get_ghost_position fuel g) as [[r g1]|] eqn:E; [|discriminate].
    inversion Hrun; subst g'. simpl.
    apply get_ghost_position_state in E. subst g1. exact Hbin.
  - inversion Hrun; subst g'. exact Hbin.
  - inversion Hrun; subst g'. exact Hbin.
Qed.

Lemma cells_binary_run_ops (fuel : nat) (ops : list op) :
  forall g g', Inv g -> cells_binary (board g) ->
  run_ops fuel ops g = Some g' -> cells_binary (board g').
Proof.
  induction ops as [|o rest IH]; intros g g' HI Hbin H; simpl in H.
  - inversion H; subst. exact Hbin.
  - destruct (run_op fuel o g) as [g1|] eqn:E; [|discriminate].
    apply (IH g1 g' (Inv_run_op _ _ _ _ HI E)); [|exact H].
    apply (cells_binary_run_op _ _ _ _ HI Hbin E).
Qed.

(** X14: in every state that public calls can reach from a fresh game, also
    after a call that raised, every cell of the board is 0 or 1. *)
Theorem board_cells_are_0_or_1 (g : Game) :
  reachable g ->
  cells_binary (board g) /\
  forall X Y, 0 <= X < 10 -> 0 <= Y < 20 ->
    cell_at (board g) X Y = Some 0 \/ cell_at (board g) X Y = Some 1.
Proof.
  intros Hr. pose proof (Inv_reachable g Hr) as [Hb _].
  assert (Hbin : cells_binary (board g)).
  { destruct Hr as [rnd1 [rnd2 [ops [fuel H]]]].
    apply (cells_binary_run_ops _ _ _ _ (Inv_new_game rnd1 rnd2)) in H; [exact H|].
    destruct rnd1; vm_compute; repeat constructor. }
  split; [exact Hbin|]. apply (cells_binary_cell_at _ Hb), Hbin.
Qed.

Lemma board_cells_are_0_or_1_witness :
  cells_binary (board state_after_ops) /\
  forall X Y, 0 <= X < 10 -> 0 <= Y < 20 ->
    cell_at (board state_after_ops) X Y = Some 0 \/
    cell_at (board state_after_ops) X Y = Some 1.
Proof.
  apply (board_cells_are_0_or_1 state_after_ops).
  apply reachable_play. vm_compute. discriminate.
Defined.

(** ** Holding *)

(** X15: [hold_piece] with catalogue lookahead and held pieces returns the
    value of [can_hold] and never touches the board or the counters.  When
    refused it changes nothing.  When allowed it stores the catalogue entry
    of the current piece's type, takes the held piece (or, when none was
    held, the lookahead piece, drawing a new lookahead piece), resets the
    rotation and the offset, and forbids holding: a second [hold_piece] right
    after it is refused and changes nothing. *)
Theorem hold_piece_once_per_piece (rnd rnd' : kind) (g : Game) :
  catalog (next_piece g) ->
  (forall h, held_piece g = Some h -> catalog h) ->
  exists g',
    hold_piece rnd g = (Ok (can_hold g), g') /\
    board g' = board g /\ score g' = score g /\
    lines_cleared g' = lines_cleared g /\ level g' = level g /\
    (can_hold g = false -> g' = g) /\
    (can_hold g = true ->
       held_piece g' = Some (generate_random_piece (type (current_piece g))) /\
       current_piece g'
         = match held_piece g with Some h => h | None => next_piece g end /\
       next_piece g'
         = match held_piece g with
           | Some _ => next_piece g
           | None => generate_random_piece rnd
           end /\
       rotation g' = 0 /\ can_hold g' = false /\
       piece_position g'
         = {| pos_x := spawn_x (type (current_piece g')); pos_y := 0 |} /\
       hold_piece rnd' g' = (Ok false, g')).
Proof.
  intros Hn Hh. rewrite (hold_piece_eq rnd g Hn Hh).
  destruct (can_hold g) eqn:Hcan.
  - exists (after_hold rnd g). split; [reflexivity|].
    destruct (catalog_swapped rnd g Hn Hh) as [Hc' [Hn' [Hh' Hb']]].
    assert (Hagain : hold_piece rnd' (after_hold rnd g) = (Ok false, after_hold rnd g)).
    { rewrite hold_piece_eq; [reflexivity|exact Hn'|exact Hh']. }
    unfold after_hold, swapped in *.
    destruct (held_piece g) as [h|]; simpl in *;
      (do 4 (split; [reflexivity|])); (split; [discriminate|]);
      intros _; (do 6 (split; [reflexivity|])); exact Hagain.
  - exists g. do 5 (split; [reflexivity|]). split; [reflexivity|discriminate].
Qed.

Lemma hold_piece_once_per_piece_witness :
  exists g',
    hold_piece KT column_state = (Ok (can_hold column_state), g') /\
    board g' = board column_state /\ score g' = score column_state /\
    lines_cleared g' = lines_cleared column_state /\ level g' = level column_state /\
    (can_hold column_state = false -> g' = column_state) /\
    (can_hold column_state = true ->
       held_piece g' = Some (generate_random_piece (type (current_piece column_state))) /\
       current_piece g'
         = match held_piece column_state with
           | Some h => h
           | None => next_piece column_state
           end /\
       next_piece g'
         = match held_piece column_state with
           | Some _ => next_piece column_state
           | None => generate_random_piece KT
           end /\
       rotation g' = 0 /\ can_hold g' = false /\
       piece_position g'
         = {| pos_x := spawn_x (type (current_piece g')); pos_y := 0 |} /\
       hold_piece KO g' = (Ok false, g')).
Proof.
  apply (hold_piece_once_per_piece KT KO column_state).
  - reflexivity.
  - intros h H. vm_compute in H. discriminate H.
Defined.

(** ** The outcome of a hard drop *)

Lemma write_and_clear_cells (g : Game) :
  Inv g ->
  exists s b1 b',
    shape_at (current_piece g) (rotation g) = Some s /\
    written (covers s (piece_position g)) (board g) b1 /\ board_ok b1 /\
    board_ok b' /\
    (forall g0, clear_lines (set_board b1 g0)
                = (Ok (len (List.filter all b1)), set_board b' g0)) /\
    write_and_clear g = (Ok (len (List.filter all b1)), set_board b' g).
Proof.
  intros [Hb [Hc [Hn [Hh Hin]]]].
  destruct (in_bounds_cells g Hc Hin) as [s [Hs Hcells]].
  destruct (shape_at_getitem (current_piece g) (rotation g) (catalog_rotations _ Hc))
    as [s' [Hs' Hget]].
  rewrite Hs in Hs'. inversion Hs'; subst s'.
  destruct (write_piece_cells s g Hb Hcells) as [b1 [Hw [Hb1 Hwr]]].
  pose proof Hb1 as [Hlen _].
  pose proof (full_rows_true_indices b1 Hlen) as Hls.
  assert (Hall : forall g0, exists b',
            clear_lines (set_board b1 g0)
              = (Ok (len (List.filter all b1)), set_board b' g0) /\ board_ok b' /\
            remove_rows (sorted_reverse (true_indices 0 (all <$> b1))) b1 = Ok b').
  { intros g0.
    destruct (clear_lines_from_full_rows (set_board b1 g0) _ Hb1 Hls) as [b' [Hcl [Hb' Hrm]]].
    exists b'. unfold len in Hcl. rewrite length_true_indices in Hcl. auto. }
  destruct (Hall g) as [b' [Hcl [Hb' Hrm]]].
  exists s, b1, b'. split; [exact Hs|]. split; [exact Hwr|].
  split; [exact Hb1|]. split; [exact Hb'|]. split.
  - intros g0. destruct (Hall g0) as [b'' [Hcl0 [_ Hrm0]]].
    rewrite Hrm in Hrm0. inversion Hrm0; subst b''. exact Hcl0.
  - unfold write_and_clear, bind, read. rewrite Hget, Hw. exact Hcl.
Qed.

(** X16: a hard drop in a reachable state, given enough loop iterations.
    The drop loop stops after [d] steps at some offset; the piece is written
    there; the number [n] of lines is the number of full rows of the board
    thus written, and the board afterwards is what [_clear_lines] makes of
    it.  When [n <= 4] the call returns [n] if the new piece is in a valid
    position and -1 if it is not, the score has grown by
    [2 * d] plus the table entry for [n] times the old level, the line total
    by [n], the level is the one of the new line total, and the lookahead
    piece has become the current piece.  When [n > 4] the call raises
    [IndexError] after the board has changed and the drop bonus has been
    added; the counters and the pieces are otherwise as before. *)
Theorem hard_drop_outcome (fuel : nat) (rnd : kind) (g : Game) :
  reachable g -> (enough_fuel g <= fuel)%nat ->
  exists (d : Z) (gd : Game) (s b1 : Grid) (r : result Z) (g' : Game),
    drop_loop fuel 0 g = Some (Ok d, gd) /\ 0 <= d /\
    gd = set_piece_position (piece_position gd) g /\
    shape_at (current_piece g) (rotation g) = Some s /\
    written (covers s (piece_position gd)) (board g) b1 /\ board_ok b1 /\
    clear_lines (set_board b1 g)
      = (Ok (len (List.filter all b1)), set_board (board g') g) /\
    hard_drop fuel rnd g = Some (r, g') /\
    ((len (List.filter all b1) <= 4 /\
      (r = Ok (len (List.filter all b1)) /\
       is_valid_position g' None None None = Ok true \/
       r = Ok (-1) /\ is_valid_position g' None None None = Ok false) /\
      score g' = score g + 2 * d
                 + score_table (len (List.filter all b1)) * level g /\
      lines_cleared g' = lines_cleared g + len (List.filter all b1) /\
      level g' = (lines_cleared g + len (List.filter all b1)) / 10 + 1 /\
      current_piece g' = next_piece g /\
      next_piece g' = generate_random_piece rnd /\
      rotation g' = 0 /\ can_hold g' = true)
     \/
     (4 < len (List.filter all b1) /\ r = Raise IndexError /\
      score g' = score g + 2 * d /\
      lines_cleared g' = lines_cleared g /\ level g' = level g /\
      g' = set_board (board g') (set_score (score g + 2 * d) gd))).
Proof.
  intros Hr Hfuel.
  pose proof (Inv_reachable g Hr) as HI.
  destruct (reachable_counters g Hr) as [[Hsc [Hlc Hlev]] _].
  pose proof HI as [Hb [Hc _]].
  destruct (drop_loop_terminates fuel 0 g Hc Hfuel) as [r1 [g1 E]].
  destruct (drop_loop_Inv _ _ _ _ _ HI E) as [HI1 [d [-> Hd]]].
  pose proof (drop_loop_frame _ _ _ _ _ E) as Hg1.
  destruct (drop_loop_fields _ _ _ _ _ E) as [Hs1 [Hl1 [Hc1 Hb1]]].
  pose proof (Inv_set_score (score g1 + d * 2) g1 HI1) as HI2.
  destruct (write_and_clear_cells _ HI2) as [s [b1 [b' [Hs [Hw [Hbo1 [Hbo' [Hcl Hwc]]]]]]]].
  destruct (place_piece_ok rnd _ HI2) as [n [b [v [Hwc' [_ [Hn [Hv Hpp]]]]]]].
  rewrite Hwc in Hwc'. inversion Hwc' as [[Hn' Hb']]. clear Hwc'.
  subst n b.
  simpl in Hs, Hw. rewrite Hb1 in Hw.
  assert (Hcur : current_piece g1 = current_piece g) by (rewrite Hg1; reflexivity).
  assert (Hrot : rotation g1 = rotation g) by (rewrite Hg1; reflexivity).
  assert (Hnx : next_piece g1 = next_piece g) by (rewrite Hg1; reflexivity).
  rewrite Hcur, Hrot in Hs.
  assert (Hhd : hard_drop fuel rnd g
                = Some (place_piece rnd (set_score (score g1 + d * 2) g1)))
    by (rewrite hard_drop_eq, E; reflexivity).
  rewrite Hpp in Hhd.
  set (n := len (List.filter all b1)) in *.
  destruct (Z.leb_spec n 4) as [Hle|Hgt].
  - eexists d, g1, s, b1, _, _. fold n.
    split; [exact E|]. split; [lia|]. split; [exact Hg1|]. split; [exact Hs|].
    split; [exact Hw|]. split; [exact Hbo1|].
    split; [|split; [exact Hhd|]].
    + rewrite Hcl. unfold after_score. destruct (n <=? 0); reflexivity.
    + left. split; [exact Hle|]. split; [destruct v; auto|].
      clear Hv.
      unfold after_score. destruct (Z.leb_spec n 0) as [H0|H0]; simpl.
      * assert (Hn0 : n = 0) by lia. rewrite Hn0.
        rewrite Hs1, Hl1, Hc1, Hnx, !Z.add_0_r.
        repeat split; lia.
      * rewrite Hs1, Hl1, Hc1, Hnx. repeat split; lia.
  - eexists d, g1, s, b1, _, _. fold n.
    split; [exact E|]. split; [lia|]. split; [exact Hg1|]. split; [exact Hs|].
    split; [exact Hw|]. split; [exact Hbo1|].
    split; [|split; [exact Hhd|]].
    + rewrite Hcl. reflexivity.
    + right. split; [exact Hgt|]. split; [reflexivity|]. simpl.
      rewrite Hs1, Hl1, Hc1. split; [lia|]. split; [reflexivity|].
      split; [reflexivity|]. f_equal. f_equal. lia.
Qed.

Lemma hard_drop_outcome_witness :
  exists (d : Z) (gd : Game) (s b1 : Grid) (r : result Z) (g' : Game),
    drop_loop 30 0 first_drop_state = Some (Ok d, gd) /\ 0 <= d /\
    gd = set_piece_position (piece_position gd) first_drop_state /\
    shape_at (current_piece first_drop_state) (rotation first_drop_state) = Some s /\
    written (covers s (piece_position gd)) (board first_drop_state) b1 /\ board_ok b1 /\
    clear_lines (set_board b1 first_drop_state)
      = (Ok (len (List.filter all b1)), set_board (board g') first_drop_state) /\
    hard_drop 30 KT first_drop_state = Some (r, g') /\
    ((len (List.filter all b1) <= 4 /\
      (r = Ok (len (List.filter all b1)) /\
       is_valid_position g' None None None = Ok true \/
       r = Ok (-1) /\ is_valid_position g' None None None = Ok false) /\
      score g' = score first_drop_state + 2 * d
                 + score_table (len (List.filter all b1)) * level first_drop_state /\
      lines_cleared g' = lines_cleared first_drop_state + len (List.filter all b1) /\
      level g' = (lines_cleared first_drop_state + len (List.filter all b1)) / 10 + 1 /\
      current_piece g' = next_piece first_drop_state /\
      next_piece g' = generate_random_piece KT /\
      rotation g' = 0 /\ can_hold g' = true)
     \/
     (4 < len (List.filter all b1) /\ r = Raise IndexError /\
      score g' = score first_drop_state + 2 * d /\
      lines_cleared g' = lines_cleared first_drop_state /\
      level g' = level first_drop_state /\
      g' = set_board (board g') (set_score (score first_drop_state + 2 * d) gd))).
Proof.
  apply (hard_drop_outcome 30 KT first_drop_state).
  - apply reachable_play. vm_compute. discriminate.
  - vm_compute. lia.
Defined.

(** ** The rotation index *)

(** X17: [_is_valid_position] looks at the rotation index only modulo the
    number of rotation states of the piece: any integer index, also a
    negative one, is accepted, and indices that differ by a multiple of that
    number give the same answer. *)
Theorem is_valid_position_rotation_wraps
    (g : Game) (piece : Piece) (pos : Pos) (rot k : Z) :
  rotations piece <> [] ->
  is_valid_position g (Some piece) (Some pos) (Some (rot + k * len (rotations piece)))
  = is_valid_position g (Some piece) (Some pos) (Some rot) /\
  is_valid_position g (Some piece) (Some pos) (Some rot)
  = is_valid_position g (Some piece) (Some pos) (Some (rot mod len (rotations piece))) /\
  0 <= rot mod len (rotations piece) < len (rotations piece).
Proof.
  intros Hne.
  assert (Hpos : 0 < len (rotations piece)).
  { unfold len. destruct (rotations piece); [congruence|simpl; lia]. }
  unfold is_valid_position. rewrite !(py_mod_ok _ _ Hne).
  rewrite Z.mod_add by lia. rewrite Z.mod_mod by lia.
  split; [reflexivity|]. split; [reflexivity|].
  apply Z.mod_pos_bound. exact Hpos.
Qed.

Lemma is_valid_position_rotation_wraps_witness :
  is_valid_position column_state (Some (generate_random_piece KT))
    (Some {| pos_x := 3; pos_y := 5 |})
    (Some (-1 + 3 * len (rotations (generate_random_piece KT))))
  = is_valid_position column_state (Some (generate_random_piece KT))
      (Some {| pos_x := 3; pos_y := 5 |}) (Some (-1)) /\
  is_valid_position column_state (Some (generate_random_piece KT))
    (Some {| pos_x := 3; pos_y := 5 |}) (Some (-1))
  = is_valid_position column_state (Some (generate_random_piece KT))
      (Some {| pos_x := 3; pos_y := 5 |})
      (Some (-1 mod len (rotations (generate_random_piece KT)))) /\
  0 <= -1 mod len (rotations (generate_random_piece KT))
    < len (rotations (generate_random_piece KT)).
Proof.
  apply (is_valid_position_rotation_wraps column_state (generate_random_piece KT)
           {| pos_x := 3; pos_y := 5 |} (-1) 3).
  discriminate.
Defined.

(** ** A full turn *)

Lemma rotate_piece_in_place (g : Game) :
  rotations (current_piece g) <> [] ->
  is_valid_position g None None
    (Some ((rotation g + 1) mod len (rotations (current_piece g)))) = Ok true ->
  rotate_piece g
  = (Ok true, set_rotation ((rotation g + 1) mod len (rotations (current_piece g))) g).
Proof.
  intros Hne Hv. rewrite rotate_piece_eq. unfold rotate_outcome.
  rewrite (py_mod_ok _ _ Hne). unfold kick_candidates. simpl first_valid.
  rewrite shifted_0_0.
  change (is_valid_position g None (Some (piece_position g))
            (Some ((rotation g + 1) mod len (rotations (current_piece g)))))
    with (is_valid_position g None None
            (Some ((rotation g + 1) mod len (rotations (current_piece g))))).
  rewrite Hv, shifted_0_0, set_piece_position_same. reflexivity.
Qed.

Lemma rotate_piece_turns (fuel : nat) (g : Game) :
  rotations (current_piece g) <> [] ->
  (forall i, 0 <= i < len (rotations (current_piece g)) ->
     is_valid_position g None None (Some i) = Ok true) ->
  forall (k : nat) (r : Z),
  0 <= r < len (rotations (current_piece g)) ->
  run_ops fuel (replicate k OpRotate) (set_rotation r g)
  = Some (set_rotation ((r + Z.of_nat k) mod len (rotations (current_piece g))) g).
Proof.
  intros Hne Hall. induction k as [|k IH]; intros r Hr.
  - simpl. rewrite Z.add_0_r, Z.mod_small by lia. reflexivity.
  - simpl replicate. simpl run_ops.
    rewrite (rotate_piece_in_place (set_rotation r g)); [|exact Hne|].
    + simpl snd.
      change (run_ops fuel (replicate k OpRotate)
                (set_rotation ((r + 1) mod len (rotations (current_piece g))) g)
              = Some (set_rotation
                        ((r + Z.of_nat (S k)) mod len (rotations (current_piece g))) g)).
      rewrite IH by (apply Z.mod_pos_bound; lia).
      rewrite Zplus_mod_idemp_l. do 2 f_equal. f_equal. lia.
    + change (is_valid_position g None None
                (Some ((r + 1) mod len (rotations (current_piece g)))) = Ok true).
      apply Hall. apply Z.mod_pos_bound. lia.
Qed.

(** X18: when the current piece fits at its offset in every one of its
    rotation states and the rotation index is in range, as many calls of
    [rotate_piece] as the piece has rotation states need no wall kick and
    bring the game back to the state it started from. *)
Theorem rotate_piece_full_turn (fuel : nat) (g : Game) :
  rotations (current_piece g) <> [] ->
  0 <= rotation g < len (rotations (current_piece g)) ->
  (forall i, 0 <= i < len (rotations (current_piece g)) ->
     is_valid_position g None None (Some i) = Ok true) ->
  rotate_piece g
  = (Ok true, set_rotation ((rotation g + 1) mod len (rotations (current_piece g))) g) /\
  run_ops fuel (replicate (length (rotations (current_piece g))) OpRotate) g = Some g.
Proof.
  intros Hne Hr Hall. split.
  - apply rotate_piece_in_place; [exact Hne|].
    apply Hall. apply Z.mod_pos_bound. lia.
  - pose proof (rotate_piece_turns fuel g Hne Hall
                  (length (rotations (current_piece g))) (rotation g) Hr) as H.
    rewrite set_rotation_id in H. rewrite H. f_equal.
    fold (len (rotations (current_piece g))).
    replace (rotation g + len (rotations (current_piece g)))
      with (rotation g + 1 * len (rotations (current_piece g))) by lia.
    rewrite Z.mod_add by lia. rewrite Z.mod_small by lia.
    apply set_rotation_id.
Qed.

Lemma rotate_piece_full_turn_witness :
  rotate_piece (new_game KT KO)
  = (Ok true,
     set_rotation ((rotation (new_game KT KO) + 1)
                   mod len (rotations (current_piece (new_game KT KO))))
       (new_game KT KO)) /\
  run_ops 0 (replicate (length (rotations (current_piece (new_game KT KO)))) OpRotate)
    (new_game KT KO) = Some (new_game KT KO).
Proof.
  apply (rotate_piece_full_turn 0 (new_game KT KO)).
  - discriminate.
  - vm_compute. split; [discriminate|reflexivity].
  - intros i Hi.
    assert (Hlen : len (rotations (current_piece (new_game KT KO))) = 4) by reflexivity.
    rewrite Hlen in Hi.
    assert (Hcases : i = 0 \/ i = 1 \/ i = 2 \/ i = 3) by lia.
    destruct Hcases as [->|[->|[->| ->]]]; vm_compute; reflexivity.
Defined.

(** ** Two full rows *)

Lemma sorted_reverse_pair (a b : Z) : a < b -> sorted_reverse [a; b] = [b; a].
Proof.
  intros H. unfold sorted_reverse, merge_sort. simpl.
  destruct (decide (a >= b)); [lia|reflexivity].
Qed.

Lemma true_indices_two (flags : list bool) :
  forall (k0 : Z) (k1 k2 : nat),
  (k1 < k2 < length flags)%nat ->
  (forall i f, flags !! i = Some f -> (f = true <-> i = k1 \/ i = k2)) ->
  true_indices k0 flags = [k0 + Z.of_nat k1; k0 + Z.of_nat k2].
Proof.
  induction flags as [|f flags IH]; intros k0 k1 k2 Hk H; [simpl in Hk; lia|].
  simpl in Hk. simpl. destruct k1 as [|k1].
  - rewrite (proj2 (H 0%nat f eq_refl) (or_introl eq_refl)). simpl.
    destruct k2 as [|k2]; [lia|].
    rewrite (true_indices_single flags (k0 + 1) k2).
    + f_equal; [lia|f_equal; lia].
    + lia.
    + intros i f' Hi. rewrite (H (S i) f' Hi). lia.
  - destruct k2 as [|k2]; [lia|]. destruct f.
    + pose proof (proj1 (H 0%nat true eq_refl) eq_refl). lia.
    + simpl. rewrite (IH (k0 + 1) k1 k2).
      * f_equal; [lia|f_equal; lia].
      * lia.
      * intros i f' Hi. rewrite (H (S i) f' Hi). lia.
Qed.

(** X19: when exactly two rows [k1 < k2] of a 10x20 board are full,
    [_clear_lines] returns 2, but after row [k2] has been deleted and an
    empty row inserted at the top it deletes index [k1] of the shifted
    board: the full row [k1] stays on the board, one row lower, the rows
    between the two move down by one, the rows below [k2] stay, and the rows
    above [k1] move down by two except the one just above [k1], which is
    lost. *)
Theorem clear_lines_two_full_rows (g : Game) (k1 k2 : nat) :
  board_ok (board g) ->
  (k1 < k2 < 20)%nat ->
  (forall i r, board g !! i = Some r -> (all r = true <-> i = k1 \/ i = k2)) ->
  clear_lines g
  = (Ok 2, set_board (empty_row :: delete k1 (empty_row :: delete k2 (board g))) g) /\
  (exists r, (empty_row :: delete k1 (empty_row :: delete k2 (board g))) !! S k1 = Some r /\
             board g !! k1 = Some r /\ all r = true) /\
  (forall i, (k1 <= i < k2)%nat ->
     (empty_row :: delete k1 (empty_row :: delete k2 (board g))) !! S i = board g !! i) /\
  (forall i, (k2 < i)%nat ->
     (empty_row :: delete k1 (empty_row :: delete k2 (board g))) !! i = board g !! i) /\
  (forall i, (S i < k1)%nat ->
     (empty_row :: delete k1 (empty_row :: delete k2 (board g))) !! S (S i) = board g !! i).
Proof.
  intros Hb Hk Hfull. pose proof Hb as [Hlen _].
  assert (Hls : full_rows (board g) (range BOARD_HEIGHT)
                = Ok [Z.of_nat k1; Z.of_nat k2]).
  { rewrite (full_rows_true_indices _ Hlen).
    rewrite (true_indices_two (all <$> board g) 0 k1 k2).
    - reflexivity.
    - rewrite length_fmap. lia.
    - intros i f Hi. rewrite list_lookup_fmap in Hi.
      destruct (board g !! i) as [r|] eqn:Hr; [|discriminate].
      simpl in Hi. inversion Hi; subst f. apply (Hfull i r Hr). }
  destruct (clear_lines_from_full_rows g _ Hb Hls) as [b' [Hcl [Hb' Hrm]]].
  rewrite sorted_reverse_pair in Hrm by lia.
  simpl in Hrm. rewrite py_delitem_in_range in Hrm by (unfold len; lia).
  simpl in Hrm. rewrite Nat2Z.id in Hrm.
  rewrite py_delitem_in_range in Hrm
    by (unfold len; simpl;
        rewrite length_delete by (apply lookup_lt_is_Some_2; lia); lia).
  simpl in Hrm. rewrite Nat2Z.id in Hrm. inversion Hrm; subst b'.
  assert (Hmid : forall i, (k1 <= i < k2)%nat ->
     (empty_row :: delete k1 (empty_row :: delete k2 (board g))) !! S i = board g !! i).
  { intros i Hi. change (delete k1 (empty_row :: delete k2 (board g)) !! i = board g !! i).
    rewrite list_lookup_delete_ge by lia. simpl.
    apply list_lookup_delete_lt. lia. }
  split; [exact Hcl|]. split; [|split; [exact Hmid|split]].
  - destruct (lookup_lt_is_Some_2 (board g) k1) as [r Hr]; [lia|].
    exists r. split; [rewrite Hmid by lia; exact Hr|]. split; [exact Hr|].
    apply (Hfull k1 r Hr). left. reflexivity.
  - intros i Hi. destruct i as [|i]; [lia|].
    change (delete k1 (empty_row :: delete k2 (board g)) !! i = board g !! S i).
    rewrite list_lookup_delete_ge by lia. simpl.
    apply list_lookup_delete_ge. lia.
  - intros i Hi.
    change (delete k1 (empty_row :: delete k2 (board g)) !! S i = board g !! i).
    rewrite list_lookup_delete_lt by lia. simpl.
    apply list_lookup_delete_lt. lia.
Qed.

Lemma clear_lines_two_full_rows_witness :
  clear_lines marked_state
  = (Ok 2, set_board (empty_row :: delete 5%nat
                        (empty_row :: delete 7%nat (board marked_state))) marked_state) /\
  (exists r, (empty_row :: delete 5%nat
                (empty_row :: delete 7%nat (board marked_state))) !! 6%nat = Some r /\
             board marked_state !! 5%nat = Some r /\ all r = true) /\
  (forall i, (5 <= i < 7)%nat ->
     (empty_row :: delete 5%nat (empty_row :: delete 7%nat (board marked_state))) !! S i
     = board marked_state !! i) /\
  (forall i, (7 < i)%nat ->
     (empty_row :: delete 5%nat (empty_row :: delete 7%nat (board marked_state))) !! i
     = board marked_state !! i) /\
  (forall i, (S i < 5)%nat ->
     (empty_row :: delete 5%nat (empty_row :: delete 7%nat (board marked_state))) !! S (S i)
     = board marked_state !! i).
Proof.
  apply (clear_lines_two_full_rows marked_state 5 7).
  - split; [reflexivity|]. vm_compute. repeat constructor.
  - lia.
  - intros i r H.
    do 20 (destruct i as [|i];
           [inversion H; subst r; split; intros H';
            first [lia | reflexivity | vm_compute in H'; discriminate H']|]).
    discriminate H.
Defined.

(** ** A hard drop after the game-over signal *)



